(** * Hamster Run: the runtime game core

    A shallow embedding of the game-state store (GameManager.ts), the player
    motion model and its input handlers (Player.tsx), the spawner and the
    collision resolver (Obstacles.tsx), the sound controller
    (AudioManager.ts) and the camera (Game.tsx), followed by the properties
    of the specification and further properties of the code.

    Conventions of the embedding.
    - A JavaScript [number] that holds a speed, a position or a time in
      seconds is an exact rational ([Q], compared with [==]); a score, a lane
      index or a time in milliseconds is an integer ([Z]).  Rounding of
      IEEE doubles is not modelled; the last section checks the constants of
      the scenarios in binary64.
    - [setTimeout] is a queue of pending one-shot timers on a virtual clock
      in milliseconds.  The callbacks of the store never schedule timers
      themselves, so the queue is kept ordered by due time (ties in the order
      of scheduling) and the passing of time fires a prefix of it.
    - [navigator.vibrate] changes no state and is left out; the sound cues of
      the resolver are part of its list of dispatched effects. *)

From Stdlib Require Import ZArith QArith Qminmax Qabs Qround Qpower List Bool Lia Lqa.
From Stdlib Require Floats Ascii String DecimalString.
Import ListNotations.

#[local] Open Scope Z_scope.

(** ** GameManager.ts: the zustand store *)

Module GameManager.

Inductive Status : Type := Idle | Playing | GameOver.

Definition Status_eqb (a b : Status) : bool :=
  match a, b with
  | Idle, Idle | Playing, Playing | GameOver, GameOver => true
  | _, _ => false
  end.

(** interface GameState, data fields *)
Record GameState : Type := mkGameState {
  status : Status;
  score : Z;
  speed : Q;
  baseSpeed : Q;
  playerLane : Z;
  isJumping : bool;
  screenShake : bool;
  highScore : Z;
  boostActive : bool;
  magnetActive : bool
}.

(** The three callbacks the store hands to [setTimeout]. *)
Inductive Callback : Type :=
| ClearShake     (* () => set({ screenShake: false }) *)
| BoostExpire    (* () => { const { baseSpeed: bs } = get(); set({ boostActive: false, speed: bs }) } *)
| MagnetExpire.  (* () => set({ magnetActive: false }) *)

Definition Callback_eqb (a b : Callback) : bool :=
  match a, b with
  | ClearShake, ClearShake | BoostExpire, BoostExpire | MagnetExpire, MagnetExpire => true
  | _, _ => false
  end.

Record Timer : Type := mkTimer { fireAt : Z; callback : Callback }.

(** The store together with its environment: the virtual clock, the pending
    timers and the localStorage entry 'hamsterHighScore'. *)
Record Store : Type := mkStore {
  state : GameState;
  clock : Z;
  pending : list Timer;
  localHighScore : option Z
}.

(** set(partial) and set(fn): replace the data fields, keep the environment. *)
Definition set (f : GameState -> GameState) (w : Store) : Store :=
  {| state := f (state w); clock := clock w; pending := pending w;
     localHighScore := localHighScore w |}.

(** Timers come due in the order of their due time; among equal due times
    the one scheduled first comes first. *)
Fixpoint enqueue (tm : Timer) (q : list Timer) : list Timer :=
  match q with
  | [] => [tm]
  | x :: q' => if fireAt tm <? fireAt x then tm :: x :: q' else x :: enqueue tm q'
  end.

(** setTimeout(cb, ms); a negative delay counts as 0. *)
Definition setTimeout (cb : Callback) (ms : Z) (w : Store) : Store :=
  {| state := state w; clock := clock w;
     pending := enqueue {| fireAt := clock w + Z.max 0 ms; callback := cb |} (pending w);
     localHighScore := localHighScore w |}.

(** The initial state of create<GameState>(...); highScore is
    parseInt(localStorage.getItem('hamsterHighScore') || '0'), with the
    entry taken to hold an integer when it is present. *)
Definition initialState (stored : option Z) : GameState :=
  {| status := Idle; score := 0; speed := 0.12; baseSpeed := 0.12;
     playerLane := 1; isJumping := false; screenShake := false;
     highScore := match stored with Some h => h | None => 0 end;
     boostActive := false; magnetActive := false |}.

Definition initialStore (stored : option Z) : Store :=
  {| state := initialState stored; clock := 0; pending := [];
     localHighScore := stored |}.

Definition startGame : Store -> Store :=
  set (fun s =>
    {| status := Playing; score := 0; speed := 0.12; baseSpeed := 0.12;
       playerLane := 1; isJumping := false; screenShake := false;
       highScore := highScore s;
       boostActive := false; magnetActive := false |}).

Definition endGame (w : Store) : Store :=
  let newHighScore := Z.max (score (state w)) (highScore (state w)) in
  let w1 :=
    {| state := state w; clock := clock w; pending := pending w;
       localHighScore := Some newHighScore |} in
  let w2 :=
    set (fun s =>
      {| status := GameOver; score := score s; speed := 0; baseSpeed := baseSpeed s;
         playerLane := playerLane s; isJumping := isJumping s; screenShake := true;
         highScore := newHighScore;
         boostActive := boostActive s; magnetActive := magnetActive s |}) w1 in
  setTimeout ClearShake 500 w2.

Definition restartGame : Store -> Store :=
  set (fun s =>
    {| status := Playing; score := 0; speed := 0.12; baseSpeed := 0.12;
       playerLane := 1; isJumping := false; screenShake := false;
       highScore := highScore s;
       boostActive := false; magnetActive := false |}).

Definition incrementScore (amount : Z) : Store -> Store :=
  set (fun s =>
    {| status := status s; score := score s + amount; speed := speed s;
       baseSpeed := baseSpeed s; playerLane := playerLane s;
       isJumping := isJumping s; screenShake := screenShake s;
       highScore := highScore s;
       boostActive := boostActive s; magnetActive := magnetActive s |}).

(** Both new fields are computed from the state [s] the updater receives. *)
Definition increaseSpeed : Store -> Store :=
  set (fun s =>
    {| status := status s; score := score s;
       speed := Qmin (if boostActive s then baseSpeed s * 1.8 else baseSpeed s) 0.6;
       baseSpeed := Qmin (baseSpeed s + 0.003) 0.4;
       playerLane := playerLane s;
       isJumping := isJumping s; screenShake := screenShake s;
       highScore := highScore s;
       boostActive := boostActive s; magnetActive := magnetActive s |}).

Definition setPlayerState (lane : Z) (jumping : bool) : Store -> Store :=
  set (fun s =>
    {| status := status s; score := score s; speed := speed s;
       baseSpeed := baseSpeed s; playerLane := lane;
       isJumping := jumping; screenShake := screenShake s;
       highScore := highScore s;
       boostActive := boostActive s; magnetActive := magnetActive s |}).

Definition setScreenShake (b : bool) (s : GameState) : GameState :=
  {| status := status s; score := score s; speed := speed s;
     baseSpeed := baseSpeed s; playerLane := playerLane s;
     isJumping := isJumping s; screenShake := b;
     highScore := highScore s;
     boostActive := boostActive s; magnetActive := magnetActive s |}.

Definition triggerScreenShake (w : Store) : Store :=
  setTimeout ClearShake 500 (set (setScreenShake true) w).

Definition activateBoost (durationMs : Z) (w : Store) : Store :=
  let bs := baseSpeed (state w) in
  let w1 :=
    set (fun s =>
      {| status := status s; score := score s;
         speed := Qmin (bs * 1.8) 0.6;
         baseSpeed := baseSpeed s; playerLane := playerLane s;
         isJumping := isJumping s; screenShake := screenShake s;
         highScore := highScore s;
         boostActive := true; magnetActive := magnetActive s |}) w in
  setTimeout BoostExpire durationMs w1.

Definition setMagnetActive (b : bool) (s : GameState) : GameState :=
  {| status := status s; score := score s; speed := speed s;
     baseSpeed := baseSpeed s; playerLane := playerLane s;
     isJumping := isJumping s; screenShake := screenShake s;
     highScore := highScore s;
     boostActive := boostActive s; magnetActive := b |}.

Definition activateMagnet (durationMs : Z) (w : Store) : Store :=
  setTimeout MagnetExpire durationMs (set (setMagnetActive true) w).

(** What a timer does to the data fields when it fires. *)
Definition fire (cb : Callback) (s : GameState) : GameState :=
  match cb with
  | ClearShake => setScreenShake false s
  | BoostExpire =>
      {| status := status s; score := score s;
         speed := baseSpeed s;
         baseSpeed := baseSpeed s; playerLane := playerLane s;
         isJumping := isJumping s; screenShake := screenShake s;
         highScore := highScore s;
         boostActive := false; magnetActive := magnetActive s |}
  | MagnetExpire => setMagnetActive false s
  end.

(** Fire, in order, the timers that are due at time [t]. *)
Fixpoint run_due (t : Z) (q : list Timer) (s : GameState) : GameState * list Timer :=
  match q with
  | [] => (s, [])
  | x :: q' =>
      if fireAt x <=? t then run_due t q' (fire (callback x) s) else (s, q)
  end.

(** [ms] milliseconds pass with no call into the store. *)
Definition advance (ms : Z) (w : Store) : Store :=
  let t := clock w + Z.max 0 ms in
  let r := run_due t (pending w) (state w) in
  {| state := fst r; clock := t; pending := snd r;
     localHighScore := localHighScore w |}.

(** Number of pending timers that carry the callback [cb]. *)
Definition pendingCount (cb : Callback) (w : Store) : nat :=
  length (filter (fun x => Callback_eqb (callback x) cb) (pending w)).

(** The public operations of the store and the passing of time. *)
Inductive Op : Type :=
| OStartGame
| OEndGame
| ORestartGame
| OIncrementScore (amount : Z)
| OIncreaseSpeed
| OSetPlayerState (lane : Z) (jumping : bool)
| OTriggerScreenShake
| OActivateBoost (durationMs : Z)
| OActivateMagnet (durationMs : Z)
| OAdvance (ms : Z).

Definition step (o : Op) : Store -> Store :=
  match o with
  | OStartGame => startGame
  | OEndGame => endGame
  | ORestartGame => restartGame
  | OIncrementScore a => incrementScore a
  | OIncreaseSpeed => increaseSpeed
  | OSetPlayerState l j => setPlayerState l j
  | OTriggerScreenShake => triggerScreenShake
  | OActivateBoost d => activateBoost d
  | OActivateMagnet d => activateMagnet d
  | OAdvance ms => advance ms
  end.

(** Run a list of operations, the first one first. *)
Definition run (ops : list Op) (w : Store) : Store :=
  fold_left (fun acc o => step o acc) ops w.

(** The stores the program can be in. *)
Inductive reachable : Store -> Prop :=
| reachable_init stored : reachable (initialStore stored)
| reachable_step o w : reachable w -> reachable (step o w).

(** The effective speed as section 3 of the specification words it:
    boostActive ? min(baseSpeed * 1.8, 0.6) : baseSpeed. *)
Definition spec_effectiveSpeed (s : GameState) : Q :=
  if boostActive s then Qmin (baseSpeed s * 1.8) 0.6 else baseSpeed s.

(** *** Predicates used in the properties of the store *)

(** The queue is ordered by due time. *)
Fixpoint ordered (q : list Timer) : Prop :=
  match q with
  | [] => True
  | x :: q' => Forall (fun y => fireAt x <= fireAt y) q' /\ ordered q'
  end.

(** A timer that sits in the queue behind timers that are due no later, and
    in front of one that is due later (or of none). *)
Definition lastDue (tm : Timer) (q : list Timer) : Prop :=
  exists pre post,
    q = pre ++ tm :: post /\
    Forall (fun x => fireAt x <= fireAt tm) pre /\
    match post with [] => True | y :: _ => fireAt tm < fireAt y end.

(** The step of the progression on the base speed alone. *)
Definition nextBase (b : Q) : Q := Qmin (b + 0.003) 0.4.

Definition baseInRange (w : Store) : Prop :=
  (0.12 <= baseSpeed (state w))%Q /\ (baseSpeed (state w) <= 0.4)%Q.

(** The speed invariant in the words of the specification: speed is the
    effective speed, except that it is 0 once the status is GameOver. *)
Definition spec_speedSettled (s : GameState) : Prop :=
  match status s with
  | GameOver => (speed s == 0)%Q
  | _ => (speed s == spec_effectiveSpeed s)%Q
  end.

(** speed follows from baseSpeed and boostActive. *)
Definition speedDerived (s : GameState) : Prop :=
  (speed s == spec_effectiveSpeed s)%Q.

(** The invariant the store keeps as long as increaseSpeed() is not called:
    speed is derived, or it is the 0 that endGame() left. *)
Definition derivedOrStopped (s : GameState) : Prop :=
  speedDerived s \/ (status s = GameOver /\ speed s = 0%Q).

Definition notIncreaseSpeed (o : Op) : bool :=
  match o with
  | OIncreaseSpeed => false
  | _ => true
  end.

(** Two states agree on speed, baseSpeed and boostActive. *)
Definition sameSpeedFields (a b : GameState) : Prop :=
  speed b = speed a /\ baseSpeed b = baseSpeed a /\ boostActive b = boostActive a.

(** The flag a timer clears. *)
Definition flagOf (cb : Callback) (s : GameState) : bool :=
  match cb with
  | ClearShake => screenShake s
  | BoostExpire => boostActive s
  | MagnetExpire => magnetActive s
  end.

(** What the two activations share: flag set, one more timer for [cb]. *)
Definition activate (cb : Callback) : Z -> Store -> Store :=
  match cb with
  | BoostExpire => activateBoost
  | MagnetExpire => activateMagnet
  | ClearShake => fun _ => triggerScreenShake
  end.

(** The amount of an incrementScore call is not negative. *)
Definition nonnegAmount (o : Op) : bool :=
  match o with
  | OIncrementScore a => 0 <=? a
  | _ => true
  end.

(** *** Further predicates on the store *)

(** The high score a reload of the page would read back. *)
Definition storedHighScore (w : Store) : Z :=
  match localHighScore w with Some h => h | None => 0 end.

(** The time that passes in a list of operations. *)
Definition elapsed (ops : list Op) : Z :=
  fold_right (fun o acc => match o with OAdvance ms => Z.max 0 ms + acc | _ => acc end)
             0 ops.

(** speed is the 0 of GameOver or lies between 0.12 and 0.6. *)
Definition speedInRange (s : GameState) : Prop :=
  (status s = GameOver /\ speed s == 0)%Q \/
  (0.12 <= speed s /\ speed s <= 0.6)%Q.

(** Every pending timer is due at [t] or later. *)
Definition notOverdue (t : Z) (q : list Timer) : Prop :=
  Forall (fun x => t <= fireAt x) q.

(** *** The localStorage entry as a text *)

Import Ascii String.

(** The white space parseInt skips, within ASCII. *)
Definition isWhiteSpace (c : ascii) : bool :=
  match N_of_ascii c with
  | 9%N | 10%N | 11%N | 12%N | 13%N | 32%N => true
  | _ => false
  end.

Fixpoint trimStart (s : string) : string :=
  match s with
  | String c s' => if isWhiteSpace c then trimStart s' else s
  | EmptyString => s
  end.

(** The value of a digit of the radix, if [c] is one. *)
Definition digitOf (radix : Z) (c : ascii) : option Z :=
  let n := Z.of_N (N_of_ascii c) in
  let v := if (48 <=? n) && (n <=? 57) then n - 48
           else if (97 <=? n) && (n <=? 122) then n - 87
           else if (65 <=? n) && (n <=? 90) then n - 55
           else radix in
  if v <? radix then Some v else None.

(** The value of the longest prefix of digits; [None] when there is no
    digit. *)
Fixpoint digitsValue (radix : Z) (acc : option Z) (s : string) : option Z :=
  match s with
  | String c s' =>
      match digitOf radix c with
      | Some v =>
          digitsValue radix
            (Some (radix * match acc with Some a => a | None => 0 end + v)) s'
      | None => acc
      end
  | EmptyString => acc
  end.

Definition signOf (s : string) : bool * string :=
  match s with
  | String "-" r => (true, r)
  | String "+" r => (false, r)
  | _ => (false, s)
  end.

Definition radixOf (s : string) : Z * string :=
  match s with
  | String "0" (String "x" r) => (16, r)
  | String "0" (String "X" r) => (16, r)
  | _ => (10, s)
  end.

(** parseInt(text) with no radix given; [None] is NaN. *)
Definition parseInt (text : string) : option Z :=
  let (negative, s1) := signOf (trimStart text) in
  let (radix, s2) := radixOf s1 in
  match digitsValue radix None s2 with
  | Some m => Some (if negative then - m else m)
  | None => None
  end.

(** Number.MAX_SAFE_INTEGER, 2^53 - 1. *)
Definition MAX_SAFE_INTEGER : Z := 9007199254740991.

(** String(n) for an integer n, which up to MAX_SAFE_INTEGER in absolute
    value is its decimal numeral. *)
Definition numberToString (n : Z) : string :=
  match n with
  | Z0 => "0"
  | Zpos p => DecimalString.NilEmpty.string_of_uint (Pos.to_uint p)
  | Zneg p => String "-" (DecimalString.NilEmpty.string_of_uint (Pos.to_uint p))
  end.

(** parseInt(localStorage.getItem('hamsterHighScore') || '0'): the high
    score a load of the page reads from the entry; an absent entry and an
    empty one count as '0'. *)
Definition loadHighScore (entry : option string) : option Z :=
  parseInt match entry with
           | Some (String c s) => String c s
           | _ => "0"
           end.

(** The text of the entry of a store whose entry is absent or holds the
    numeral of a number, as after
    localStorage.setItem('hamsterHighScore', String(newHighScore)). *)
Definition entryText (w : Store) : option string :=
  option_map numberToString (localHighScore w).

(** The value of a numeral read from its last digit. *)
Fixpoint littleValue (d : Decimal.uint) : Z :=
  match d with
  | Decimal.Nil => 0
  | Decimal.D0 l => 0 + 10 * littleValue l
  | Decimal.D1 l => 1 + 10 * littleValue l
  | Decimal.D2 l => 2 + 10 * littleValue l
  | Decimal.D3 l => 3 + 10 * littleValue l
  | Decimal.D4 l => 4 + 10 * littleValue l
  | Decimal.D5 l => 5 + 10 * littleValue l
  | Decimal.D6 l => 6 + 10 * littleValue l
  | Decimal.D7 l => 7 + 10 * littleValue l
  | Decimal.D8 l => 8 + 10 * littleValue l
  | Decimal.D9 l => 9 + 10 * littleValue l
  end.

(** The value of a numeral read from its first digit, after [acc]. *)
Fixpoint bigValue (acc : Z) (d : Decimal.uint) : Z :=
  match d with
  | Decimal.Nil => acc
  | Decimal.D0 l => bigValue (10 * acc + 0) l
  | Decimal.D1 l => bigValue (10 * acc + 1) l
  | Decimal.D2 l => bigValue (10 * acc + 2) l
  | Decimal.D3 l => bigValue (10 * acc + 3) l
  | Decimal.D4 l => bigValue (10 * acc + 4) l
  | Decimal.D5 l => bigValue (10 * acc + 5) l
  | Decimal.D6 l => bigValue (10 * acc + 6) l
  | Decimal.D7 l => bigValue (10 * acc + 7) l
  | Decimal.D8 l => bigValue (10 * acc + 8) l
  | Decimal.D9 l => bigValue (10 * acc + 9) l
  end.

End GameManager.

(** ** AudioManager: the cues the core asks for *)

Module AudioManager.

Inductive Sound : Type := jump | collect | crash | gameOver.

End AudioManager.

(** ** Player.tsx: the player motion model *)

Module Player.

#[local] Open Scope Q_scope.

Definition LANES : list Q := [-1.8; 0; 1.8].
Definition JUMP_HEIGHT : Q := 2.
Definition JUMP_DURATION : Q := 0.45.

(** Strict comparison of two numbers, [x < y]. *)
Definition Qltb (x y : Q) : bool := negb (Qle_bool y x).

(** The component's state: the two useState cells, the jumpStartTime ref
    (milliseconds, Date.now()) and the height group.current.position.y.
    The sideways smoothing towards LANES[laneIndex] and the tilt are
    presentation only and are not part of the model. *)
Record PlayerState : Type := mkPlayer {
  laneIndex : Z;
  isJumping : bool;
  jumpStartTime : Z;
  positionY : Q
}.

Definition initialPlayer : PlayerState :=
  {| laneIndex := 1; isJumping := false; jumpStartTime := 0; positionY := 0 |}.

Definition isPlaying (st : GameManager.Status) : bool :=
  GameManager.Status_eqb st GameManager.Playing.

(** jump(): [st] is the status the component read from the store, [now] is
    Date.now(). *)
Definition jump (st : GameManager.Status) (now : Z) (p : PlayerState)
  : PlayerState * list AudioManager.Sound :=
  if negb (isJumping p) && isPlaying st then
    ({| laneIndex := laneIndex p; isJumping := true; jumpStartTime := now;
        positionY := positionY p |}, [AudioManager.jump])
  else (p, []).

Definition moveLeft (st : GameManager.Status) (p : PlayerState) : PlayerState :=
  if isPlaying st then
    {| laneIndex := Z.max 0 (laneIndex p - 1); isJumping := isJumping p;
       jumpStartTime := jumpStartTime p; positionY := positionY p |}
  else p.

Definition moveRight (st : GameManager.Status) (p : PlayerState) : PlayerState :=
  if isPlaying st then
    {| laneIndex := Z.min (Z.of_nat (length LANES) - 1) (laneIndex p + 1);
       isJumping := isJumping p;
       jumpStartTime := jumpStartTime p; positionY := positionY p |}
  else p.

(** useEffect on [status]: reset the position when a game starts. *)
Definition resetOnStatus (st : GameManager.Status) (p : PlayerState) : PlayerState :=
  if isPlaying st then
    {| laneIndex := 1; isJumping := false; jumpStartTime := jumpStartTime p;
       positionY := 0 |}
  else p.

(** useEffect on [laneIndex, isJumping]: sync the state to the store. *)
Definition syncToStore (p : PlayerState) : GameManager.Store -> GameManager.Store :=
  GameManager.setPlayerState (laneIndex p) (isJumping p).

(** The jump physics of useFrame at [elapsed] seconds after the jump began:
    the height it assigns and whether the jump goes on. *)
Definition jumpArc (elapsed : Q) : Q * bool :=
  if Qltb elapsed JUMP_DURATION then
    let progress := elapsed / JUMP_DURATION in
    (4 * JUMP_HEIGHT * progress * (1 - progress), true)
  else (0, false).

Definition height (elapsed : Q) : Q := fst (jumpArc elapsed).

(** useFrame, for a mounted group (group.current is set).  [bob] is the
    value of Math.abs(Math.sin(Date.now() / 80)) * 0.15 in this frame.  Both
    tests read the [isJumping] of the current render. *)
Definition frame (st : GameManager.Status) (now : Z) (bob : Q) (p : PlayerState)
  : PlayerState :=
  let p1 :=
    if isJumping p then
      let elapsed := inject_Z (now - jumpStartTime p) / 1000 in
      let r := jumpArc elapsed in
      {| laneIndex := laneIndex p; isJumping := snd r;
         jumpStartTime := jumpStartTime p; positionY := fst r |}
    else p in
  if negb (isJumping p) && isPlaying st then
    {| laneIndex := laneIndex p1; isJumping := isJumping p1;
       jumpStartTime := jumpStartTime p1; positionY := bob |}
  else p1.

(** What can happen to the Player component between two renders. *)
Inductive Action : Type :=
| AJump (st : GameManager.Status) (now : Z)
| AMoveLeft (st : GameManager.Status)
| AMoveRight (st : GameManager.Status)
| AReset (st : GameManager.Status)
| AFrame (st : GameManager.Status) (now : Z) (bob : Q).

Definition act (a : Action) (p : PlayerState) : PlayerState :=
  match a with
  | AJump st now => fst (jump st now p)
  | AMoveLeft st => moveLeft st p
  | AMoveRight st => moveRight st p
  | AReset st => resetOnStatus st p
  | AFrame st now bob => frame st now bob p
  end.

Definition acts (l : list Action) (p : PlayerState) : PlayerState :=
  fold_left (fun acc a => act a acc) l p.

Definition laneValid (p : PlayerState) : Prop := (0 <= laneIndex p <= 2)%Z.

(** *** The rest of the component *)

(** LANES[laneIndex]; an index outside the array gives undefined ([None]). *)
Definition laneX (lane : Z) : option Q :=
  if (lane <? 0)%Z then None else nth_error LANES (Z.to_nat lane).

(** The smooth lane transition of useFrame:
    position.x += (targetX - position.x) * 0.15. *)
Definition smoothX (targetX x : Q) : Q := x + (targetX - x) * 0.15.

(** [n] frames of the transition towards the same target. *)
Definition smoothFrames (n : nat) (targetX x : Q) : Q :=
  Nat.iter n (smoothX targetX) x.

Import String.

(** handleKeyDown, with e.key as a string. *)
Definition handleKeyDown (st : GameManager.Status) (key : String.string) (now : Z)
  (p : PlayerState) : PlayerState :=
  if negb (isPlaying st) then p
  else if String.eqb key "ArrowLeft"%string || String.eqb key "a"%string then moveLeft st p
  else if String.eqb key "ArrowRight"%string || String.eqb key "d"%string then moveRight st p
  else if String.eqb key "ArrowUp"%string || String.eqb key " "%string || String.eqb key "w"%string
       then fst (jump st now p)
  else p.

(** handleTouchStart: the screen is divided into three zones;
    [screenWidth] is window.innerWidth, [touchX] is e.touches[0].clientX.
    The numbers are doubles: [rnd] stands for the rounding of the quotient
    and of the product and is left open; the comparisons are exact. *)
Definition handleTouchStart (rnd : Q -> Q) (st : GameManager.Status)
  (screenWidth touchX : Q) (now : Z) (p : PlayerState) : PlayerState :=
  if negb (isPlaying st) then p
  else if Qltb touchX (rnd (screenWidth / 3)) then moveLeft st p
  else if Qltb (rnd (rnd (screenWidth * 2) / 3)) touchX then moveRight st p
  else fst (jump st now p).

End Player.

(** ** Obstacles.tsx: the per-entity frame of ObstacleItem *)

Module Obstacles.

#[local] Open Scope Q_scope.

Definition DESPAWN_DISTANCE : Q := 8.
Definition COLLISION_THRESHOLD_Z : Q := 1.0.

Inductive ObstacleType : Type := rock | chilly | coin | magnet.

Definition isCoin (t : ObstacleType) : bool :=
  match t with coin => true | _ => false end.

(** interface ObstacleData; the UUID [id] is a number here. *)
Record ObstacleData : Type := mkData {
  id : nat;
  type : ObstacleType;
  lane : Z;
  z : Q
}.

(** One mounted ObstacleItem: its data, ref.current.position.z, the
    [collected] ref and ref.current.visible. *)
Record Item : Type := mkItem {
  data : ObstacleData;
  positionZ : Q;
  collected : bool;
  visible : bool
}.

Definition mount (d : ObstacleData) : Item :=
  {| data := d; positionZ := z d; collected := false; visible := true |}.

(** The calls a frame makes, in order. *)
Inductive Effect : Type :=
| Play (s : AudioManager.Sound)
| EndGame
| ActivateBoost (ms : Z)
| ActivateMagnet (ms : Z)
| IncrementScore (amount : Z).

Inductive FrameResult : Type :=
| Removed                                   (* onRemove() *)
| Kept (it : Item) (effects : list Effect).

Definition markCollected (hide : bool) (it : Item) : Item :=
  {| data := data it; positionZ := positionZ it; collected := true;
     visible := if hide then false else visible it |}.

(** The test of the collision branch. *)
Definition hit (s : GameManager.GameState) (it : Item) : bool :=
  let distZ := Qabs (positionZ it) in
  let laneMatch := (lane (data it) =? GameManager.playerLane s)%Z in
  let withinZ := Player.Qltb distZ COLLISION_THRESHOLD_Z in
  withinZ && (laneMatch || (GameManager.magnetActive s && isCoin (type (data it)))).

(** The dispatch on the type once the test passed. *)
Definition resolve (s : GameManager.GameState) (it : Item) : Item * list Effect :=
  match type (data it) with
  | rock =>
      if negb (GameManager.isJumping s) then
        (markCollected false it, [Play AudioManager.crash; EndGame])
      else (it, [])
  | chilly =>
      (markCollected true it,
       [Play AudioManager.collect; ActivateBoost 4000; IncrementScore 2])
  | coin =>
      (markCollected true it, [Play AudioManager.collect; IncrementScore 5])
  | magnet =>
      (markCollected true it,
       [Play AudioManager.collect; ActivateMagnet 8000; IncrementScore 3])
  end.

(** useFrame of ObstacleItem, for a mounted group (ref.current is set): [s]
    holds the store values of the current render, [delta] is the frame time
    in seconds.  The rotation and the bob of a collectible are presentation
    only and are left out. *)
Definition itemFrame (s : GameManager.GameState) (delta : Q) (it : Item) : FrameResult :=
  if negb (Player.isPlaying (GameManager.status s)) then Kept it []
  else
    let it1 :=
      {| data := data it;
         positionZ := positionZ it + GameManager.speed s * 60 * delta;
         collected := collected it; visible := visible it |} in
    if Player.Qltb DESPAWN_DISTANCE (positionZ it1) then Removed
    else if negb (collected it1) then
      if hit s it1 then
        let r := resolve s it1 in Kept (fst r) (snd r)
      else Kept it1 []
    else Kept it1 [].

Definition effectsOf (r : FrameResult) : list Effect :=
  match r with Removed => [] | Kept _ e => e end.

(** How the store takes a dispatched call. *)
Definition perform (e : Effect) : GameManager.Store -> GameManager.Store :=
  match e with
  | Play _ => fun w => w
  | EndGame => GameManager.endGame
  | ActivateBoost ms => GameManager.activateBoost ms
  | ActivateMagnet ms => GameManager.activateMagnet ms
  | IncrementScore a => GameManager.incrementScore a
  end.

Definition performAll (es : list Effect) (w : GameManager.Store) : GameManager.Store :=
  fold_left (fun acc e => perform e acc) es w.

(** *** Predicates used in the properties of the resolver *)

(** The entity after the move of the frame. *)
Definition moved (s : GameManager.GameState) (delta : Q) (it : Item) : Item :=
  {| data := data it;
     positionZ := positionZ it + GameManager.speed s * 60 * delta;
     collected := collected it; visible := visible it |}.

(** The effects of a run of frames of one entity, up to its removal. *)
Fixpoint itemFrames (l : list (GameManager.GameState * Q)) (it : Item) : list Effect :=
  match l with
  | [] => []
  | (s, delta) :: l' =>
      match itemFrame s delta it with
      | Removed => []
      | Kept it' e => e ++ itemFrames l' it'
      end
  end.

Definition noEffects (e : list Effect) : bool :=
  match e with [] => true | _ :: _ => false end.

(** Within the threshold, and in the player's lane or a coin under the magnet. *)
Definition inReach (s : GameManager.GameState) (it : Item) : Prop :=
  (Qabs (positionZ it) < COLLISION_THRESHOLD_Z)%Q /\
  (lane (data it) = GameManager.playerLane s \/
   (GameManager.magnetActive s = true /\ type (data it) = coin)).

(** *** ObstacleManager: the spawner *)

Definition SPAWN_DISTANCE : Q := -60.

(** The weighted choice of spawn() on typeProb = Math.random(). *)
Definition spawnType (typeProb : Q) : ObstacleType :=
  if Player.Qltb typeProb 0.5 then rock
  else if Player.Qltb typeProb 0.8 then coin
  else if Player.Qltb typeProb 0.95 then chilly
  else magnet.

(** Math.floor(Math.random() * 3) *)
Definition spawnLane (r : Q) : Z := Qfloor (r * 3).

(** The state of the manager: the items, and the two refs. *)
Record Manager : Type := mkManager {
  items : list ObstacleData;
  nextSpawnTime : Q;
  spawnCount : Z
}.

Definition initialManager : Manager :=
  {| items := []; nextSpawnTime := 0; spawnCount := 0 |}.

(** What a spawn draws: the UUID and the three values of Math.random(),
    for the type, for the lane and for the gap to the next spawn. *)
Record Draw : Type := mkDraw {
  newId : nat;
  typeProb : Q;
  laneProb : Q;
  gapProb : Q
}.

(** spawn(); the boolean tells whether increaseSpeed() is called. *)
Definition spawn (d : Draw) (m : Manager) : Manager * bool :=
  let item :=
    {| id := newId d; type := spawnType (typeProb d);
       lane := spawnLane (laneProb d); z := SPAWN_DISTANCE |} in
  let count := (spawnCount m + 1)%Z in
  ({| items := items m ++ [item]; nextSpawnTime := nextSpawnTime m;
      spawnCount := count |},
   (Z.rem count 10 =? 0)%Z).

(** removeItem(id) *)
Definition removeItem (i : nat) (m : Manager) : Manager :=
  {| items := filter (fun x => negb (Nat.eqb (id x) i)) (items m);
     nextSpawnTime := nextSpawnTime m; spawnCount := spawnCount m |}.

(** useFrame of ObstacleManager: [s] holds the store values of the current
    render, [delta] is the frame time in seconds, [d] is what a spawn in
    this frame would draw.  The division by speed / 0.12 is the one of
    rationals; the speed of a game that is played is not 0. *)
Definition managerFrame (s : GameManager.GameState) (delta : Q) (d : Draw)
  (m : Manager) : Manager * bool :=
  if negb (Player.isPlaying (GameManager.status s)) then
    if GameManager.Status_eqb (GameManager.status s) GameManager.Idle
       && (0 <? length (items m))%nat
    then ({| items := []; nextSpawnTime := nextSpawnTime m; spawnCount := 0 |}, false)
    else (m, false)
  else
    let t := nextSpawnTime m - delta in
    if Qle_bool t 0 then
      let r := spawn d {| items := items m; nextSpawnTime := t;
                          spawnCount := spawnCount m |} in
      ({| items := items (fst r);
          nextSpawnTime := (1.5 + gapProb d * 1.5) / (GameManager.speed s / 0.12);
          spawnCount := spawnCount (fst r) |}, snd r)
    else ({| items := items m; nextSpawnTime := t; spawnCount := spawnCount m |},
          false).

(** Spawns one after the other; the number counts the increaseSpeed() calls. *)
Fixpoint spawnAll (ds : list Draw) (m : Manager) : Manager * nat :=
  match ds with
  | [] => (m, 0%nat)
  | d :: ds' =>
      let r := spawn d m in
      let r' := spawnAll ds' (fst r) in
      (fst r', ((if snd r then 1 else 0) + snd r')%nat)
  end.


(** The frames move the entities towards the player or not at all. *)
Definition forward (f : GameManager.GameState * Q) : Prop :=
  0 <= GameManager.speed (fst f) /\ 0 <= snd f.

(** *** The frame and the spawn under the rounding of the machine

    The numbers of the program are doubles: every product, quotient and sum
    is rounded, and so is every decimal literal that is not a double.  In
    the definitions below [rnd] stands for that rounding and is left open;
    with the identity for [rnd] they are the definitions above. *)

(** The entity with position.z set to [zNew]. *)
Definition placed (zNew : Q) (it : Item) : Item :=
  {| data := data it; positionZ := zNew; collected := collected it;
     visible := visible it |}.

(** useFrame of ObstacleItem from the point where position.z has been
    advanced and holds [zNew]: the despawn check and the collision
    detection.  The comparisons and Math.abs are exact on doubles. *)
Definition itemFrameAt (s : GameManager.GameState) (zNew : Q) (it : Item)
  : FrameResult :=
  if negb (Player.isPlaying (GameManager.status s)) then Kept it []
  else
    let it1 := placed zNew it in
    if Player.Qltb DESPAWN_DISTANCE (positionZ it1) then Removed
    else if negb (collected it1) then
      if hit s it1 then
        let r := resolve s it1 in Kept (fst r) (snd r)
      else Kept it1 []
    else Kept it1 [].

(** ref.current.position.z += speed * 60 * delta, as the machine computes
    it: the two products and the sum are rounded. *)
Definition movedTo (rnd : Q -> Q) (s : GameManager.GameState) (delta : Q)
  (it : Item) : Q :=
  rnd (positionZ it + rnd (rnd (GameManager.speed s * 60) * delta)).

(** useFrame of ObstacleItem under the rounding [rnd]. *)
Definition itemFrameWith (rnd : Q -> Q) (s : GameManager.GameState) (delta : Q)
  (it : Item) : FrameResult :=
  itemFrameAt s (movedTo rnd s delta it) it.

(** The effects of a run of frames of one entity under the rounding [rnd],
    up to its removal. *)
Fixpoint itemFramesWith (rnd : Q -> Q) (l : list (GameManager.GameState * Q))
  (it : Item) : list Effect :=
  match l with
  | [] => []
  | (s, delta) :: l' =>
      match itemFrameWith rnd s delta it with
      | Removed => []
      | Kept it' e => e ++ itemFramesWith rnd l' it'
      end
  end.

(** The weighted choice of spawn() with the literals as doubles. *)
Definition spawnTypeWith (rnd : Q -> Q) (typeProb : Q) : ObstacleType :=
  if Player.Qltb typeProb (rnd 0.5) then rock
  else if Player.Qltb typeProb (rnd 0.8) then coin
  else if Player.Qltb typeProb (rnd 0.95) then chilly
  else magnet.

(** Math.floor(Math.random() * 3) with the product rounded. *)
Definition spawnLaneWith (rnd : Q -> Q) (r : Q) : Z := Qfloor (rnd (r * 3)).

(** spawn() under the rounding [rnd]. *)
Definition spawnWith (rnd : Q -> Q) (d : Draw) (m : Manager) : Manager * bool :=
  let item :=
    {| id := newId d; type := spawnTypeWith rnd (typeProb d);
       lane := spawnLaneWith rnd (laneProb d); z := SPAWN_DISTANCE |} in
  let count := (spawnCount m + 1)%Z in
  ({| items := items m ++ [item]; nextSpawnTime := nextSpawnTime m;
      spawnCount := count |},
   (Z.rem count 10 =? 0)%Z).

(** The largest double under 1, 1 - 2^-53: what Math.random() returns is
    between 0 and this number. *)
Definition MAX_RANDOM : Q := 9007199254740991 # 9007199254740992.

End Obstacles.

(** ** AudioManager.ts: the controller of the sounds *)

Module AudioController.

(** The fields of the class that decide what is played: [ac] and [bgGain]
    tell whether the field is set, [beatTimer] whether the interval of the
    music is running.  The map of the sounds holds the four cues once
    init() has run; bgMusic is never assigned and is left out. *)
Record Audio : Type := mkAudio {
  initialized : bool;
  muted : bool;
  ac : bool;
  bgGain : bool;
  beatTimer : bool
}.

Definition initialAudio : Audio :=
  {| initialized := false; muted := false; ac := false; bgGain := false;
     beatTimer := false |}.

(** What a call of play() starts: the loaded sample or the procedural
    sound. *)
Inductive Played : Type :=
| Sample (s : AudioManager.Sound)
| Procedural (s : AudioManager.Sound).

(** init(); [acOk] and [gainOk] tell whether the AudioContext and its gain
    node could be created inside the try block. *)
Definition init (acOk gainOk : bool) (a : Audio) : Audio :=
  if initialized a then a
  else {| initialized := true; muted := muted a;
          ac := if acOk then true else ac a;
          bgGain := if acOk && gainOk then true else bgGain a;
          beatTimer := beatTimer a |}.

(** play(name) *)
Definition play (name : AudioManager.Sound) (a : Audio) : list Played :=
  if muted a then []
  else if initialized a then [Sample name]
  else if ac a then [Procedural name]
  else [].

(** startProceduralBGM() *)
Definition startProceduralBGM (a : Audio) : Audio :=
  if negb (ac a) || negb (bgGain a) || beatTimer a then a
  else {| initialized := initialized a; muted := muted a; ac := ac a;
          bgGain := bgGain a; beatTimer := true |}.

(** startMusic() *)
Definition startMusic (a : Audio) : Audio :=
  if muted a then a else startProceduralBGM a.

(** stopMusic() *)
Definition stopMusic (a : Audio) : Audio :=
  {| initialized := initialized a; muted := muted a; ac := ac a;
     bgGain := bgGain a; beatTimer := false |}.

(** toggleMute(); the boolean is the value it returns. *)
Definition toggleMute (a : Audio) : Audio * bool :=
  let a1 := {| initialized := initialized a; muted := negb (muted a); ac := ac a;
               bgGain := bgGain a; beatTimer := beatTimer a |} in
  let a2 := if muted a1 then stopMusic a1 else a1 in
  (a2, muted a2).

(** The effect of useAudio on [status]: [prev] is prevStatus.current.  It
    gives the controller, the new prevStatus.current and what is played. *)
Definition onStatus (prev st : GameManager.Status) (a : Audio)
  : Audio * GameManager.Status * list Played :=
  if GameManager.Status_eqb prev st then (a, prev, [])
  else
    match st with
    | GameManager.Playing => (startMusic a, st, [])
    | GameManager.GameOver =>
        (stopMusic a, st, play AudioManager.gameOver (stopMusic a))
    | GameManager.Idle => (stopMusic a, st, [])
    end.

(** The calls that reach the controller. *)
Inductive Call : Type :=
| CInit (acOk gainOk : bool)
| CPlay (s : AudioManager.Sound)
| CStartMusic
| CStopMusic
| CToggleMute
| CStatus (prev st : GameManager.Status).

Definition call (c : Call) (a : Audio) : Audio :=
  match c with
  | CInit x y => init x y a
  | CPlay _ => a
  | CStartMusic => startMusic a
  | CStopMusic => stopMusic a
  | CToggleMute => fst (toggleMute a)
  | CStatus prev st => fst (fst (onStatus prev st a))
  end.

Definition calls (l : list Call) (a : Audio) : Audio :=
  fold_left (fun acc c => call c acc) l a.

(** The music runs only when the sound is on and the context is there. *)
Definition musicSound (a : Audio) : Prop :=
  beatTimer a = true -> muted a = false /\ ac a = true /\ bgGain a = true.

End AudioController.

(** ** Game.tsx: the camera *)

Module Game.

#[local] Open Scope Q_scope.

(** CameraController, for a camera with a field of view: the ratio of the
    speed, the field of view it aims at and the step of one frame. *)
Definition speedRatio (speed : Q) : Q := Qmin ((speed - 0.12) / (0.4 - 0.12)) 1.

Definition targetFov (speed : Q) : Q := 60 + speedRatio speed * 20.

Definition cameraFrame (speed fov : Q) : Q := fov + (targetFov speed - fov) * 0.1.

Definition cameraFrames (n : nat) (speed fov : Q) : Q :=
  Nat.iter n (cameraFrame speed) fov.

End Game.

(** * Properties *)

(** ** Comparisons of rationals *)

Lemma Qltb_lt (x y : Q) : Player.Qltb x y = true <-> (x < y)%Q.
Proof.
  unfold Player.Qltb. rewrite negb_true_iff.
  split; intro H.
  - apply Qnot_le_lt. intro Hle. apply Qle_bool_iff in Hle. congruence.
  - destruct (Qle_bool y x) eqn:E; [|reflexivity].
    apply Qle_bool_iff in E. exfalso. exact (Qlt_not_le _ _ H E).
Qed.

Lemma Qltb_ge (x y : Q) : Player.Qltb x y = false <-> (y <= x)%Q.
Proof.
  unfold Player.Qltb. rewrite negb_false_iff. apply Qle_bool_iff.
Qed.

Lemma Status_eqb_eq (a b : GameManager.Status) :
  GameManager.Status_eqb a b = true <-> a = b.
Proof. destruct a, b; simpl; split; congruence. Qed.

Lemma isPlaying_false (st : GameManager.Status) :
  st <> GameManager.Playing -> Player.isPlaying st = false.
Proof. destruct st; simpl; congruence. Qed.

(** ** The player motion model *)

Section PlayerMotion.

Import Player.

Lemma act_laneValid (a : Action) (p : PlayerState) :
  laneValid p -> laneValid (act a p).
Proof.
  unfold laneValid. intros H.
  destruct a as [st now|st|st|st|st now bob]; simpl.
  - unfold jump. destruct (negb (isJumping p) && isPlaying st); simpl; lia.
  - unfold moveLeft. destruct (isPlaying st); simpl; lia.
  - unfold moveRight. destruct (isPlaying st); simpl; lia.
  - unfold resetOnStatus. destruct (isPlaying st); simpl; lia.
  - unfold frame.
    destruct (isJumping p); destruct (isPlaying st); simpl; lia.
Qed.

Lemma acts_laneValid (l : list Action) :
  forall p, laneValid p -> laneValid (acts l p).
Proof.
  unfold acts. induction l as [|a l IH]; simpl; intros p H; [exact H|].
  apply IH. apply act_laneValid. exact H.
Qed.

(** C9. Lane movement is clamped, not rejected: while Playing, moveLeft()
    from lane 0 stays at 0 and from another lane goes one lane down,
    moveRight() from lane 2 stays at 2 and from another lane goes one lane
    up; outside Playing, moveLeft(), moveRight() and jump() change nothing. *)
Theorem lane_moves_clamp_and_guard :
  forall (p : PlayerState) (st : GameManager.Status) (now : Z),
    0 <= laneIndex p <= 2 ->
    st <> GameManager.Playing ->
    laneIndex (moveLeft GameManager.Playing p)
      = (if laneIndex p =? 0 then 0 else laneIndex p - 1) /\
    laneIndex (moveRight GameManager.Playing p)
      = (if laneIndex p =? 2 then 2 else laneIndex p + 1) /\
    isJumping (moveLeft GameManager.Playing p) = isJumping p /\
    isJumping (moveRight GameManager.Playing p) = isJumping p /\
    moveLeft st p = p /\
    moveRight st p = p /\
    jump st now p = (p, []).
Proof.
  intros p st now Hl Hst.
  unfold moveLeft, moveRight, jump.
  rewrite (isPlaying_false st Hst). simpl.
  rewrite andb_false_r.
  repeat split.
  - destruct (Z.eqb_spec (laneIndex p) 0); lia.
  - destruct (Z.eqb_spec (laneIndex p) 2); lia.
Qed.

(** The theorem at the centre lane, with the status GameOver. *)
Lemma lane_moves_clamp_and_guard_witness :
  laneIndex (moveLeft GameManager.Playing initialPlayer) = 0 /\
  laneIndex (moveRight GameManager.Playing initialPlayer) = 2 /\
  isJumping (moveLeft GameManager.Playing initialPlayer) = false /\
  isJumping (moveRight GameManager.Playing initialPlayer) = false /\
  moveLeft GameManager.GameOver initialPlayer = initialPlayer /\
  moveRight GameManager.GameOver initialPlayer = initialPlayer /\
  jump GameManager.GameOver 1000 initialPlayer = (initialPlayer, []).
Proof.
  apply (lane_moves_clamp_and_guard initialPlayer GameManager.GameOver 1000).
  - simpl. lia.
  - discriminate.
Defined.

(** The clamp at both ends, on the three lanes one by one. *)
Example moveLeft_from_each_lane :
  map (fun l => laneIndex (moveLeft GameManager.Playing (mkPlayer l false 0 0)))
      [0; 1; 2] = [0; 0; 1].
Proof. reflexivity. Qed.

Example moveRight_from_each_lane :
  map (fun l => laneIndex (moveRight GameManager.Playing (mkPlayer l false 0 0)))
      [0; 1; 2] = [1; 2; 2].
Proof. reflexivity. Qed.

(** The height of a frame during a jump is the arc at the elapsed time, and
    the jump goes on exactly as the arc says. *)
Lemma frame_jumping (st : GameManager.Status) (now : Z) (bob : Q) (p : PlayerState) :
  isJumping p = true ->
  positionY (frame st now bob p)
    = height (inject_Z (now - jumpStartTime p) / 1000) /\
  isJumping (frame st now bob p)
    = snd (jumpArc (inject_Z (now - jumpStartTime p) / 1000)).
Proof.
  intros H. unfold frame, height. rewrite H. simpl. split; reflexivity.
Qed.

(** C8. jump() during a jump has no effect; the height of the jump is
    4*H*(t/D)*(1 - t/D) for t < D, with D = 0.45 and H = 2, so that
    height(0) = 0 and height(D/2) = H; from t = D on the height is 0 and
    isJumping is cleared. *)
Theorem jump_idempotent_and_arc :
  forall (p : PlayerState) (st : GameManager.Status) (now : Z) (bob : Q) (t t' : Q),
    isJumping p = true ->
    (t < JUMP_DURATION)%Q ->
    (JUMP_DURATION <= t')%Q ->
    jump st now p = (p, []) /\
    (JUMP_DURATION == 0.45 /\ JUMP_HEIGHT == 2)%Q /\
    (height t == 4 * JUMP_HEIGHT * (t / JUMP_DURATION) * (1 - t / JUMP_DURATION))%Q /\
    snd (jumpArc t) = true /\
    (height 0 == 0)%Q /\
    (height (JUMP_DURATION / 2) == JUMP_HEIGHT)%Q /\
    (height JUMP_DURATION == 0)%Q /\
    (height t' == 0)%Q /\
    snd (jumpArc t') = false /\
    positionY (frame st now bob p)
      = height (inject_Z (now - jumpStartTime p) / 1000) /\
    isJumping (frame st now bob p)
      = snd (jumpArc (inject_Z (now - jumpStartTime p) / 1000)).
Proof.
  intros p st now bob t t' Hj Ht Ht'.
  apply Qltb_lt in Ht. apply Qltb_ge in Ht'.
  split.
  { unfold jump. rewrite Hj. reflexivity. }
  split.
  { split; reflexivity. }
  unfold height, jumpArc. rewrite Ht, Ht'. simpl.
  repeat split; try reflexivity.
  - apply (frame_jumping st now bob p Hj).
  - apply (frame_jumping st now bob p Hj).
Qed.

(** The theorem at 100 ms into a jump, and at 500 ms for the landing. *)
Lemma jump_idempotent_and_arc_witness :
  let p := mkPlayer 1 true 1000 0 in
  jump GameManager.Playing 1100 p = (p, []) /\
  (JUMP_DURATION == 0.45 /\ JUMP_HEIGHT == 2)%Q /\
  (height 0.1 == 4 * JUMP_HEIGHT * (0.1 / JUMP_DURATION) * (1 - 0.1 / JUMP_DURATION))%Q /\
  snd (jumpArc 0.1) = true /\
  (height 0 == 0)%Q /\
  (height (JUMP_DURATION / 2) == JUMP_HEIGHT)%Q /\
  (height JUMP_DURATION == 0)%Q /\
  (height 0.5 == 0)%Q /\
  snd (jumpArc 0.5) = false /\
  positionY (frame GameManager.Playing 1100 0 p)
    = height (inject_Z (1100 - jumpStartTime p) / 1000) /\
  isJumping (frame GameManager.Playing 1100 0 p)
    = snd (jumpArc (inject_Z (1100 - jumpStartTime p) / 1000)).
Proof.
  intro p.
  apply (jump_idempotent_and_arc p GameManager.Playing 1100 0 0.1 0.5).
  - reflexivity.
  - reflexivity.
  - discriminate.
Defined.

(** A jump that began at 1000 ms: the frames at 1000, 1225 and 1450 ms. *)
Example jump_frames :
  let p := mkPlayer 1 true 1000 0 in
  (positionY (frame GameManager.Playing 1000 0 p) == 0)%Q /\
  isJumping (frame GameManager.Playing 1000 0 p) = true /\
  (positionY (frame GameManager.Playing 1225 0 p) == 2)%Q /\
  isJumping (frame GameManager.Playing 1225 0 p) = true /\
  (positionY (frame GameManager.Playing 1450 0 p) == 0)%Q /\
  isJumping (frame GameManager.Playing 1450 0 p) = false.
Proof. vm_compute. repeat split; reflexivity. Qed.

End PlayerMotion.

(** ** The store: timers *)

Section StoreTimers.

Import GameManager.

(** No timer callback writes status, score, baseSpeed, highScore or the
    player fields. *)
Lemma fire_frame (cb : Callback) (s : GameState) :
  status (fire cb s) = status s /\
  score (fire cb s) = score s /\
  baseSpeed (fire cb s) = baseSpeed s /\
  highScore (fire cb s) = highScore s /\
  playerLane (fire cb s) = playerLane s /\
  isJumping (fire cb s) = isJumping s.
Proof. destruct cb; simpl; repeat split; reflexivity. Qed.

Lemma run_due_frame (t : Z) (q : list Timer) :
  forall s,
    status (fst (run_due t q s)) = status s /\
    score (fst (run_due t q s)) = score s /\
    baseSpeed (fst (run_due t q s)) = baseSpeed s /\
    highScore (fst (run_due t q s)) = highScore s /\
    playerLane (fst (run_due t q s)) = playerLane s /\
    isJumping (fst (run_due t q s)) = isJumping s.
Proof.
  induction q as [|x q IH]; intros s; simpl.
  - repeat split; reflexivity.
  - destruct (fireAt x <=? t).
    + destruct (IH (fire (callback x) s)) as (H1 & H2 & H3 & H4 & H5 & H6).
      destruct (fire_frame (callback x) s) as (F1 & F2 & F3 & F4 & F5 & F6).
      repeat split; congruence.
    + repeat split; reflexivity.
Qed.

Lemma enqueue_Forall (P : Timer -> Prop) (tm : Timer) (q : list Timer) :
  P tm -> Forall P q -> Forall P (enqueue tm q).
Proof.
  intros Htm Hq. induction Hq as [|x q Hx Hq IH]; simpl.
  - constructor; [exact Htm|constructor].
  - destruct (fireAt tm <? fireAt x).
    + constructor; [exact Htm|]. constructor; assumption.
    + constructor; assumption.
Qed.

Lemma enqueue_ordered (tm : Timer) (q : list Timer) :
  ordered q -> ordered (enqueue tm q).
Proof.
  induction q as [|x q IH]; simpl; intros H.
  - split; [constructor|exact I].
  - destruct H as [Hx Hq].
    destruct (Z.ltb_spec (fireAt tm) (fireAt x)) as [Hlt|Hge]; simpl.
    + split; [|split; assumption].
      constructor; [lia|].
      eapply Forall_impl; [|exact Hx]. simpl. intros y Hy. lia.
    + split; [|apply IH; exact Hq].
      apply enqueue_Forall; [lia|exact Hx].
Qed.

Lemma run_due_ordered (t : Z) (q : list Timer) :
  forall s, ordered q -> ordered (snd (run_due t q s)).
Proof.
  induction q as [|x q IH]; intros s H; simpl.
  - exact I.
  - destruct (fireAt x <=? t).
    + apply IH. apply H.
    + exact H.
Qed.

(** Every operation keeps the queue ordered. *)
Lemma step_ordered (o : Op) (w : Store) :
  ordered (pending w) -> ordered (pending (step o w)).
Proof.
  intros H.
  destruct o; simpl; try exact H;
    try (apply enqueue_ordered; exact H).
  apply run_due_ordered. exact H.
Qed.

Lemma reachable_ordered (w : Store) : reachable w -> ordered (pending w).
Proof.
  induction 1 as [stored|o w Hw IH].
  - exact I.
  - apply step_ordered. exact IH.
Qed.

Lemma enqueue_lastDue (tm : Timer) (q : list Timer) : lastDue tm (enqueue tm q).
Proof.
  induction q as [|x q IH]; simpl.
  - exists [], []. repeat split. constructor.
  - destruct (Z.ltb_spec (fireAt tm) (fireAt x)) as [Hlt|Hge].
    + exists [], (x :: q). repeat split; [constructor|exact Hlt].
    + destruct IH as (pre & post & E & Hpre & Hpost).
      exists (x :: pre), post. rewrite E. repeat split.
      * constructor; [lia|exact Hpre].
      * exact Hpost.
Qed.

(** Before it is due, such a timer stays where it is. *)
Lemma run_due_before (t : Z) (tm : Timer) (q : list Timer) :
  forall s, lastDue tm q -> t < fireAt tm -> lastDue tm (snd (run_due t q s)).
Proof.
  intros s (pre & post & E & Hpre & Hpost) Ht. subst q.
  revert s. induction Hpre as [|x pre Hx Hpre IH]; intros s; simpl.
  - destruct (Z.leb_spec (fireAt tm) t); [lia|]. simpl.
    exists [], post. repeat split; [constructor|exact Hpost].
  - destruct (fireAt x <=? t).
    + apply IH.
    + simpl. exists (x :: pre), post. repeat split; [|exact Hpost].
      constructor; assumption.
Qed.

(** When it is due, it is the last timer to fire. *)
Lemma run_due_at (tm : Timer) (q : list Timer) :
  forall s, lastDue tm q ->
    exists s', fst (run_due (fireAt tm) q s) = fire (callback tm) s' /\
               baseSpeed s' = baseSpeed s.
Proof.
  intros s (pre & post & E & Hpre & Hpost). subst q.
  revert s. induction Hpre as [|x pre Hx Hpre IH]; intros s; simpl.
  - rewrite Z.leb_refl.
    exists s. split; [|reflexivity].
    destruct post as [|y post]; simpl; [reflexivity|].
    destruct (Z.leb_spec (fireAt y) (fireAt tm)); [lia|reflexivity].
  - destruct (Z.leb_spec (fireAt x) (fireAt tm)); [|lia].
    destruct (IH (fire (callback x) s)) as (s' & E & Hb).
    exists s'. split; [exact E|].
    rewrite Hb. apply fire_frame.
Qed.

End StoreTimers.

(** ** The store: speed and boost *)

Section StoreSpeed.

Import GameManager.

Lemma iter_increaseSpeed (n : nat) (w : Store) :
  clock (Nat.iter n increaseSpeed w) = clock w /\
  pending (Nat.iter n increaseSpeed w) = pending w /\
  baseSpeed (state (Nat.iter n increaseSpeed w))
    = Nat.iter n nextBase (baseSpeed (state w)).
Proof.
  induction n as [|n (Hc & Hp & Hb)]; simpl.
  - repeat split; reflexivity.
  - repeat split; try assumption.
    unfold nextBase at 1. rewrite <- Hb. reflexivity.
Qed.

(** C7. activateBoost(durationMs) sets boostActive and the boosted speed
    min(baseSpeed * 1.8, 0.6) at once (0.216 at baseSpeed 0.12); when the
    duration has passed, boostActive is false and speed is the baseSpeed of
    that moment: the one of the activation if increaseSpeed() was not called
    in between (0.12 again in the scenario), the raised one if it was. *)
Theorem activateBoost_then_expiry :
  forall (w : Store) (d dt : Z) (n : nat),
    0 <= dt < d ->
    let w1 := activateBoost d w in
    let w2 := advance (d - dt) (Nat.iter n increaseSpeed (advance dt w1)) in
    let w0 := startGame (initialStore None) in
    boostActive (state w1) = true /\
    speed (state w1) = Qmin (baseSpeed (state w) * 1.8) 0.6 /\
    baseSpeed (state w1) = baseSpeed (state w) /\
    boostActive (state (advance d w1)) = false /\
    speed (state (advance d w1)) = baseSpeed (state w) /\
    baseSpeed (state (advance d w1)) = baseSpeed (state w) /\
    boostActive (state w2) = false /\
    speed (state w2) = baseSpeed (state w2) /\
    baseSpeed (state w2) = Nat.iter n nextBase (baseSpeed (state w)) /\
    (baseSpeed (state w0) == 0.12)%Q /\
    (speed (state (activateBoost 5000 w0)) == 0.216)%Q /\
    (speed (state (advance 5000 (activateBoost 5000 w0))) == 0.12)%Q.
Proof.
  intros w d dt n Hdt w1 w2 w0.
  set (tm := {| fireAt := clock w + Z.max 0 d; callback := BoostExpire |}).
  assert (Hq : lastDue tm (pending w1)) by apply enqueue_lastDue.
  split; [reflexivity|]. split; [reflexivity|]. split; [reflexivity|].
  (* the duration passes with no call in between *)
  assert (Hplain : exists s', state (advance d w1) = fire BoostExpire s' /\
                              baseSpeed s' = baseSpeed (state w)).
  { destruct (run_due_at tm (pending w1) (state w1) Hq) as (s' & E & Hb).
    exists s'. split; [exact E|exact Hb]. }
  destruct Hplain as (s' & E & Hb). rewrite E.
  split; [reflexivity|]. split; [exact Hb|]. split; [exact Hb|].
  (* increaseSpeed is called n times after dt milliseconds *)
  set (wa := advance dt w1).
  assert (Hqa : lastDue tm (pending wa)).
  { apply run_due_before; [exact Hq|]. simpl. lia. }
  destruct (iter_increaseSpeed n wa) as (Hc & Hp & Hbase).
  assert (Ht : clock (Nat.iter n increaseSpeed wa) + Z.max 0 (d - dt) = fireAt tm).
  { rewrite Hc. simpl. lia. }
  assert (Hfinal : exists s2, state w2 = fire BoostExpire s2 /\
                     baseSpeed s2 = baseSpeed (state (Nat.iter n increaseSpeed wa))).
  { subst w2. fold wa. unfold advance at 1. cbv zeta. simpl state.
    rewrite Ht, Hp.
    apply (run_due_at tm (pending wa)). exact Hqa. }
  destruct Hfinal as (s2 & E2 & Hb2). rewrite E2.
  split; [reflexivity|]. split; [reflexivity|].
  split.
  { transitivity (baseSpeed s2); [reflexivity|].
    rewrite Hb2, Hbase. f_equal.
    unfold wa, advance. simpl state.
    apply (run_due_frame (clock w1 + Z.max 0 dt) (pending w1) (state w1)). }
  repeat split; reflexivity.
Qed.

(** The theorem for a boost of 4000 ms at the start of a run, with two
    increaseSpeed() calls after 1000 ms. *)
Lemma activateBoost_then_expiry_witness :
  let w := startGame (initialStore None) in
  let w1 := activateBoost 4000 w in
  let w2 := advance (4000 - 1000) (Nat.iter 2 increaseSpeed (advance 1000 w1)) in
  boostActive (state w1) = true /\
  speed (state w1) = Qmin (baseSpeed (state w) * 1.8) 0.6 /\
  baseSpeed (state w1) = baseSpeed (state w) /\
  boostActive (state (advance 4000 w1)) = false /\
  speed (state (advance 4000 w1)) = baseSpeed (state w) /\
  baseSpeed (state (advance 4000 w1)) = baseSpeed (state w) /\
  boostActive (state w2) = false /\
  speed (state w2) = baseSpeed (state w2) /\
  baseSpeed (state w2) = Nat.iter 2 nextBase (baseSpeed (state w)) /\
  (baseSpeed (state w) == 0.12)%Q /\
  (speed (state (activateBoost 5000 w)) == 0.216)%Q /\
  (speed (state (advance 5000 (activateBoost 5000 w))) == 0.12)%Q.
Proof.
  intros w w1 w2.
  apply (activateBoost_then_expiry w 4000 1000 2).
  lia.
Defined.

(** The boost of the scenario with one increaseSpeed() during the window:
    the speed after the boost is the raised base speed 0.123. *)
Example boost_expiry_reads_current_baseSpeed :
  let w := activateBoost 5000 (startGame (initialStore None)) in
  let w' := advance 3000 (increaseSpeed (advance 2000 w)) in
  boostActive (state w') = false /\
  (baseSpeed (state w') == 0.123)%Q /\
  (speed (state w') == 0.123)%Q.
Proof. vm_compute. repeat split; reflexivity. Qed.

(** *** The base speed *)

Lemma nextBase_bounds (b : Q) :
  (0.12 <= b)%Q -> (b <= 0.4)%Q ->
  (0.12 <= nextBase b)%Q /\ (nextBase b <= 0.4)%Q /\ (b <= nextBase b)%Q.
Proof.
  intros Hlo Hhi. unfold nextBase.
  split; [|split].
  - apply Q.min_glb; lra.
  - apply Q.le_min_r.
  - apply Q.min_glb; lra.
Qed.

Lemma advance_baseSpeed (ms : Z) (w : Store) :
  baseSpeed (state (advance ms w)) = baseSpeed (state w).
Proof. unfold advance. simpl. apply run_due_frame. Qed.

Lemma step_baseInRange (o : Op) (w : Store) :
  baseInRange w -> baseInRange (step o w).
Proof.
  unfold baseInRange. intros [Hlo Hhi].
  destruct o; simpl; try (split; assumption); try (split; lra).
  - destruct (nextBase_bounds _ Hlo Hhi) as (H1 & H2 & _). split; assumption.
  - change (baseSpeed (fst (run_due (clock w + Z.max 0 ms) (pending w) (state w))))
      with (baseSpeed (state (advance ms w))).
    rewrite advance_baseSpeed. split; assumption.
Qed.

Lemma reachable_baseInRange (w : Store) : reachable w -> baseInRange w.
Proof.
  induction 1 as [stored|o w Hw IH].
  - unfold baseInRange. simpl. split; lra.
  - apply step_baseInRange. exact IH.
Qed.

Lemma iter_increaseSpeed_reachable (n : nat) (w : Store) :
  reachable w -> reachable (Nat.iter n increaseSpeed w).
Proof.
  intros H. induction n as [|n IH]; simpl; [exact H|].
  exact (reachable_step OIncreaseSpeed _ IH).
Qed.

(** C5. From any reachable state and for any number of increaseSpeed()
    calls, baseSpeed stays at or below 0.4 and each call leaves it at least
    as large as before; no operation other than startGame()/restartGame(),
    which reset it to 0.12, makes it smaller. *)
Theorem baseSpeed_capped_and_monotone :
  forall (w : Store) (n : nat) (o : Op),
    reachable w ->
    o <> OStartGame ->
    o <> ORestartGame ->
    (baseSpeed (state (Nat.iter n increaseSpeed w)) <= 0.4)%Q /\
    (baseSpeed (state (Nat.iter n increaseSpeed w))
       <= baseSpeed (state (Nat.iter (S n) increaseSpeed w)))%Q /\
    (baseSpeed (state w) <= baseSpeed (state (Nat.iter n increaseSpeed w)))%Q /\
    (baseSpeed (state w) <= baseSpeed (state (step o w)))%Q /\
    (baseSpeed (state (step o w)) <= 0.4)%Q /\
    (baseSpeed (state (startGame w)) == 0.12)%Q /\
    (baseSpeed (state (restartGame w)) == 0.12)%Q /\
    (0.12 <= baseSpeed (state w))%Q.
Proof.
  intros w n o Hw Hs Hr.
  pose proof (reachable_baseInRange _ (iter_increaseSpeed_reachable n w Hw)) as [Hlo Hhi].
  pose proof (reachable_baseInRange _ Hw) as [Hlo0 Hhi0].
  split; [exact Hhi|].
  split.
  { simpl. apply (nextBase_bounds _ Hlo Hhi). }
  split.
  { clear Hlo Hhi. induction n as [|n IH]; simpl; [lra|].
    pose proof (reachable_baseInRange _ (iter_increaseSpeed_reachable n w Hw)) as [Hlo Hhi].
    destruct (nextBase_bounds _ Hlo Hhi) as (_ & _ & Hm).
    unfold nextBase in Hm. lra. }
  split.
  { destruct o; simpl; try lra; try congruence.
    - apply (nextBase_bounds _ Hlo0 Hhi0).
    - change (baseSpeed (fst (run_due (clock w + Z.max 0 ms) (pending w) (state w))))
        with (baseSpeed (state (advance ms w))).
      rewrite advance_baseSpeed. lra. }
  split.
  { apply (reachable_baseInRange _ (reachable_step o w Hw)). }
  repeat split; try reflexivity. exact Hlo0.
Qed.

(** The theorem at the start of a run, for 100 calls. *)
Lemma baseSpeed_capped_and_monotone_witness :
  let w := startGame (initialStore None) in
  (baseSpeed (state (Nat.iter 100 increaseSpeed w)) <= 0.4)%Q /\
  (baseSpeed (state (Nat.iter 100 increaseSpeed w))
     <= baseSpeed (state (Nat.iter 101 increaseSpeed w)))%Q /\
  (baseSpeed (state w) <= baseSpeed (state (Nat.iter 100 increaseSpeed w)))%Q /\
  (baseSpeed (state w) <= baseSpeed (state (step OIncreaseSpeed w)))%Q /\
  (baseSpeed (state (step OIncreaseSpeed w)) <= 0.4)%Q /\
  (baseSpeed (state (startGame w)) == 0.12)%Q /\
  (baseSpeed (state (restartGame w)) == 0.12)%Q /\
  (0.12 <= baseSpeed (state w))%Q.
Proof.
  intro w.
  apply (baseSpeed_capped_and_monotone w 100 OIncreaseSpeed).
  - apply (reachable_step OStartGame). apply reachable_init.
  - discriminate.
  - discriminate.
Defined.

(** From 0.12 the cap 0.4 is met at the 94th call and kept from then on. *)
Example baseSpeed_reaches_cap :
  let w := startGame (initialStore None) in
  (baseSpeed (state (Nat.iter 93 increaseSpeed w)) == 0.399)%Q /\
  (baseSpeed (state (Nat.iter 94 increaseSpeed w)) == 0.4)%Q /\
  (baseSpeed (state (Nat.iter 200 increaseSpeed w)) == 0.4)%Q.
Proof. vm_compute. repeat split; reflexivity. Qed.

(** *** The effective speed *)

Lemma sameSpeedFields_derived (a b : GameState) :
  sameSpeedFields a b -> speedDerived a -> speedDerived b.
Proof.
  unfold sameSpeedFields, speedDerived, spec_effectiveSpeed.
  intros (H1 & H2 & H3) H. rewrite H1, H2, H3. exact H.
Qed.

Lemma fire_speed (cb : Callback) (s : GameState) :
  sameSpeedFields s (fire cb s) \/ speedDerived (fire cb s).
Proof.
  destruct cb; simpl.
  - left. repeat split; reflexivity.
  - right. unfold speedDerived, spec_effectiveSpeed. simpl. reflexivity.
  - left. repeat split; reflexivity.
Qed.

Lemma run_due_speed (t : Z) (q : list Timer) :
  forall s, sameSpeedFields s (fst (run_due t q s)) \/
            speedDerived (fst (run_due t q s)).
Proof.
  induction q as [|x q IH]; intros s; simpl.
  - left. repeat split; reflexivity.
  - destruct (fireAt x <=? t).
    + destruct (IH (fire (callback x) s)) as [Hsame|Hd]; [|right; exact Hd].
      destruct (fire_speed (callback x) s) as [Hsame0|Hd0].
      * left. destruct Hsame as (A1 & A2 & A3), Hsame0 as (B1 & B2 & B3).
        repeat split; congruence.
      * right. exact (sameSpeedFields_derived _ _ Hsame Hd0).
    + left. repeat split; reflexivity.
Qed.

Lemma advance_status (ms : Z) (w : Store) :
  status (state (advance ms w)) = status (state w).
Proof. unfold advance. simpl. apply run_due_frame. Qed.

Lemma advance_speed (ms : Z) (w : Store) :
  sameSpeedFields (state w) (state (advance ms w)) \/
  speedDerived (state (advance ms w)).
Proof. unfold advance. simpl. apply run_due_speed. Qed.

Lemma step_derivedOrStopped (o : Op) (w : Store) :
  notIncreaseSpeed o = true ->
  derivedOrStopped (state w) -> derivedOrStopped (state (step o w)).
Proof.
  intros Ho Hw.
  destruct o; simpl in Ho; try discriminate; simpl step;
    try (left; unfold speedDerived, spec_effectiveSpeed; simpl; reflexivity);
    try exact Hw.
  - right. split; reflexivity.
  - destruct (advance_speed ms w) as [Hsame|Hd]; [|left; exact Hd].
    destruct Hw as [Hw|[Hst Hsp]].
    + left. exact (sameSpeedFields_derived _ _ Hsame Hw).
    + right. rewrite advance_status. split; [exact Hst|].
      destruct Hsame as (E & _). rewrite E. exact Hsp.
Qed.

Lemma run_derivedOrStopped (ops : list Op) :
  forall w, forallb notIncreaseSpeed ops = true ->
    derivedOrStopped (state w) -> derivedOrStopped (state (run ops w)).
Proof.
  induction ops as [|o ops IH]; intros w Hops Hw; simpl; [exact Hw|].
  simpl in Hops. apply andb_true_iff in Hops. destruct Hops as [Ho Hops].
  apply IH; [exact Hops|].
  apply step_derivedOrStopped; assumption.
Qed.

(** C1, as the code has it.  In every run of store operations and timer
    expiries without increaseSpeed(), speed equals min(baseSpeed * 1.8, 0.6)
    when boostActive is true and baseSpeed when it is false as long as the
    status is not GameOver; in GameOver it is the 0 that endGame() set or,
    once a later boost expiry or activateBoost() has written it, that
    derived value again.  Operation by operation, from any state:
    startGame(), restartGame(), activateBoost() and a boost expiry leave
    speed so derived; incrementScore(), setPlayerState(),
    triggerScreenShake(), activateMagnet() and the other two expiries leave
    speed, baseSpeed and boostActive as they were; the passing of time
    leaves them as they were or leaves speed derived; endGame() sets speed
    to exactly 0 and keeps baseSpeed and boostActive; a boost expiry that
    fires after it sets speed to baseSpeed with the status still GameOver. *)
Theorem speed_derived_by_operation :
  forall (ops : list Op) (stored : option Z)
         (w : Store) (d ms amount lane : Z) (jumping : bool),
    forallb notIncreaseSpeed ops = true ->
    let r := state (run ops (initialStore stored)) in
    (status r <> GameOver -> speedDerived r) /\
    (status r = GameOver -> speed r = 0%Q \/ speedDerived r) /\
    speedDerived (state (startGame w)) /\
    speedDerived (state (restartGame w)) /\
    speedDerived (state (activateBoost d w)) /\
    speedDerived (fire BoostExpire (state w)) /\
    sameSpeedFields (state w) (state (incrementScore amount w)) /\
    sameSpeedFields (state w) (state (setPlayerState lane jumping w)) /\
    sameSpeedFields (state w) (state (triggerScreenShake w)) /\
    sameSpeedFields (state w) (state (activateMagnet d w)) /\
    sameSpeedFields (state w) (fire MagnetExpire (state w)) /\
    sameSpeedFields (state w) (fire ClearShake (state w)) /\
    (sameSpeedFields (state w) (state (advance ms w)) \/
     speedDerived (state (advance ms w))) /\
    status (state (endGame w)) = GameOver /\
    speed (state (endGame w)) = 0%Q /\
    baseSpeed (state (endGame w)) = baseSpeed (state w) /\
    boostActive (state (endGame w)) = boostActive (state w) /\
    status (fire BoostExpire (state (endGame w))) = GameOver /\
    speed (fire BoostExpire (state (endGame w))) = baseSpeed (state w).
Proof.
  intros ops stored w d ms amount lane jumping Hops r.
  assert (Hr : derivedOrStopped r).
  { apply run_derivedOrStopped; [exact Hops|].
    left. unfold speedDerived, spec_effectiveSpeed. simpl. reflexivity. }
  split.
  { intros Hst. destruct Hr as [Hd|[Hg _]]; [exact Hd|congruence]. }
  split.
  { intros _. destruct Hr as [Hd|[_ Hz]]; [right; exact Hd|left; exact Hz]. }
  pose proof (advance_speed ms w) as Hadv.
  unfold speedDerived, spec_effectiveSpeed, sameSpeedFields in *.
  simpl.
  repeat split; try reflexivity.
  exact Hadv.
Qed.

(** The theorem on a run with a boost, an end of game and the expiry of the
    boost after it. *)
Lemma speed_derived_by_operation_witness :
  let w := startGame (initialStore None) in
  let r := state (run [OStartGame; OActivateBoost 4000; OAdvance 1000;
                       OEndGame; OAdvance 3000] (initialStore None)) in
  (status r <> GameOver -> speedDerived r) /\
  (status r = GameOver -> speed r = 0%Q \/ speedDerived r) /\
  speedDerived (state (startGame w)) /\
  speedDerived (state (restartGame w)) /\
  speedDerived (state (activateBoost 4000 w)) /\
  speedDerived (fire BoostExpire (state w)) /\
  sameSpeedFields (state w) (state (incrementScore 5 w)) /\
  sameSpeedFields (state w) (state (setPlayerState 2 true w)) /\
  sameSpeedFields (state w) (state (triggerScreenShake w)) /\
  sameSpeedFields (state w) (state (activateMagnet 4000 w)) /\
  sameSpeedFields (state w) (fire MagnetExpire (state w)) /\
  sameSpeedFields (state w) (fire ClearShake (state w)) /\
  (sameSpeedFields (state w) (state (advance 500 w)) \/
   speedDerived (state (advance 500 w))) /\
  status (state (endGame w)) = GameOver /\
  speed (state (endGame w)) = 0%Q /\
  baseSpeed (state (endGame w)) = baseSpeed (state w) /\
  boostActive (state (endGame w)) = boostActive (state w) /\
  status (fire BoostExpire (state (endGame w))) = GameOver /\
  speed (fire BoostExpire (state (endGame w))) = baseSpeed (state w).
Proof.
  intro w.
  apply (speed_derived_by_operation
           [OStartGame; OActivateBoost 4000; OAdvance 1000; OEndGame; OAdvance 3000]
           None w 4000 500 5 2 true).
  reflexivity.
Defined.

(** C1, counterexample.  A boost is collected, the game ends one second
    later, and the boost expires three seconds after that: the status is
    GameOver and speed is 0.12, not 0. *)
Lemma speed_not_zero_after_expiry_in_gameover :
  let w := advance 3000 (endGame (advance 1000
             (activateBoost 4000 (startGame (initialStore None))))) in
  reachable w /\
  status (state w) = GameOver /\
  (speed (state w) == 0.12)%Q /\
  ~ spec_speedSettled (state w).
Proof.
  intro w. split.
  { apply (reachable_step (OAdvance 3000)).
    apply (reachable_step OEndGame).
    apply (reachable_step (OAdvance 1000)).
    apply (reachable_step (OActivateBoost 4000)).
    apply (reachable_step OStartGame).
    apply reachable_init. }
  vm_compute. repeat split; discriminate.
Qed.

(** increaseSpeed() computes the new speed from the base speed it found,
    not from the one it stores: after the first call of a run baseSpeed is
    0.123 and speed is still 0.12. *)
Lemma increaseSpeed_speed_from_previous_base :
  let w := increaseSpeed (startGame (initialStore None)) in
  status (state w) = Playing /\
  boostActive (state w) = false /\
  (baseSpeed (state w) == 0.123)%Q /\
  (speed (state w) == 0.12)%Q /\
  ~ spec_speedSettled (state w).
Proof. vm_compute. repeat split; discriminate. Qed.

(** In general the speed that increaseSpeed() leaves is the effective speed
    of the state before the call. *)
Lemma increaseSpeed_speed (w : Store) :
  (baseSpeed (state w) <= 0.4)%Q ->
  (speed (state (increaseSpeed w)) == spec_effectiveSpeed (state w))%Q.
Proof.
  intros H. unfold spec_effectiveSpeed. simpl.
  destruct (boostActive (state w)); [reflexivity|].
  apply Q.min_l. lra.
Qed.

End StoreSpeed.

(** ** The store: repeated calls *)

Section StoreRepeats.

Import GameManager.

Lemma filter_enqueue (f : Timer -> bool) (tm : Timer) (q : list Timer) :
  length (filter f (enqueue tm q))
    = ((if f tm then 1 else 0) + length (filter f q))%nat.
Proof.
  induction q as [|x q IH]; simpl.
  - destruct (f tm); reflexivity.
  - destruct (fireAt tm <? fireAt x); simpl.
    + destruct (f tm); reflexivity.
    + destruct (f x); simpl; rewrite IH; lia.
Qed.

Lemma setTimeout_pendingCount (cb cb' : Callback) (ms : Z) (w : Store) :
  pendingCount cb (setTimeout cb' ms w)
    = ((if Callback_eqb cb' cb then 1 else 0) + pendingCount cb w)%nat.
Proof. unfold pendingCount. simpl. apply filter_enqueue. Qed.

Lemma endGame_state (w : Store) :
  state (endGame w) =
    {| status := GameOver; score := score (state w); speed := 0;
       baseSpeed := baseSpeed (state w); playerLane := playerLane (state w);
       isJumping := isJumping (state w); screenShake := true;
       highScore := Z.max (score (state w)) (highScore (state w));
       boostActive := boostActive (state w);
       magnetActive := magnetActive (state w) |}.
Proof. reflexivity. Qed.

Lemma endGame_localHighScore (w : Store) :
  localHighScore (endGame w)
    = Some (Z.max (score (state w)) (highScore (state w))).
Proof. reflexivity. Qed.

(** C2, as the code has it.  endGame() has no guard on the status: every
    call sets status = GameOver, speed = 0, screenShake = true and
    highScore = max(score, highScore), stores that high score and schedules
    one more clearing of screenShake after 500 ms.  A second call right
    after the first leaves every field of the session and the stored high
    score as the first call left them; what it adds is a second pending
    timer. *)
Theorem endGame_twice :
  forall (w : Store),
    let w1 := endGame w in
    let w2 := endGame w1 in
    state w1 =
      {| status := GameOver; score := score (state w); speed := 0;
         baseSpeed := baseSpeed (state w); playerLane := playerLane (state w);
         isJumping := isJumping (state w); screenShake := true;
         highScore := Z.max (score (state w)) (highScore (state w));
         boostActive := boostActive (state w);
         magnetActive := magnetActive (state w) |} /\
    localHighScore w1 = Some (Z.max (score (state w)) (highScore (state w))) /\
    state w2 = state w1 /\
    localHighScore w2 = localHighScore w1 /\
    clock w2 = clock w1 /\
    pendingCount ClearShake w1 = S (pendingCount ClearShake w) /\
    pendingCount ClearShake w2 = S (S (pendingCount ClearShake w)).
Proof.
  intros w w1 w2.
  split; [reflexivity|]. split; [reflexivity|].
  assert (Hmax : Z.max (score (state w1)) (highScore (state w1))
                 = Z.max (score (state w)) (highScore (state w))).
  { simpl. lia. }
  split.
  { unfold w2. rewrite (endGame_state w1), Hmax. reflexivity. }
  split.
  { unfold w2. rewrite (endGame_localHighScore w1), Hmax. reflexivity. }
  split; [reflexivity|].
  split.
  - unfold w1, endGame. rewrite setTimeout_pendingCount. reflexivity.
  - unfold w2, endGame at 1. rewrite setTimeout_pendingCount.
    unfold w1, endGame. simpl.
    unfold pendingCount at 1. simpl pending.
    rewrite filter_enqueue. reflexivity.
Qed.

(** C2, counterexample.  Five points are scored and the run ends; the
    status is GameOver.  Once the 500 ms of the screen shake are over, a
    second endGame() sets screenShake again; and after a further
    incrementScore(5) it commits a new high score. *)
Lemma endGame_second_call_changes_state :
  let w1 := endGame (incrementScore 5 (startGame (initialStore None))) in
  let w := advance 500 w1 in
  let w' := incrementScore 5 w1 in
  reachable w /\
  status (state w) = GameOver /\
  screenShake (state w) = false /\
  screenShake (state (endGame w)) = true /\
  state (endGame w) <> state w /\
  reachable w' /\
  status (state w') = GameOver /\
  highScore (state w') = 5 /\
  highScore (state (endGame w')) = 10 /\
  state (endGame w') <> state w'.
Proof.
  intros w1 w w'.
  assert (R1 : reachable w1).
  { apply (reachable_step OEndGame).
    apply (reachable_step (OIncrementScore 5)).
    apply (reachable_step OStartGame).
    apply reachable_init. }
  split; [exact (reachable_step (OAdvance 500) _ R1)|].
  split; [reflexivity|]. split; [reflexivity|]. split; [reflexivity|].
  split.
  { intro E. apply (f_equal screenShake) in E. vm_compute in E. discriminate. }
  split; [exact (reachable_step (OIncrementScore 5) _ R1)|].
  split; [reflexivity|]. split; [reflexivity|]. split; [reflexivity|].
  intro E. apply (f_equal highScore) in E. vm_compute in E. discriminate.
Qed.

(** *** Re-triggering a power-up *)

Lemma fire_clears_flag (cb : Callback) (s : GameState) :
  flagOf cb (fire cb s) = false.
Proof. destruct cb; reflexivity. Qed.

Lemma fire_keeps_cleared (cb cb' : Callback) (s : GameState) :
  flagOf cb s = false -> flagOf cb (fire cb' s) = false.
Proof. destruct cb, cb'; simpl; intros H; try exact H; reflexivity. Qed.

Lemma run_due_keeps_cleared (cb : Callback) (t : Z) (q : list Timer) :
  forall s, flagOf cb s = false -> flagOf cb (fst (run_due t q s)) = false.
Proof.
  induction q as [|x q IH]; intros s H; simpl; [exact H|].
  destruct (fireAt x <=? t); [|exact H].
  apply IH. apply fire_keeps_cleared. exact H.
Qed.

(** In an ordered queue every due timer fires. *)
Lemma run_due_fires (t : Z) (tm : Timer) (q : list Timer) :
  forall s, ordered q -> In tm q -> fireAt tm <= t ->
    flagOf (callback tm) (fst (run_due t q s)) = false.
Proof.
  induction q as [|x q IH]; intros s Ho Hin Ht; simpl; [destruct Hin|].
  destruct Ho as [Hx Ho].
  destruct (Z.leb_spec (fireAt x) t) as [Hdue|Hnot].
  - destruct Hin as [E|Hin].
    + subst x. apply run_due_keeps_cleared. apply fire_clears_flag.
    + apply IH; assumption.
  - exfalso. destruct Hin as [E|Hin].
    + subst x. lia.
    + rewrite Forall_forall in Hx. specialize (Hx tm Hin). lia.
Qed.

Lemma In_enqueue_new (tm : Timer) (q : list Timer) : In tm (enqueue tm q).
Proof.
  induction q as [|x q IH]; simpl; [left; reflexivity|].
  destruct (fireAt tm <? fireAt x); simpl; auto.
Qed.

Lemma In_enqueue_old (tm x : Timer) (q : list Timer) :
  In x q -> In x (enqueue tm q).
Proof.
  induction q as [|y q IH]; simpl; intros H; [destruct H|].
  destruct (fireAt tm <? fireAt y); simpl; tauto.
Qed.

(** A timer that is not yet due stays in the queue. *)
Lemma run_due_keeps_pending (t : Z) (tm : Timer) (q : list Timer) :
  forall s, In tm q -> t < fireAt tm -> In tm (snd (run_due t q s)).
Proof.
  induction q as [|x q IH]; intros s Hin Ht; simpl; [destruct Hin|].
  destruct (Z.leb_spec (fireAt x) t) as [Hdue|Hnot].
  - destruct Hin as [E|Hin]; [subst x; lia|].
    apply IH; assumption.
  - exact Hin.
Qed.

Lemma In_pendingCount (cb : Callback) (tm : Timer) (w : Store) :
  In tm (pending w) -> callback tm = cb -> (1 <= pendingCount cb w)%nat.
Proof.
  intros Hin Hcb. unfold pendingCount.
  assert (H : In tm (filter (fun x => Callback_eqb (callback x) cb) (pending w))).
  { apply filter_In. split; [exact Hin|]. rewrite Hcb. destruct cb; reflexivity. }
  destruct (filter (fun x => Callback_eqb (callback x) cb) (pending w));
    [destruct H|simpl; lia].
Qed.

Lemma activate_pending (cb : Callback) (d : Z) (w : Store) :
  clock (activate cb d w) = clock w /\
  (cb <> ClearShake ->
   pending (activate cb d w)
     = enqueue {| fireAt := clock w + Z.max 0 d; callback := cb |} (pending w)) /\
  (cb <> ClearShake -> flagOf cb (state (activate cb d w)) = true).
Proof.
  destruct cb; simpl; repeat split; try reflexivity; congruence.
Qed.

Lemma retrigger (cb : Callback) (w : Store) (d1 d2 dt : Z) :
  cb <> ClearShake ->
  reachable w ->
  0 <= dt < d1 ->
  let w1 := activate cb d1 w in
  let w2 := activate cb d2 (advance dt w1) in
  pendingCount cb w1 = S (pendingCount cb w) /\
  pendingCount cb w2 = S (pendingCount cb (advance dt w1)) /\
  (2 <= pendingCount cb w2)%nat /\
  flagOf cb (state w2) = true /\
  clock (advance (d1 - dt) w2) = clock w + d1 /\
  flagOf cb (state (advance (d1 - dt) w2)) = false.
Proof.
  intros Hcb Hw Hdt w1 w2.
  set (tm := {| fireAt := clock w + Z.max 0 d1; callback := cb |}).
  destruct (activate_pending cb d1 w) as (Hc1 & Hp1 & _).
  specialize (Hp1 Hcb). fold w1 in Hc1, Hp1. fold tm in Hp1.
  destruct (activate_pending cb d2 (advance dt w1)) as (Hc2 & Hp2 & Hf2).
  specialize (Hp2 Hcb). specialize (Hf2 Hcb). fold w2 in Hc2, Hp2, Hf2.
  assert (Hin1 : In tm (pending (advance dt w1))).
  { unfold advance. simpl pending. apply run_due_keeps_pending.
    - rewrite Hp1. apply In_enqueue_new.
    - rewrite Hc1. simpl. lia. }
  assert (Hcount1 : pendingCount cb w1 = S (pendingCount cb w)).
  { unfold pendingCount. rewrite Hp1, filter_enqueue. simpl.
    destruct cb; reflexivity. }
  assert (Hcount2 : pendingCount cb w2 = S (pendingCount cb (advance dt w1))).
  { unfold pendingCount. rewrite Hp2, filter_enqueue. simpl.
    destruct cb; reflexivity. }
  split; [exact Hcount1|]. split; [exact Hcount2|].
  split.
  { rewrite Hcount2.
    pose proof (In_pendingCount cb tm (advance dt w1) Hin1 eq_refl). lia. }
  split; [exact Hf2|].
  assert (Hclock : clock w2 + Z.max 0 (d1 - dt) = clock w + d1).
  { rewrite Hc2. unfold advance. simpl clock. rewrite Hc1. lia. }
  split.
  { unfold advance at 1. simpl clock. exact Hclock. }
  unfold advance at 1. simpl state. rewrite Hclock.
  apply (run_due_fires (clock w + d1) tm).
  - rewrite Hp2. apply enqueue_ordered.
    unfold advance. simpl pending. apply run_due_ordered.
    rewrite Hp1. apply enqueue_ordered. apply reachable_ordered. exact Hw.
  - rewrite Hp2. apply In_enqueue_old. exact Hin1.
  - simpl. lia.
Qed.

(** C3, as the code has it.  A call of activateBoost (activateMagnet)
    cancels nothing: it sets the flag and adds one pending deactivation of
    its own.  When the power-up is triggered again [dt] ms after a first
    call of duration [d1], with dt < d1, the store holds at least two
    pending deactivations for it, and the flag is false [d1] ms after the
    first call, when the first timer fires, whatever the duration [d2] of
    the second call. *)
Theorem retrigger_keeps_first_deactivation :
  forall (w : Store) (d1 d2 dt : Z),
    reachable w ->
    0 <= dt < d1 ->
    let b1 := activateBoost d1 w in
    let b2 := activateBoost d2 (advance dt b1) in
    let m1 := activateMagnet d1 w in
    let m2 := activateMagnet d2 (advance dt m1) in
    (pendingCount BoostExpire b1 = S (pendingCount BoostExpire w) /\
     pendingCount BoostExpire b2 = S (pendingCount BoostExpire (advance dt b1)) /\
     (2 <= pendingCount BoostExpire b2)%nat /\
     boostActive (state b2) = true /\
     clock (advance (d1 - dt) b2) = clock w + d1 /\
     boostActive (state (advance (d1 - dt) b2)) = false) /\
    (pendingCount MagnetExpire m1 = S (pendingCount MagnetExpire w) /\
     pendingCount MagnetExpire m2 = S (pendingCount MagnetExpire (advance dt m1)) /\
     (2 <= pendingCount MagnetExpire m2)%nat /\
     magnetActive (state m2) = true /\
     clock (advance (d1 - dt) m2) = clock w + d1 /\
     magnetActive (state (advance (d1 - dt) m2)) = false).
Proof.
  intros w d1 d2 dt Hw Hdt. split.
  - apply (retrigger BoostExpire w d1 d2 dt); [discriminate|exact Hw|exact Hdt].
  - apply (retrigger MagnetExpire w d1 d2 dt); [discriminate|exact Hw|exact Hdt].
Qed.

(** The theorem at the start of a run: 4000 ms, triggered again at 3000. *)
Lemma retrigger_keeps_first_deactivation_witness :
  let w := startGame (initialStore None) in
  let b1 := activateBoost 4000 w in
  let b2 := activateBoost 4000 (advance 3000 b1) in
  let m1 := activateMagnet 4000 w in
  let m2 := activateMagnet 4000 (advance 3000 m1) in
  (pendingCount BoostExpire b1 = S (pendingCount BoostExpire w) /\
   pendingCount BoostExpire b2 = S (pendingCount BoostExpire (advance 3000 b1)) /\
   (2 <= pendingCount BoostExpire b2)%nat /\
   boostActive (state b2) = true /\
   clock (advance (4000 - 3000) b2) = clock w + 4000 /\
   boostActive (state (advance (4000 - 3000) b2)) = false) /\
  (pendingCount MagnetExpire m1 = S (pendingCount MagnetExpire w) /\
   pendingCount MagnetExpire m2 = S (pendingCount MagnetExpire (advance 3000 m1)) /\
   (2 <= pendingCount MagnetExpire m2)%nat /\
   magnetActive (state m2) = true /\
   clock (advance (4000 - 3000) m2) = clock w + 4000 /\
   magnetActive (state (advance (4000 - 3000) m2)) = false).
Proof.
  intro w.
  apply (retrigger_keeps_first_deactivation w 4000 4000 3000).
  - apply (reachable_step OStartGame). apply reachable_init.
  - lia.
Defined.

(** C3, counterexample.  A boost of 4000 ms is triggered at 0 and again at
    3000: two deactivations are pending, and the boost that should last
    until 7000 is cleared at 4000.  The same for the magnet with 8000 ms,
    triggered at 0 and at 5000 and cleared at 8000 instead of 13000. *)
Lemma retrigger_cleared_by_first_timer :
  let w := startGame (initialStore None) in
  let b2 := activateBoost 4000 (advance 3000 (activateBoost 4000 w)) in
  let m2 := activateMagnet 8000 (advance 5000 (activateMagnet 8000 w)) in
  map fireAt (pending b2) = [4000; 7000] /\
  pendingCount BoostExpire b2 = 2%nat /\
  boostActive (state b2) = true /\
  clock (advance 1000 b2) = 4000 /\
  boostActive (state (advance 1000 b2)) = false /\
  map fireAt (pending m2) = [8000; 13000] /\
  pendingCount MagnetExpire m2 = 2%nat /\
  magnetActive (state m2) = true /\
  clock (advance 3000 m2) = 8000 /\
  magnetActive (state (advance 3000 m2)) = false /\
  ~ (pendingCount BoostExpire b2 <= 1)%nat /\
  ~ (pendingCount MagnetExpire m2 <= 1)%nat.
Proof.
  vm_compute. repeat split; try reflexivity; intro H; inversion H as [|? H'];
    inversion H'.
Qed.

End StoreRepeats.

(** ** The store: score and player fields *)

Section StoreScore.

Import GameManager.

Lemma advance_score (ms : Z) (w : Store) :
  score (state (advance ms w)) = score (state w).
Proof. unfold advance. simpl. apply run_due_frame. Qed.

Lemma step_score (o : Op) (w : Store) :
  score (state (step o w)) =
    match o with
    | OStartGame | ORestartGame => 0
    | OIncrementScore a => score (state w) + a
    | _ => score (state w)
    end.
Proof. destruct o; try reflexivity. apply advance_score. Qed.

Lemma run_app (l1 l2 : list Op) (w : Store) :
  run (l1 ++ l2) w = run l2 (run l1 w).
Proof. unfold run. apply fold_left_app. Qed.

Lemma run_score_nonneg (ops : list Op) :
  forall w, forallb nonnegAmount ops = true ->
    0 <= score (state w) -> 0 <= score (state (run ops w)).
Proof.
  induction ops as [|o ops IH]; intros w Hops Hw; simpl; [exact Hw|].
  simpl in Hops. apply andb_true_iff in Hops. destruct Hops as [Ho Hops].
  apply IH; [exact Hops|].
  rewrite step_score.
  destruct o; simpl in Ho; try lia; try exact Hw.
Qed.

(** C6, as the code has it.  incrementScore(amount) adds [amount] as it
    is.  In every run whose incrementScore calls carry amounts that are not
    negative, score is a non-negative integer, and no operation with such an
    amount other than startGame()/restartGame(), which reset it to 0,
    makes it smaller. *)
Theorem score_nonneg_and_monotone :
  forall (ops : list Op) (stored : option Z) (o : Op) (amount : Z),
    forallb nonnegAmount ops = true ->
    nonnegAmount o = true ->
    o <> OStartGame ->
    o <> ORestartGame ->
    let w := run ops (initialStore stored) in
    0 <= score (state w) /\
    score (state w) <= score (state (step o w)) /\
    score (state (incrementScore amount w)) = score (state w) + amount /\
    score (state (startGame w)) = 0 /\
    score (state (restartGame w)) = 0.
Proof.
  intros ops stored o amount Hops Ho Hs Hr w.
  assert (Hw : 0 <= score (state w)).
  { apply run_score_nonneg; [exact Hops|simpl; lia]. }
  split; [exact Hw|].
  split.
  { rewrite step_score. destruct o; simpl in Ho; try lia; congruence. }
  repeat split; reflexivity.
Qed.

(** The theorem on a run that collects a coin and a boost. *)
Lemma score_nonneg_and_monotone_witness :
  let w := run [OStartGame; OIncrementScore 5; OActivateBoost 4000;
                OIncrementScore 2] (initialStore None) in
  0 <= score (state w) /\
  score (state w) <= score (state (step (OIncrementScore 3) w)) /\
  score (state (incrementScore 5 w)) = score (state w) + 5 /\
  score (state (startGame w)) = 0 /\
  score (state (restartGame w)) = 0.
Proof.
  apply (score_nonneg_and_monotone
           [OStartGame; OIncrementScore 5; OActivateBoost 4000; OIncrementScore 2]
           None (OIncrementScore 3) 5).
  - reflexivity.
  - reflexivity.
  - discriminate.
  - discriminate.
Defined.

(** C6, counterexample.  incrementScore(-1) at the start of a run leaves
    the score -1 while the status is Playing; and restartGame() during a
    run takes the score from 5 back to 0 with the status Playing before
    and after. *)
Lemma score_negative_after_negative_amount :
  let w0 := startGame (initialStore None) in
  let w := incrementScore (-1) w0 in
  let v := incrementScore 5 w0 in
  reachable w /\
  status (state w0) = Playing /\
  status (state w) = Playing /\
  score (state w) = -1 /\
  ~ (0 <= score (state w)) /\
  ~ (score (state w0) <= score (state w)) /\
  status (state v) = Playing /\
  status (state (restartGame v)) = Playing /\
  ~ (score (state v) <= score (state (restartGame v))).
Proof.
  intros w0 w v. split.
  { apply (reachable_step (OIncrementScore (-1))).
    apply (reachable_step OStartGame). apply reachable_init. }
  vm_compute. repeat split; try reflexivity; intro H; apply H; reflexivity.
Qed.

(** C10. setPlayerState(lane, jumping) stores its two arguments as they
    are, for every integer [lane] (7 and -1 among them) and every boolean,
    and changes nothing else; the store does not clamp.  The lane stays in
    {0, 1, 2} because the Player component, whose moves clamp, is the caller:
    whatever it does from its initial state, the lane it syncs is in range. *)
Theorem setPlayerState_stores_arguments :
  forall (w : Store) (lane : Z) (jumping : bool) (l : list Player.Action),
    state (setPlayerState lane jumping w) =
      {| status := status (state w); score := score (state w);
         speed := speed (state w); baseSpeed := baseSpeed (state w);
         playerLane := lane; isJumping := jumping;
         screenShake := screenShake (state w);
         highScore := highScore (state w);
         boostActive := boostActive (state w);
         magnetActive := magnetActive (state w) |} /\
    clock (setPlayerState lane jumping w) = clock w /\
    pending (setPlayerState lane jumping w) = pending w /\
    localHighScore (setPlayerState lane jumping w) = localHighScore w /\
    playerLane (state (setPlayerState 7 jumping w)) = 7 /\
    playerLane (state (setPlayerState (-1) jumping w)) = -1 /\
    0 <= playerLane (state (Player.syncToStore
                              (Player.acts l Player.initialPlayer) w)) <= 2.
Proof.
  intros w lane jumping l.
  repeat split; try reflexivity;
    apply (acts_laneValid l Player.initialPlayer); unfold Player.laneValid; simpl; lia.
Qed.

End StoreScore.

(** ** The collision resolver *)

Section Collisions.

Import Obstacles.

Lemma isCoin_coin (t : ObstacleType) : isCoin t = true <-> t = coin.
Proof. destruct t; simpl; split; congruence. Qed.

Lemma hit_inReach (s : GameManager.GameState) (it : Item) :
  hit s it = true <-> inReach s it.
Proof.
  unfold hit, inReach.
  rewrite andb_true_iff, orb_true_iff, andb_true_iff.
  rewrite Qltb_lt, Z.eqb_eq, isCoin_coin. reflexivity.
Qed.

Lemma despawned_not_near (zp : Q) :
  Player.Qltb DESPAWN_DISTANCE zp = true ->
  ~ (Qabs zp < COLLISION_THRESHOLD_Z)%Q.
Proof.
  intros H Hn. apply Qltb_lt in H.
  pose proof (Qle_Qabs zp) as Habs.
  unfold DESPAWN_DISTANCE in H. unfold COLLISION_THRESHOLD_Z in Hn. lra.
Qed.


Lemma resolve_effects (s : GameManager.GameState) (it : Item) :
  (snd (resolve s it) <> [] <->
     (type (data it) = rock -> GameManager.isJumping s = false)) /\
  (In EndGame (snd (resolve s it)) <->
     type (data it) = rock /\ GameManager.isJumping s = false) /\
  (In (Play AudioManager.crash) (snd (resolve s it)) <->
     type (data it) = rock /\ GameManager.isJumping s = false) /\
  collected (fst (resolve s it)) = (collected it || negb (noEffects (snd (resolve s it)))).
Proof.
  unfold resolve.
  destruct (type (data it)); destruct (GameManager.isJumping s); simpl;
    repeat split;
    try (rewrite orb_true_r; reflexivity);
    try (rewrite orb_false_r; reflexivity);
    intros; try congruence; try discriminate;
    repeat match goal with
           | H : _ \/ _ |- _ => destruct H
           | H : _ /\ _ |- _ => destruct H
           | H : False |- _ => destruct H
           end;
    try congruence; try discriminate; auto.
  all: try (exfalso; match goal with H : rock = rock -> _ |- _ =>
              specialize (H eq_refl); discriminate end).
Qed.

(** A collected entity is moved or removed by a frame, and nothing else. *)
Lemma itemFrame_collected (s : GameManager.GameState) (delta : Q) (it : Item) :
  collected it = true ->
  itemFrame s delta it = Removed \/
  exists it', itemFrame s delta it = Kept it' [] /\ collected it' = true.
Proof.
  intros H. unfold itemFrame.
  destruct (negb (Player.isPlaying (GameManager.status s))).
  - right. exists it. split; [reflexivity|exact H].
  - cbv zeta. simpl collected. simpl positionZ.
    destruct (Player.Qltb DESPAWN_DISTANCE _); [left; reflexivity|].
    rewrite H. simpl. right. eexists. split; reflexivity.
Qed.

Lemma itemFrames_collected (l : list (GameManager.GameState * Q)) :
  forall it, collected it = true -> itemFrames l it = [].
Proof.
  induction l as [|[s delta] l IH]; intros it H; simpl; [reflexivity|].
  destruct (itemFrame_collected s delta it H) as [E|(it' & E & H')]; rewrite E.
  - reflexivity.
  - simpl. apply IH. exact H'.
Qed.

(** With the identity for the rounding, the frame is the one of exact
    arithmetic. *)
Lemma itemFrame_exact (s : GameManager.GameState) (delta : Q) (it : Item) :
  itemFrame s delta it = itemFrameWith (fun x => x) s delta it.
Proof. reflexivity. Qed.

Lemma itemFrameAt_playing (s : GameManager.GameState) (zNew : Q) (it : Item) :
  GameManager.status s = GameManager.Playing ->
  itemFrameAt s zNew it =
    if Player.Qltb DESPAWN_DISTANCE zNew then Removed
    else if negb (collected it) && hit s (placed zNew it) then
      Kept (fst (resolve s (placed zNew it))) (snd (resolve s (placed zNew it)))
    else Kept (placed zNew it) [].
Proof.
  intros H. unfold itemFrameAt. rewrite H. simpl negb. cbv iota zeta.
  change (positionZ (placed zNew it)) with zNew.
  destruct (Player.Qltb DESPAWN_DISTANCE zNew); [reflexivity|].
  change (collected (placed zNew it)) with (collected it).
  destruct (collected it); simpl; [reflexivity|].
  destruct (hit s (placed zNew it)); reflexivity.
Qed.

Lemma itemFrameAt_collected (s : GameManager.GameState) (zNew : Q) (it : Item) :
  collected it = true ->
  itemFrameAt s zNew it = Removed \/
  exists it', itemFrameAt s zNew it = Kept it' [] /\ collected it' = true.
Proof.
  intros H. unfold itemFrameAt.
  destruct (negb (Player.isPlaying (GameManager.status s))).
  - right. exists it. split; [reflexivity|exact H].
  - cbv zeta. change (positionZ (placed zNew it)) with zNew.
    destruct (Player.Qltb DESPAWN_DISTANCE zNew); [left; reflexivity|].
    change (collected (placed zNew it)) with (collected it).
    rewrite H. simpl. right. eexists. split; [reflexivity|exact H].
Qed.

Lemma itemFramesWith_collected (rnd : Q -> Q) (l : list (GameManager.GameState * Q)) :
  forall it, collected it = true -> itemFramesWith rnd l it = [].
Proof.
  induction l as [|[s delta] l IH]; intros it H; simpl; [reflexivity|].
  unfold itemFrameWith.
  destruct (itemFrameAt_collected s (movedTo rnd s delta it) it H)
    as [E|(it' & E & H')]; rewrite E.
  - reflexivity.
  - simpl. apply IH. exact H'.
Qed.

(** C4. While Playing, a frame of an entity dispatches a collision effect
    exactly when the entity is not yet collected, its distance |z| to the
    player, with z the value position.z holds after the move of the frame
    under whatever rounding, is under the threshold 1, its lane is the
    player's lane or it is a Coin while the magnet is active, and, for a
    Hazard, the player is not jumping.  What is dispatched is then the
    effect of the type: for a Hazard the crash cue and endGame(), the
    entity being marked collected; for a SpeedBoost the collect cue,
    activateBoost(4000) and incrementScore(2); for a Coin the collect cue
    and incrementScore(5); for a Magnet the collect cue,
    activateMagnet(8000) and incrementScore(3), the collectible being
    marked collected and hidden, whether the player jumps or not; a Hazard
    under a jumping player is moved and nothing else.  Otherwise the frame
    dispatches nothing.  The mark stays: after a frame that dispatched,
    and for any collected entity, no later frame dispatches anything. *)
Theorem collision_dispatch :
  forall (rnd : Q -> Q) (s : GameManager.GameState) (delta : Q) (it : Item)
         (later : list (GameManager.GameState * Q)) (hide : bool)
         (w : GameManager.Store),
    GameManager.status s = GameManager.Playing ->
    let zNew := movedTo rnd s delta it in
    let r := itemFrameWith rnd s delta it in
    let reach :=
      (Qabs zNew < COLLISION_THRESHOLD_Z)%Q /\
      (lane (data it) = GameManager.playerLane s \/
       (GameManager.magnetActive s = true /\ type (data it) = coin)) in
    let taken (hidden : bool) :=
      {| data := data it; positionZ := zNew; collected := true;
         visible := if hidden then false else visible it |} in
    (effectsOf r <> [] <->
       collected it = false /\ reach /\
       (type (data it) = rock -> GameManager.isJumping s = false)) /\
    (In EndGame (effectsOf r) <->
       collected it = false /\ reach /\
       type (data it) = rock /\ GameManager.isJumping s = false) /\
    (In (Play AudioManager.crash) (effectsOf r) <->
       collected it = false /\ reach /\
       type (data it) = rock /\ GameManager.isJumping s = false) /\
    (collected it = false -> reach ->
       (type (data it) = rock -> GameManager.isJumping s = false ->
          r = Kept (taken false) [Play AudioManager.crash; EndGame] /\
          performAll (effectsOf r) w = GameManager.endGame w) /\
       (type (data it) = rock -> GameManager.isJumping s = true ->
          r = Kept (placed zNew it) []) /\
       (type (data it) = chilly ->
          r = Kept (taken true)
                [Play AudioManager.collect; ActivateBoost 4000; IncrementScore 2] /\
          performAll (effectsOf r) w
            = GameManager.incrementScore 2 (GameManager.activateBoost 4000 w)) /\
       (type (data it) = coin ->
          r = Kept (taken true) [Play AudioManager.collect; IncrementScore 5] /\
          performAll (effectsOf r) w = GameManager.incrementScore 5 w) /\
       (type (data it) = magnet ->
          r = Kept (taken true)
                [Play AudioManager.collect; ActivateMagnet 8000; IncrementScore 3] /\
          performAll (effectsOf r) w
            = GameManager.incrementScore 3 (GameManager.activateMagnet 8000 w))) /\
    (collected it = true \/ ~ reach ->
       r = Removed \/ r = Kept (placed zNew it) []) /\
    (forall it' e, r = Kept it' e ->
       collected it' = (collected it || negb (noEffects e))) /\
    (forall it' e, r = Kept it' e -> e <> [] ->
       itemFramesWith rnd later it' = []) /\
    itemFramesWith rnd later (markCollected hide it) = [].
Proof.
  intros rnd s delta it later hide w Hs zNew r reach taken.
  assert (Hr : r = itemFrameAt s zNew it) by reflexivity. clearbody r.
  rewrite (itemFrameAt_playing s zNew it Hs) in Hr.
  set (it1 := placed zNew it) in *.
  destruct (resolve_effects s it1) as (R1 & R2 & R3 & R4).
  change (type (data it1)) with (type (data it)) in R1, R2, R3.
  change (collected it1) with (collected it) in R4.
  assert (Hhit : hit s it1 = true <-> reach) by apply (hit_inReach s it1).
  assert (Hlast : itemFramesWith rnd later (markCollected hide it) = [])
    by (apply itemFramesWith_collected; reflexivity).
  assert (Hfin :
    (forall it' e, r = Kept it' e ->
       collected it' = (collected it || negb (noEffects e))) ->
    (forall it' e, r = Kept it' e ->
       collected it' = (collected it || negb (noEffects e))) /\
    (forall it' e, r = Kept it' e -> e <> [] ->
       itemFramesWith rnd later it' = []) /\
    itemFramesWith rnd later (markCollected hide it) = []).
  { intros F. split; [exact F|]. split; [|exact Hlast].
    intros it' e E Hne. apply itemFramesWith_collected.
    rewrite (F it' e E). destruct e; [contradiction Hne; reflexivity|].
    simpl. apply orb_true_r. }
  destruct (Player.Qltb DESPAWN_DISTANCE zNew) eqn:Hd.
  - (* removed *)
    pose proof (despawned_not_near _ Hd) as Hfar.
    assert (Hout : ~ reach) by (intros [Hn _]; tauto).
    subst r. simpl.
    split; [tauto|]. split; [tauto|]. split; [tauto|].
    split; [intros _ Hin; contradiction|].
    split; [intros _; left; reflexivity|].
    apply Hfin.
    intros it' e E. discriminate E.
  - destruct (collected it) eqn:Hc; simpl in Hr.
    + (* collected before *)
      subst r. simpl.
      split; [split; [tauto|intros (Hf & _); discriminate Hf]|].
      split; [split; [tauto|intros (Hf & _); discriminate Hf]|].
      split; [split; [tauto|intros (Hf & _); discriminate Hf]|].
      split; [intros Hf; discriminate Hf|].
      split; [intros _; right; reflexivity|].
      apply Hfin.
      intros it' e E. inversion E; subst. exact Hc.
    + destruct (hit s it1) eqn:Hh.
      * (* in reach *)
        assert (Hin : reach) by (apply Hhit; reflexivity).
        split; [subst r; simpl; rewrite R1; tauto|].
        split; [subst r; simpl; rewrite R2; tauto|].
        split; [subst r; simpl; rewrite R3; tauto|].
        split.
        { intros _ _. subst r. unfold resolve.
          change (type (data it1)) with (type (data it)).
          destruct (type (data it)); destruct (GameManager.isJumping s);
            repeat split; intros; try discriminate; reflexivity. }
        split.
        { intros [Hf|Hn]; [discriminate Hf|contradiction]. }
        apply Hfin.
        intros it' e E. subst r. inversion E; subst. rewrite R4. reflexivity.
      * (* out of reach *)
        assert (Hnot : ~ reach).
        { intro Hin. apply Hhit in Hin. congruence. }
        subst r. simpl.
        split; [tauto|]. split; [tauto|]. split; [tauto|].
        split; [intros _ Hin; contradiction|].
        split; [intros _; right; reflexivity|].
        apply Hfin.
        intros it' e E. inversion E; subst. exact Hc.
Qed.

(** The theorem for a coin in the lane of a jumping player, in exact
    arithmetic. *)
Lemma collision_dispatch_witness :
  let rnd := fun x : Q => x in
  let s := GameManager.mkGameState GameManager.Playing 0 0.12 0.12 1 true
             false 0 false false in
  let it := mkItem (mkData 0 coin 1 (-60)) (-0.5) false true in
  let w := GameManager.startGame (GameManager.initialStore None) in
  let later := [(s, 1 # 60); (s, 1 # 60)] in
  let zNew := movedTo rnd s (1 # 60) it in
  let r := itemFrameWith rnd s (1 # 60) it in
  let reach :=
    (Qabs zNew < COLLISION_THRESHOLD_Z)%Q /\
    (lane (data it) = GameManager.playerLane s \/
     (GameManager.magnetActive s = true /\ type (data it) = coin)) in
  let taken (hidden : bool) :=
    {| data := data it; positionZ := zNew; collected := true;
       visible := if hidden then false else visible it |} in
  (effectsOf r <> [] <->
     collected it = false /\ reach /\
     (type (data it) = rock -> GameManager.isJumping s = false)) /\
  (In EndGame (effectsOf r) <->
     collected it = false /\ reach /\
     type (data it) = rock /\ GameManager.isJumping s = false) /\
  (In (Play AudioManager.crash) (effectsOf r) <->
     collected it = false /\ reach /\
     type (data it) = rock /\ GameManager.isJumping s = false) /\
  (collected it = false -> reach ->
     (type (data it) = rock -> GameManager.isJumping s = false ->
        r = Kept (taken false) [Play AudioManager.crash; EndGame] /\
        performAll (effectsOf r) w = GameManager.endGame w) /\
     (type (data it) = rock -> GameManager.isJumping s = true ->
        r = Kept (placed zNew it) []) /\
     (type (data it) = chilly ->
        r = Kept (taken true)
              [Play AudioManager.collect; ActivateBoost 4000; IncrementScore 2] /\
        performAll (effectsOf r) w
          = GameManager.incrementScore 2 (GameManager.activateBoost 4000 w)) /\
     (type (data it) = coin ->
        r = Kept (taken true) [Play AudioManager.collect; IncrementScore 5] /\
        performAll (effectsOf r) w = GameManager.incrementScore 5 w) /\
     (type (data it) = magnet ->
        r = Kept (taken true)
              [Play AudioManager.collect; ActivateMagnet 8000; IncrementScore 3] /\
        performAll (effectsOf r) w
          = GameManager.incrementScore 3 (GameManager.activateMagnet 8000 w))) /\
  (collected it = true \/ ~ reach ->
     r = Removed \/ r = Kept (placed zNew it) []) /\
  (forall it' e, r = Kept it' e ->
     collected it' = (collected it || negb (noEffects e))) /\
  (forall it' e, r = Kept it' e -> e <> [] ->
     itemFramesWith rnd later it' = []) /\
  itemFramesWith rnd later (markCollected true it) = [].
Proof.
  intros rnd s it w later.
  apply (collision_dispatch rnd s (1 # 60) it later true w).
  reflexivity.
Defined.

(** At the edge of the threshold the rounding decides.  A rock at -1.4 in
    the lane, speed 0.4 and a frame of 1/60 s: the exact sum is -1 and the
    frame of exact arithmetic dispatches nothing; the doubles of the
    program give -(1 - 2^-53) and the frame crashes. *)
Example rounding_at_the_threshold :
  let s := GameManager.mkGameState GameManager.Playing 0 0.4 0.4 1 false
             false 0 false false in
  let it := mkItem (mkData 0 rock 1 (-60)) (-1.4) false true in
  effectsOf (itemFrame s (1 # 60) it) = [] /\
  effectsOf (itemFrameAt s (- (9007199254740991 # 9007199254740992)) it)
    = [Play AudioManager.crash; EndGame].
Proof. split; reflexivity. Qed.

(** Frames of 1/60 s at speed 0.12 with the player in lane 1. *)
Example collision_frames :
  let st j m := GameManager.mkGameState GameManager.Playing 0 0.12 0.12 1 j
                  false 0 false m in
  let at_ t l := mkItem (mkData 0 t l (-60)) (-0.5) false true in
  (* a rock in the lane: crash unless the player jumps *)
  effectsOf (itemFrame (st false false) (1 # 60) (at_ rock 1))
    = [Play AudioManager.crash; EndGame] /\
  effectsOf (itemFrame (st true false) (1 # 60) (at_ rock 1)) = [] /\
  (* a rock in another lane, with or without the magnet *)
  effectsOf (itemFrame (st false true) (1 # 60) (at_ rock 0)) = [] /\
  (* collectibles in the lane of a jumping player *)
  effectsOf (itemFrame (st true false) (1 # 60) (at_ coin 1))
    = [Play AudioManager.collect; IncrementScore 5] /\
  effectsOf (itemFrame (st true false) (1 # 60) (at_ chilly 1))
    = [Play AudioManager.collect; ActivateBoost 4000; IncrementScore 2] /\
  effectsOf (itemFrame (st true false) (1 # 60) (at_ magnet 1))
    = [Play AudioManager.collect; ActivateMagnet 8000; IncrementScore 3] /\
  (* another lane: only a coin under the magnet *)
  effectsOf (itemFrame (st false false) (1 # 60) (at_ coin 2)) = [] /\
  effectsOf (itemFrame (st false true) (1 # 60) (at_ coin 2))
    = [Play AudioManager.collect; IncrementScore 5] /\
  effectsOf (itemFrame (st false true) (1 # 60) (at_ chilly 2)) = [] /\
  (* the coin of the lane over three frames: collected once *)
  itemFrames [(st false false, 1 # 60); (st false false, 1 # 60);
              (st false false, 1 # 60)] (at_ coin 1)
    = [Play AudioManager.collect; IncrementScore 5].
Proof. vm_compute. repeat split; reflexivity. Qed.

(** The coin scenario on the store: the score goes up by 5, once. *)
Example coin_scored_once :
  let w := GameManager.startGame (GameManager.initialStore None) in
  let it := mkItem (mkData 0 coin 1 (-60)) (-0.5) false true in
  let fr := (GameManager.state w, 1 # 60) in
  GameManager.score (GameManager.state
    (performAll (itemFrames [fr; fr; fr] it) w)) = 5%Z.
Proof. reflexivity. Qed.

End Collisions.

(** ** The store: what a pending timer does *)

Section StorePending.

Import GameManager.

Lemma step_clock (o : Op) (w : Store) :
  clock (step o w) = clock w + elapsed [o].
Proof. destruct o; simpl; lia. Qed.

Lemma run_clock (ops : list Op) :
  forall w, clock (run ops w) = clock w + elapsed ops.
Proof.
  induction ops as [|o ops IH]; intros w; simpl; [lia|].
  change (fold_left (fun acc o0 => step o0 acc) ops (step o w))
    with (run ops (step o w)).
  rewrite IH, step_clock. simpl. destruct o; lia.
Qed.

Lemma elapsed_nonneg (ops : list Op) : 0 <= elapsed ops.
Proof. induction ops as [|o ops IH]; simpl; [lia|]. destruct o; lia. Qed.

Lemma run_ordered (ops : list Op) :
  forall w, ordered (pending w) -> ordered (pending (run ops w)).
Proof.
  induction ops as [|o ops IH]; intros w H; simpl; [exact H|].
  apply IH. apply step_ordered. exact H.
Qed.

(** A timer stays in the queue through any operation before it is due. *)
Lemma step_keeps_pending (o : Op) (w : Store) (tm : Timer) :
  In tm (pending w) -> clock (step o w) < fireAt tm -> In tm (pending (step o w)).
Proof.
  intros Hin Ht.
  destruct o; simpl in *; try exact Hin;
    try (apply In_enqueue_old; exact Hin).
  apply run_due_keeps_pending; assumption.
Qed.

Lemma run_keeps_pending (ops : list Op) (tm : Timer) :
  forall w, In tm (pending w) -> clock w + elapsed ops < fireAt tm ->
    In tm (pending (run ops w)).
Proof.
  induction ops as [|o ops IH]; intros w Hin Ht; simpl; [exact Hin|].
  change (fold_left (fun acc o0 => step o0 acc) ops (step o w))
    with (run ops (step o w)).
  pose proof (elapsed_nonneg ops) as Hn.
  pose proof (step_clock o w) as Hc. simpl in Hc, Ht.
  apply IH.
  - apply step_keeps_pending; [exact Hin|]. destruct o; lia.
  - destruct o; lia.
Qed.

(** In a reachable store a pending timer has cleared its flag once the
    clock has reached its due time. *)
Lemma advance_fires (w : Store) (tm : Timer) (ms : Z) :
  ordered (pending w) -> In tm (pending w) ->
  fireAt tm <= clock w + Z.max 0 ms ->
  flagOf (callback tm) (state (advance ms w)) = false.
Proof.
  intros Ho Hin Ht. unfold advance. simpl state.
  apply run_due_fires; assumption.
Qed.

(** Nothing cancels a timer: whatever is called with the store while the
    duration [d] of an activateBoost (activateMagnet) call has not passed,
    restarts and new activations included, the flag is false when it has
    passed. *)
Theorem deactivation_fires_whatever_happens :
  forall (w : Store) (d : Z) (ops : list Op),
    reachable w ->
    elapsed ops < d ->
    let b := run ops (activateBoost d w) in
    let m := run ops (activateMagnet d w) in
    clock (advance (d - elapsed ops) b) = clock w + d /\
    boostActive (state (advance (d - elapsed ops) b)) = false /\
    clock (advance (d - elapsed ops) m) = clock w + d /\
    magnetActive (state (advance (d - elapsed ops) m)) = false.
Proof.
  intros w d ops Hw Hd b m.
  pose proof (elapsed_nonneg ops) as Hn.
  pose proof (reachable_ordered w Hw) as Ho.
  assert (Hgen : forall cb, cb <> ClearShake ->
            let x := run ops (activate cb d w) in
            clock (advance (d - elapsed ops) x) = clock w + d /\
            flagOf cb (state (advance (d - elapsed ops) x)) = false).
  { intros cb Hcb x.
    destruct (activate_pending cb d w) as (Hc & Hp & _). specialize (Hp Hcb).
    set (tm := {| fireAt := clock w + Z.max 0 d; callback := cb |}) in *.
    assert (Hclock : clock x = clock w + elapsed ops).
    { unfold x. rewrite run_clock, Hc. reflexivity. }
    split.
    { unfold advance. simpl clock. rewrite Hclock. lia. }
    apply (advance_fires x tm).
    - unfold x. apply run_ordered. rewrite Hp. apply enqueue_ordered. exact Ho.
    - unfold x. apply run_keeps_pending.
      + rewrite Hp. apply In_enqueue_new.
      + rewrite Hc. simpl. lia.
    - rewrite Hclock. simpl. lia. }
  destruct (Hgen BoostExpire ltac:(discriminate)) as [B1 B2].
  destruct (Hgen MagnetExpire ltac:(discriminate)) as [M1 M2].
  repeat split; assumption.
Qed.

(** A boost of 4000 ms, then a restart and a second boost of 4000 ms one
    second later: the second boost is over three seconds after it began. *)
Lemma deactivation_fires_whatever_happens_witness :
  let w := startGame (initialStore None) in
  let ops := [OAdvance 500; ORestartGame; OAdvance 500; OActivateBoost 4000;
              OActivateMagnet 8000] in
  let b := run ops (activateBoost 4000 w) in
  let m := run ops (activateMagnet 4000 w) in
  clock (advance (4000 - elapsed ops) b) = clock w + 4000 /\
  boostActive (state (advance (4000 - elapsed ops) b)) = false /\
  clock (advance (4000 - elapsed ops) m) = clock w + 4000 /\
  magnetActive (state (advance (4000 - elapsed ops) m)) = false.
Proof.
  intros w ops.
  apply (deactivation_fires_whatever_happens w 4000 ops).
  - apply (reachable_step OStartGame). apply reachable_init.
  - reflexivity.
Defined.

(** The flag of a timer survives while no timer of its kind is due. *)
Lemma run_due_keeps_flag (cb : Callback) (t : Z) (q : list Timer) :
  forall s,
    Forall (fun x => callback x = cb -> t < fireAt x) q ->
    flagOf cb (fst (run_due t q s)) = flagOf cb s /\
    (cb = BoostExpire -> speed (fst (run_due t q s)) = speed s).
Proof.
  induction q as [|x q IH]; intros s H; simpl; [split; reflexivity|].
  inversion H as [|? ? Hx Hq]; subst.
  destruct (Z.leb_spec (fireAt x) t) as [Hdue|Hnot]; [|split; reflexivity].
  destruct (IH (fire (callback x) s) Hq) as [E1 E2].
  assert (Hne : callback x <> cb) by (intro E; specialize (Hx E); lia).
  split.
  - rewrite E1. destruct cb, (callback x); try reflexivity; congruence.
  - intros Hcb. rewrite (E2 Hcb). subst cb.
    destruct (callback x); try reflexivity; congruence.
Qed.

Lemma pendingCount_zero (cb : Callback) (w : Store) :
  pendingCount cb w = 0%nat ->
  Forall (fun x => callback x <> cb) (pending w).
Proof.
  unfold pendingCount. induction (pending w) as [|x q IH]; simpl; intros H.
  - constructor.
  - destruct (Callback_eqb (callback x) cb) eqn:E; [discriminate H|].
    constructor; [|apply IH; exact H].
    intro Hc. rewrite Hc in E. destruct cb; discriminate E.
Qed.

(** With no other deactivation of its own kind pending, whatever else
    the queue holds, a power-up (and the screen shake) lasts its whole
    duration: the flag is true, and for the boost the boosted speed is
    kept, at every moment before the duration has passed.  The flag is
    false when the duration has passed, whatever is pending.  The moments
    of the power-ups and those of the shake are independent. *)
Theorem flag_lasts_when_no_other_timer :
  forall (w : Store) (d dt ds : Z),
    (0 <= dt < d -> pendingCount BoostExpire w = 0%nat ->
       boostActive (state (advance dt (activateBoost d w))) = true /\
       speed (state (advance dt (activateBoost d w)))
         = Qmin (baseSpeed (state w) * 1.8) 0.6) /\
    boostActive (state (advance d (activateBoost d w))) = false /\
    (0 <= dt < d -> pendingCount MagnetExpire w = 0%nat ->
       magnetActive (state (advance dt (activateMagnet d w))) = true) /\
    magnetActive (state (advance d (activateMagnet d w))) = false /\
    (0 <= ds < 500 -> pendingCount ClearShake w = 0%nat ->
       screenShake (state (advance ds (triggerScreenShake w))) = true /\
       screenShake (state (advance ds (endGame w))) = true) /\
    screenShake (state (advance 500 (triggerScreenShake w))) = false /\
    screenShake (state (advance 500 (endGame w))) = false.
Proof.
  intros w d dt ds.
  assert (Hkeep : forall cb ms t (w1 : Store),
            pending w1 = enqueue {| fireAt := clock w + Z.max 0 ms; callback := cb |}
                                 (pending w) ->
            clock w1 = clock w ->
            pendingCount cb w = 0%nat ->
            0 <= t < ms ->
            flagOf cb (state (advance t w1)) = flagOf cb (state w1) /\
            (cb = BoostExpire -> speed (state (advance t w1)) = speed (state w1))).
  { intros cb ms t w1 Hp Hc H0 Hms. unfold advance. simpl state.
    apply run_due_keeps_flag. rewrite Hp, Hc.
    apply enqueue_Forall.
    - simpl. intros _. lia.
    - eapply Forall_impl; [|apply pendingCount_zero; exact H0].
      simpl. intros x Hx E. contradiction. }
  assert (Hend : forall cb ms (w1 : Store),
            pending w1 = enqueue {| fireAt := clock w + Z.max 0 ms; callback := cb |}
                                 (pending w) ->
            clock w1 = clock w ->
            flagOf cb (state (advance ms w1)) = false).
  { intros cb ms w1 Hp Hc.
    set (tm := {| fireAt := clock w + Z.max 0 ms; callback := cb |}) in *.
    assert (Hq : lastDue tm (pending w1)) by (rewrite Hp; apply enqueue_lastDue).
    unfold advance. simpl state. rewrite Hc.
    destruct (run_due_at tm (pending w1) (state w1) Hq) as (s' & E & _).
    simpl fireAt in E. rewrite E. apply (fire_clears_flag cb). }
  split.
  { intros Hd Hb.
    destruct (Hkeep BoostExpire d dt (activateBoost d w) eq_refl eq_refl Hb Hd)
      as [B1 B2].
    split; [exact B1|exact (B2 eq_refl)]. }
  split; [exact (Hend BoostExpire d (activateBoost d w) eq_refl eq_refl)|].
  split.
  { intros Hd Hm.
    exact (proj1 (Hkeep MagnetExpire d dt (activateMagnet d w) eq_refl eq_refl Hm Hd)). }
  split; [exact (Hend MagnetExpire d (activateMagnet d w) eq_refl eq_refl)|].
  split.
  { intros H5 Hs. split.
    - exact (proj1 (Hkeep ClearShake 500 ds (triggerScreenShake w) eq_refl eq_refl Hs H5)).
    - exact (proj1 (Hkeep ClearShake 500 ds (endGame w) eq_refl eq_refl Hs H5)). }
  split; [exact (Hend ClearShake 500 (triggerScreenShake w) eq_refl eq_refl)|].
  exact (Hend ClearShake 500 (endGame w) eq_refl eq_refl).
Qed.

(** The theorem with a magnet and a shake of an earlier moment pending:
    3000 ms into a boost of 4000 ms, and 300 ms into a shake begun when
    the earlier one is over. *)
Lemma flag_lasts_when_no_other_timer_witness :
  let w := activateMagnet 8000 (triggerScreenShake (startGame (initialStore None))) in
  let v := advance 600 w in
  (pendingCount MagnetExpire w = 1%nat /\ pendingCount ClearShake w = 1%nat) /\
  (boostActive (state (advance 3000 (activateBoost 4000 w))) = true /\
   speed (state (advance 3000 (activateBoost 4000 w)))
     = Qmin (baseSpeed (state w) * 1.8) 0.6) /\
  boostActive (state (advance 4000 (activateBoost 4000 w))) = false /\
  magnetActive (state (advance 4000 (activateMagnet 4000 w))) = false /\
  (pendingCount MagnetExpire v = 1%nat /\
   screenShake (state (advance 300 (triggerScreenShake v))) = true /\
   screenShake (state (advance 300 (endGame v))) = true) /\
  screenShake (state (advance 500 (triggerScreenShake v))) = false /\
  screenShake (state (advance 500 (endGame v))) = false.
Proof.
  intros w v.
  destruct (flag_lasts_when_no_other_timer w 4000 3000 300)
    as (B & Bend & _ & Mend & _ & _ & _).
  destruct (flag_lasts_when_no_other_timer v 4000 3000 300)
    as (_ & _ & _ & _ & S & Send & Eend).
  split; [split; reflexivity|].
  split; [apply B; [lia|reflexivity]|].
  split; [exact Bend|].
  split; [exact Mend|].
  split; [split; [reflexivity|apply S; [lia|reflexivity]]|].
  split; [exact Send|exact Eend].
Defined.

End StorePending.

(** ** The store: invariants of every reachable state *)

Section StoreInvariants.

Import GameManager.

Lemma run_reachable (ops : list Op) :
  forall w, reachable w -> reachable (run ops w).
Proof.
  induction ops as [|o ops IH]; intros w H; simpl; [exact H|].
  apply IH. apply reachable_step. exact H.
Qed.

Lemma run_due_pending_sub (t : Z) (q : list Timer) :
  forall s x, In x (snd (run_due t q s)) -> In x q.
Proof.
  induction q as [|y q IH]; intros s x H; simpl in *; [exact H|].
  destruct (fireAt y <=? t); [right; exact (IH _ _ H)|exact H].
Qed.

Lemma run_due_count (f : Timer -> bool) (t : Z) (q : list Timer) :
  forall s, (length (filter f (snd (run_due t q s))) <= length (filter f q))%nat.
Proof.
  induction q as [|y q IH]; intros s; simpl; [lia|].
  destruct (fireAt y <=? t).
  - specialize (IH (fire (callback y) s)). destruct (f y); simpl; lia.
  - simpl. lia.
Qed.

Lemma fire_flag_le (cb cb' : Callback) (s : GameState) :
  flagOf cb (fire cb' s) = true -> flagOf cb s = true.
Proof. destruct cb, cb'; simpl; intros H; try exact H; discriminate H. Qed.

Lemma run_due_flag_le (cb : Callback) (t : Z) (q : list Timer) :
  forall s, flagOf cb (fst (run_due t q s)) = true -> flagOf cb s = true.
Proof.
  induction q as [|y q IH]; intros s H; simpl in H; [exact H|].
  destruct (fireAt y <=? t); [|exact H].
  apply (fire_flag_le cb (callback y)). apply IH. exact H.
Qed.

(** The passing of time alone: the clock moves on; status, score,
    baseSpeed, highScore, the player fields and the stored high score stay;
    no flag goes from false to true; no timer is added. *)
Theorem advance_only_clears :
  forall (w : Store) (ms : Z) (cb : Callback),
    clock (advance ms w) = clock w + Z.max 0 ms /\
    status (state (advance ms w)) = status (state w) /\
    score (state (advance ms w)) = score (state w) /\
    baseSpeed (state (advance ms w)) = baseSpeed (state w) /\
    highScore (state (advance ms w)) = highScore (state w) /\
    playerLane (state (advance ms w)) = playerLane (state w) /\
    isJumping (state (advance ms w)) = isJumping (state w) /\
    localHighScore (advance ms w) = localHighScore w /\
    (flagOf cb (state w) = false -> flagOf cb (state (advance ms w)) = false) /\
    (pendingCount cb (advance ms w) <= pendingCount cb w)%nat /\
    (forall x, In x (pending (advance ms w)) -> In x (pending w)).
Proof.
  intros w ms cb.
  destruct (run_due_frame (clock w + Z.max 0 ms) (pending w) (state w))
    as (H1 & H2 & H3 & H4 & H5 & H6).
  unfold advance. simpl.
  split; [reflexivity|].
  split; [exact H1|]. split; [exact H2|]. split; [exact H3|].
  split; [exact H4|]. split; [exact H5|]. split; [exact H6|].
  split; [reflexivity|].
  split; [apply run_due_keeps_cleared|].
  split; [apply run_due_count|].
  intros x. apply run_due_pending_sub.
Qed.

Lemma advance_only_clears_witness :
  let w := activateMagnet 8000 (startGame (initialStore None)) in
  clock (advance 9000 w) = clock w + Z.max 0 9000 /\
  status (state (advance 9000 w)) = status (state w) /\
  score (state (advance 9000 w)) = score (state w) /\
  baseSpeed (state (advance 9000 w)) = baseSpeed (state w) /\
  highScore (state (advance 9000 w)) = highScore (state w) /\
  playerLane (state (advance 9000 w)) = playerLane (state w) /\
  isJumping (state (advance 9000 w)) = isJumping (state w) /\
  localHighScore (advance 9000 w) = localHighScore w /\
  (flagOf BoostExpire (state w) = false ->
   flagOf BoostExpire (state (advance 9000 w)) = false) /\
  (pendingCount BoostExpire (advance 9000 w) <= pendingCount BoostExpire w)%nat /\
  (forall x, In x (pending (advance 9000 w)) -> In x (pending w)).
Proof.
  intro w. apply (advance_only_clears w 9000 BoostExpire).
Defined.

(** *** The queue *)

Lemma enqueue_notOverdue (t : Z) (tm : Timer) (q : list Timer) :
  t <= fireAt tm -> notOverdue t q -> notOverdue t (enqueue tm q).
Proof. intros H Hq. apply enqueue_Forall; assumption. Qed.

(** What is left of an ordered queue is due after [t]. *)
Lemma run_due_rest_later (t : Z) (q : list Timer) :
  forall s, ordered q ->
    Forall (fun x => t < fireAt x) (snd (run_due t q s)).
Proof.
  induction q as [|y q IH]; intros s Ho; simpl; [constructor|].
  destruct Ho as [Hy Ho].
  destruct (Z.leb_spec (fireAt y) t) as [Hdue|Hnot].
  - apply IH. exact Ho.
  - constructor; [exact Hnot|].
    eapply Forall_impl; [|exact Hy]. simpl. intros x Hx. lia.
Qed.

Lemma step_notOverdue (o : Op) (w : Store) :
  ordered (pending w) -> notOverdue (clock w) (pending w) ->
  notOverdue (clock (step o w)) (pending (step o w)).
Proof.
  intros Ho H.
  destruct o; simpl; try exact H;
    try (apply enqueue_notOverdue; [simpl; lia|exact H]).
  eapply Forall_impl; [|apply run_due_rest_later; exact Ho].
  simpl. intros x Hx. lia.
Qed.

Lemma reachable_notOverdue (w : Store) :
  reachable w -> notOverdue (clock w) (pending w).
Proof.
  induction 1 as [stored|o w Hw IH].
  - constructor.
  - apply step_notOverdue; [apply reachable_ordered; exact Hw|exact IH].
Qed.

(** In every reachable store the pending timers are in the order of their
    due times and none is overdue; after time has passed, every timer left
    is due strictly later than the clock: no due timer is skipped. *)
Theorem timers_ordered_and_none_overdue :
  forall (w : Store) (ms : Z),
    reachable w ->
    ordered (pending w) /\
    Forall (fun x => clock w <= fireAt x) (pending w) /\
    Forall (fun x => clock (advance ms w) < fireAt x) (pending (advance ms w)).
Proof.
  intros w ms Hw.
  split; [apply reachable_ordered; exact Hw|].
  split; [apply reachable_notOverdue; exact Hw|].
  unfold advance. simpl.
  apply run_due_rest_later. apply reachable_ordered. exact Hw.
Qed.

Lemma timers_ordered_and_none_overdue_witness :
  let w := run [OStartGame; OActivateMagnet 8000; OAdvance 1000;
                OActivateBoost 4000; OTriggerScreenShake] (initialStore None) in
  ordered (pending w) /\
  Forall (fun x => clock w <= fireAt x) (pending w) /\
  Forall (fun x => clock (advance 4000 w) < fireAt x) (pending (advance 4000 w)).
Proof.
  intro w.
  apply (timers_ordered_and_none_overdue w 4000).
  apply run_reachable. apply reachable_init.
Defined.

(** *** The high score *)

Lemma step_highScore (o : Op) (w : Store) :
  highScore (state w) = storedHighScore w ->
  highScore (state (step o w)) = storedHighScore (step o w) /\
  highScore (state w) <= highScore (state (step o w)).
Proof.
  intros H.
  destruct o; simpl; unfold storedHighScore in *; simpl;
    try (split; [exact H|lia]).
  - split; [reflexivity|lia].
  - destruct (run_due_frame (clock w + Z.max 0 ms) (pending w) (state w))
      as (_ & _ & _ & H4 & _).
    rewrite H4. split; [exact H|lia].
Qed.

Lemma reachable_highScore (w : Store) :
  reachable w -> highScore (state w) = storedHighScore w.
Proof.
  induction 1 as [stored|o w Hw IH].
  - reflexivity.
  - apply step_highScore. exact IH.
Qed.

(** *** The entry of localStorage as a text *)

Import Ascii String.

Lemma littleValue_double (d : Decimal.uint) :
  littleValue (Decimal.Little.double d) = 2 * littleValue d /\
  littleValue (Decimal.Little.succ_double d) = 2 * littleValue d + 1.
Proof.
  induction d as [|d [IH1 IH2]|d [IH1 IH2]|d [IH1 IH2]|d [IH1 IH2]|d [IH1 IH2]
                  |d [IH1 IH2]|d [IH1 IH2]|d [IH1 IH2]|d [IH1 IH2]|d [IH1 IH2]];
    simpl Decimal.Little.double; simpl Decimal.Little.succ_double;
    cbn [littleValue]; lia.
Qed.

Lemma littleValue_pos (p : positive) :
  littleValue (Pos.to_little_uint p) = Zpos p.
Proof.
  induction p as [p IH|p IH|]; simpl Pos.to_little_uint.
  - rewrite (proj2 (littleValue_double _)), IH. lia.
  - rewrite (proj1 (littleValue_double _)), IH. lia.
  - reflexivity.
Qed.

Lemma bigValue_revapp (d : Decimal.uint) :
  forall d', bigValue 0 (Decimal.revapp d d') = bigValue (littleValue d) d'.
Proof.
  induction d; intros d'; simpl Decimal.revapp; [reflexivity|..];
    rewrite IHd; cbn [bigValue littleValue]; f_equal; lia.
Qed.

Lemma bigValue_pos (p : positive) : bigValue 0 (Pos.to_uint p) = Zpos p.
Proof.
  unfold Pos.to_uint, Decimal.rev. rewrite bigValue_revapp, littleValue_pos.
  reflexivity.
Qed.

Ltac digit_of_numeral :=
  cbn [DecimalString.NilEmpty.string_of_uint digitsValue bigValue];
  (change (digitOf 10 _) with (Some 0) || change (digitOf 10 _) with (Some 1)
   || change (digitOf 10 _) with (Some 2) || change (digitOf 10 _) with (Some 3)
   || change (digitOf 10 _) with (Some 4) || change (digitOf 10 _) with (Some 5)
   || change (digitOf 10 _) with (Some 6) || change (digitOf 10 _) with (Some 7)
   || change (digitOf 10 _) with (Some 8) || change (digitOf 10 _) with (Some 9));
  cbv iota beta.

Lemma digitsValue_numeral (d : Decimal.uint) :
  forall acc,
    digitsValue 10 (Some acc) (DecimalString.NilEmpty.string_of_uint d)
      = Some (bigValue acc d).
Proof.
  induction d; intros acc; [reflexivity|..]; digit_of_numeral; apply IHd.
Qed.

(** A numeral has no white space, no sign and no prefix 0x. *)
Lemma numeral_plain (d : Decimal.uint) :
  let s := DecimalString.NilEmpty.string_of_uint d in
  trimStart s = s /\ signOf s = (false, s) /\ radixOf s = (10, s).
Proof.
  destruct d as [|l|l|l|l|l|l|l|l|l|l]; try (repeat split; reflexivity).
  destruct l; repeat split; reflexivity.
Qed.

(** parseInt reads a numeral with a digit whole, as its value. *)
Lemma parseInt_numeral (d : Decimal.uint) :
  d <> Decimal.Nil ->
  parseInt (DecimalString.NilEmpty.string_of_uint d) = Some (bigValue 0 d) /\
  parseInt (String.String "-" (DecimalString.NilEmpty.string_of_uint d))
    = Some (- bigValue 0 d).
Proof.
  intros Hd.
  assert (Hv : digitsValue 10 None (DecimalString.NilEmpty.string_of_uint d)
               = Some (bigValue 0 d)).
  { destruct d; [contradiction|..]; digit_of_numeral; apply digitsValue_numeral. }
  destruct (numeral_plain d) as (H1 & H2 & H3).
  split.
  - unfold parseInt. rewrite H1, H2. cbv iota beta. rewrite H3. cbv iota beta.
    rewrite Hv. reflexivity.
  - unfold parseInt.
    change (trimStart (String.String "-" ?s)) with (String.String "-" s).
    change (signOf (String.String "-" ?s)) with (true, s).
    cbv iota beta. rewrite H3. cbv iota beta. rewrite Hv. reflexivity.
Qed.

Lemma to_uint_digit (p : positive) : Pos.to_uint p <> Decimal.Nil.
Proof.
  intro H. pose proof (bigValue_pos p) as E. rewrite H in E. discriminate E.
Qed.

(** parseInt(String(n)) is n. *)
Lemma parseInt_numberToString (n : Z) : parseInt (numberToString n) = Some n.
Proof.
  destruct n as [|p|p]; [reflexivity|..]; unfold numberToString.
  - rewrite (proj1 (parseInt_numeral _ (to_uint_digit p))), bigValue_pos.
    reflexivity.
  - rewrite (proj2 (parseInt_numeral _ (to_uint_digit p))), bigValue_pos.
    reflexivity.
Qed.

Lemma numberToString_not_empty (n : Z) :
  exists c s, numberToString n = String.String c s.
Proof.
  destruct n as [|p|p]; simpl; [eexists; eexists; reflexivity| |
                                 eexists; eexists; reflexivity].
  pose proof (to_uint_digit p) as H.
  destruct (Pos.to_uint p); [contradiction|..]; eexists; eexists; reflexivity.
Qed.

Lemma loadHighScore_entryText (w : Store) :
  loadHighScore (entryText w) = Some (storedHighScore w).
Proof.
  unfold entryText, storedHighScore.
  destruct (localHighScore w) as [h|]; [|reflexivity].
  simpl option_map. unfold loadHighScore.
  destruct (numberToString_not_empty h) as (c & s & E). rewrite E, <- E.
  apply parseInt_numberToString.
Qed.

(** The high score and the entry 'hamsterHighScore' of localStorage, for an
    entry that at the load of the page is absent or holds the decimal
    numeral of an integer, and that is afterwards what endGame() writes
    with String(newHighScore).  As long as the high score is a safe
    integer, a load that reads the text of the entry with
    parseInt(getItem(...) || '0') gets the high score in memory, at every
    moment and in particular after endGame().  No operation lowers the
    high score, and after endGame() it is the larger of the score of the
    run and the high score before.  An entry of another text, which
    parseInt may read as NaN, is outside the statement. *)
Theorem highScore_persisted_and_monotone :
  forall (w : Store) (o : Op),
    reachable w ->
    highScore (state w) = storedHighScore w /\
    (Z.abs (highScore (state w)) <= MAX_SAFE_INTEGER ->
       loadHighScore (entryText w) = Some (highScore (state w))) /\
    entryText (endGame w)
      = Some (numberToString (Z.max (score (state w)) (highScore (state w)))) /\
    (Z.abs (highScore (state (endGame w))) <= MAX_SAFE_INTEGER ->
       loadHighScore (entryText (endGame w))
         = Some (Z.max (score (state w)) (highScore (state w)))) /\
    highScore (state w) <= highScore (state (step o w)) /\
    score (state w) <= highScore (state (endGame w)) /\
    highScore (state (endGame w)) = Z.max (score (state w)) (highScore (state w)).
Proof.
  intros w o Hw.
  pose proof (reachable_highScore w Hw) as H.
  split; [exact H|].
  split; [intros _; rewrite H; apply loadHighScore_entryText|].
  split; [reflexivity|].
  split; [intros _; rewrite loadHighScore_entryText; reflexivity|].
  split; [apply step_highScore; exact H|].
  split; [simpl; lia|reflexivity].
Qed.

(** The theorem after a first run of 5 points over a stored high score of
    4, in a second run of 3 points. *)
Lemma highScore_persisted_and_monotone_witness :
  let w := run [OStartGame; OIncrementScore 5; OEndGame; ORestartGame;
                OIncrementScore 3] (initialStore (Some 4)) in
  highScore (state w) = storedHighScore w /\
  loadHighScore (entryText w) = Some (highScore (state w)) /\
  entryText (endGame w)
    = Some (numberToString (Z.max (score (state w)) (highScore (state w)))) /\
  loadHighScore (entryText (endGame w))
    = Some (Z.max (score (state w)) (highScore (state w))) /\
  highScore (state w) <= highScore (state (step OEndGame w)) /\
  score (state w) <= highScore (state (endGame w)) /\
  highScore (state (endGame w)) = Z.max (score (state w)) (highScore (state w)).
Proof.
  intro w.
  destruct (highScore_persisted_and_monotone w OEndGame)
    as (H1 & H2 & H3 & H4 & H5 & H6 & H7).
  - apply run_reachable. apply reachable_init.
  - split; [exact H1|].
    split; [apply H2; vm_compute; discriminate|].
    split; [exact H3|].
    split; [apply H4; vm_compute; discriminate|].
    split; [exact H5|]. split; [exact H6|exact H7].
Defined.

(** What a load reads from some texts of the entry: an absent or empty
    entry, numerals, a numeral followed by other text, a text with no
    digit in front (NaN), a hexadecimal numeral and an exponent. *)
Example loadHighScore_of_texts :
  map loadHighScore
      [None; Some ""; Some "42"; Some "-7"; Some "  12px"; Some "abc";
       Some "NaN"; Some "0x1F"; Some "1e+21"]%string
    = [Some 0; Some 0; Some 42; Some (-7); Some 12; None; None; Some 31;
       Some 1].
Proof. reflexivity. Qed.

End StoreInvariants.

(** ** The store: the range of the speed *)

Section StoreSpeedRange.

Import GameManager.

Lemma effectiveSpeed_range (s : GameState) :
  (0.12 <= baseSpeed s)%Q -> (baseSpeed s <= 0.4)%Q ->
  (0.12 <= spec_effectiveSpeed s)%Q /\ (spec_effectiveSpeed s <= 0.6)%Q /\
  (baseSpeed s <= spec_effectiveSpeed s)%Q.
Proof.
  intros Hlo Hhi. unfold spec_effectiveSpeed.
  destruct (boostActive s).
  - split; [apply Q.min_glb; lra|]. split; [apply Q.le_min_r|].
    apply Q.min_glb; lra.
  - repeat split; lra.
Qed.

Lemma step_speedInRange (o : Op) (w : Store) :
  baseInRange w -> speedInRange (state w) -> speedInRange (state (step o w)).
Proof.
  intros [Hlo Hhi] Hs.
  destruct o; simpl step; try exact Hs.
  - right. simpl. split; lra.
  - left. simpl. split; reflexivity.
  - right. simpl. split; lra.
  - right. simpl.
    destruct (effectiveSpeed_range (state w) Hlo Hhi) as (A & B & _).
    unfold spec_effectiveSpeed in A, B.
    destruct (boostActive (state w)).
    + split; [apply Q.min_glb; lra|apply Q.le_min_r].
    + split; [apply Q.min_glb; lra|apply Q.le_min_r].
  - right. simpl. split; [apply Q.min_glb; lra|apply Q.le_min_r].
  - destruct (advance_speed ms w) as [(E1 & E2 & E3)|Hd].
    + unfold speedInRange. rewrite advance_status, E1. exact Hs.
    + right. unfold speedDerived in Hd.
      assert (Hb : baseInRange (advance ms w))
        by (apply (step_baseInRange (OAdvance ms)); split; assumption).
      destruct Hb as [Hlo' Hhi'].
      destruct (effectiveSpeed_range (state (advance ms w)) Hlo' Hhi') as (A & B & _).
      rewrite Hd. split; assumption.
Qed.

Lemma reachable_speedInRange (w : Store) :
  reachable w -> speedInRange (state w).
Proof.
  induction 1 as [stored|o w Hw IH].
  - right. simpl. split; lra.
  - apply step_speedInRange; [apply reachable_baseInRange; exact Hw|exact IH].
Qed.

Lemma reachable_speed_bounds (w : Store) :
  reachable w ->
  (0 <= speed (state w))%Q /\ (speed (state w) <= 0.6)%Q /\
  (status (state w) <> GameOver -> (0.12 <= speed (state w))%Q).
Proof.
  intros Hw.
  destruct (reachable_speedInRange w Hw) as [[Hg Hz]|[A B]].
  - repeat split; try lra. congruence.
  - repeat split; try lra.
Qed.

(** In every reachable store speed is never negative and never above 0.6:
    it is the 0 that endGame() left in GameOver, or it lies between 0.12 and
    0.6.  So speed is at least 0.12 whenever the status is not GameOver, and
    baseSpeed lies between 0.12 and 0.4 throughout. *)
Theorem speed_in_range :
  forall (w : Store),
    reachable w ->
    (0 <= speed (state w))%Q /\
    (speed (state w) <= 0.6)%Q /\
    (status (state w) <> GameOver -> (0.12 <= speed (state w))%Q) /\
    (speed (state w) < 0.12 -> status (state w) = GameOver /\ speed (state w) == 0)%Q /\
    (0.12 <= baseSpeed (state w))%Q /\
    (baseSpeed (state w) <= 0.4)%Q.
Proof.
  intros w Hw.
  destruct (reachable_baseInRange w Hw) as [Hlo Hhi].
  destruct (reachable_speedInRange w Hw) as [[Hg Hz]|[A B]].
  - repeat split; try lra; try assumption. congruence.
  - repeat split; try lra; try assumption.
Qed.

Lemma speed_in_range_witness :
  let w := run [OStartGame; OActivateBoost 4000; OIncreaseSpeed; OAdvance 5000;
                OEndGame] (initialStore None) in
  (0 <= speed (state w))%Q /\
  (speed (state w) <= 0.6)%Q /\
  (status (state w) <> GameOver -> (0.12 <= speed (state w))%Q) /\
  (speed (state w) < 0.12 -> status (state w) = GameOver /\ speed (state w) == 0)%Q /\
  (0.12 <= baseSpeed (state w))%Q /\
  (baseSpeed (state w) <= 0.4)%Q.
Proof.
  intro w. apply (speed_in_range w).
  apply run_reachable. apply reachable_init.
Defined.

(** increaseSpeed() in a reachable store leaves in speed the effective
    speed of the state before the call: the speed runs one step behind the
    base speed it stores, never ahead of it and by at most 0.0054; it is
    the derived one when baseSpeed had reached 0.4 already. *)
Theorem increaseSpeed_one_step_behind :
  forall (w : Store),
    reachable w ->
    let w' := increaseSpeed w in
    (speed (state w') == spec_effectiveSpeed (state w))%Q /\
    (speed (state w') <= spec_effectiveSpeed (state w'))%Q /\
    (spec_effectiveSpeed (state w') - speed (state w') <= 0.0054)%Q /\
    (baseSpeed (state w) == 0.4 -> speedDerived (state w'))%Q /\
    (baseSpeed (state w) < 0.4 -> boostActive (state w) = false ->
     speed (state w') < baseSpeed (state w'))%Q.
Proof.
  intros w Hw w'.
  destruct (reachable_baseInRange w Hw) as [Hlo Hhi].
  assert (Hsp : (speed (state w') == spec_effectiveSpeed (state w))%Q)
    by (apply increaseSpeed_speed; exact Hhi).
  assert (Hb : baseSpeed (state w') = nextBase (baseSpeed (state w))) by reflexivity.
  destruct (nextBase_bounds _ Hlo Hhi) as (N1 & N2 & N3).
  assert (Hn : (nextBase (baseSpeed (state w)) <= baseSpeed (state w) + 0.003)%Q)
    by (unfold nextBase; apply Q.le_min_l).
  unfold speedDerived. rewrite Hsp.
  unfold spec_effectiveSpeed.
  change (boostActive (state w')) with (boostActive (state w)).
  rewrite Hb.
  set (b := baseSpeed (state w)) in *. set (b' := nextBase b) in *.
  destruct (boostActive (state w)).
  - destruct (Q.min_spec (b * 1.8) 0.6) as [[L1 E1]|[L1 E1]];
    destruct (Q.min_spec (b' * 1.8) 0.6) as [[L2 E2]|[L2 E2]];
      rewrite E1, E2;
      (split; [reflexivity|]); (split; [lra|]); (split; [lra|]);
      (split; [intro Hcap; try lra|intros _ Hf; discriminate Hf]).
  - split; [reflexivity|]. split; [lra|]. split; [lra|].
    split; [intro Hcap; lra|].
    intros Hlt _. unfold b', nextBase.
    destruct (Q.min_spec (b + 0.003) 0.4) as [[L E]|[L E]]; rewrite E; lra.
Qed.

Lemma increaseSpeed_one_step_behind_witness :
  let w := activateBoost 4000 (startGame (initialStore None)) in
  let w' := increaseSpeed w in
  (speed (state w') == spec_effectiveSpeed (state w))%Q /\
  (speed (state w') <= spec_effectiveSpeed (state w'))%Q /\
  (spec_effectiveSpeed (state w') - speed (state w') <= 0.0054)%Q /\
  (baseSpeed (state w) == 0.4 -> speedDerived (state w'))%Q /\
  (baseSpeed (state w) < 0.4 -> boostActive (state w) = false ->
   speed (state w') < baseSpeed (state w'))%Q.
Proof.
  intro w. apply (increaseSpeed_one_step_behind w).
  apply (reachable_step (OActivateBoost 4000)).
  apply (reachable_step OStartGame). apply reachable_init.
Defined.

End StoreSpeedRange.

(** ** The player: the arc, the lanes and the inputs *)

Section PlayerExtras.

Import Player.

Lemma height_formula (t : Q) :
  (t < JUMP_DURATION)%Q ->
  (height t == 4 * JUMP_HEIGHT * (t / JUMP_DURATION) * (1 - t / JUMP_DURATION))%Q.
Proof.
  intros Ht. apply Qltb_lt in Ht.
  unfold height, jumpArc. rewrite Ht. simpl. reflexivity.
Qed.

Lemma height_after (t : Q) : (JUMP_DURATION <= t)%Q -> height t = 0%Q.
Proof.
  intros Ht. apply Qltb_ge in Ht.
  unfold height, jumpArc. rewrite Ht. reflexivity.
Qed.

Lemma progress_eq (t : Q) : (t / JUMP_DURATION == t * (100 # 45))%Q.
Proof. unfold JUMP_DURATION. field. Qed.

Lemma Qsquare_nonneg (x : Q) : (0 <= x * x)%Q.
Proof.
  destruct (Qlt_le_dec x 0) as [H|H].
  - setoid_replace (x * x)%Q with ((- x) * (- x))%Q by ring.
    apply Qmult_le_0_compat; lra.
  - apply Qmult_le_0_compat; lra.
Qed.

Lemma parabola_bounds (p : Q) :
  (0 <= p)%Q -> (p < 1)%Q ->
  (0 <= 4 * 2 * p * (1 - p))%Q /\ (4 * 2 * p * (1 - p) <= 2)%Q /\
  (0 < p -> 0 < 4 * 2 * p * (1 - p))%Q.
Proof.
  intros H0 H1.
  assert (A : (0 <= p * (1 - p))%Q) by (apply Qmult_le_0_compat; lra).
  pose proof (Qsquare_nonneg (2 * p - 1)) as B.
  split; [lra|]. split; [lra|].
  intros Hp.
  assert ((0 < p * (1 - p))%Q) by (apply Qmult_lt_0_compat; lra). lra.
Qed.

Lemma height_bounds (t : Q) :
  (0 <= t)%Q -> (0 <= height t)%Q /\ (height t <= JUMP_HEIGHT)%Q.
Proof.
  intros H0.
  destruct (Qlt_le_dec t JUMP_DURATION) as [Hlt|Hge].
  - pose proof (height_formula t Hlt) as E. rewrite progress_eq in E.
    unfold JUMP_DURATION in Hlt. unfold JUMP_HEIGHT in *.
    assert (Hp0 : (0 <= t * (100 # 45))%Q) by lra.
    assert (Hp1 : (t * (100 # 45) < 1)%Q) by lra.
    destruct (parabola_bounds _ Hp0 Hp1) as (P1 & P2 & _).
    rewrite E. split; assumption.
  - rewrite (height_after t Hge). unfold JUMP_HEIGHT. split; lra.
Qed.

(** The arc of the jump never goes below the ground nor above JUMP_HEIGHT;
    it is above the ground strictly inside the jump, it is the same at [t]
    and at [D - t], and it is at JUMP_HEIGHT at the middle of the jump
    only. *)
Theorem jump_arc_bounds_and_symmetry :
  forall (t : Q),
    (0 <= t)%Q ->
    (0 <= height t)%Q /\
    (height t <= JUMP_HEIGHT)%Q /\
    (0 < t -> t < JUMP_DURATION -> 0 < height t)%Q /\
    (0 < t -> t < JUMP_DURATION -> height (JUMP_DURATION - t) == height t)%Q /\
    (height t == JUMP_HEIGHT -> t == JUMP_DURATION / 2)%Q.
Proof.
  intros t H0.
  destruct (Qlt_le_dec t JUMP_DURATION) as [Hlt|Hge].
  - pose proof (height_formula t Hlt) as E.
    rewrite progress_eq in E.
    unfold JUMP_HEIGHT in *. unfold JUMP_DURATION in Hlt.
    assert (Hsym : (0 < t -> t < JUMP_DURATION ->
                    height (JUMP_DURATION - t) == height t)%Q).
    { intros Hpos _.
      assert (Hlt' : (JUMP_DURATION - t < JUMP_DURATION)%Q)
        by (unfold JUMP_DURATION; lra).
      rewrite (height_formula _ Hlt'), E, progress_eq.
      unfold JUMP_DURATION, JUMP_HEIGHT. field. }
    assert (Hp : exists p, (p == t * (100 # 45) /\ 0 <= p /\ p < 1)%Q).
    { exists (t * (100 # 45))%Q. split; [reflexivity|]. split; lra. }
    destruct Hp as (p & Hpt & Hp0 & Hp1).
    rewrite <- Hpt in E. clear Hlt.
    destruct (parabola_bounds p Hp0 Hp1) as (P1 & P2 & P3).
    split; [rewrite E; exact P1|].
    split; [rewrite E; exact P2|].
    split.
    { intros Hpos _. rewrite E. apply P3. lra. }
    split; [exact Hsym|].
    intros Hmax. rewrite E in Hmax.
    assert (Hsq : ((2 * p - 1) * (2 * p - 1) == 0)%Q) by lra.
    apply Qmult_integral in Hsq.
    assert (Hh : (JUMP_DURATION / 2 == 0.225)%Q) by reflexivity.
    rewrite Hh. destruct Hsq; lra.
  - rewrite (height_after t Hge). unfold JUMP_HEIGHT.
    split; [lra|]. split; [lra|].
    split; [intros _ Hlt; lra|].
    split; [intros _ Hlt; lra|].
    intros Habs. lra.
Qed.

Lemma jump_arc_bounds_and_symmetry_witness :
  (0 <= height 0.3)%Q /\
  (height 0.3 <= JUMP_HEIGHT)%Q /\
  (0 < 0.3 -> 0.3 < JUMP_DURATION -> 0 < height 0.3)%Q /\
  (0 < 0.3 -> 0.3 < JUMP_DURATION -> height (JUMP_DURATION - 0.3) == height 0.3)%Q /\
  (height 0.3 == JUMP_HEIGHT -> 0.3 == JUMP_DURATION / 2)%Q.
Proof.
  apply (jump_arc_bounds_and_symmetry 0.3). discriminate.
Defined.

Lemma elapsed_lt (now t : Z) :
  (inject_Z (t - now) / 1000 < JUMP_DURATION)%Q <-> t < now + 450.
Proof.
  unfold JUMP_DURATION, Qdiv, Qlt, Qmult, Qinv, inject_Z. simpl. lia.
Qed.

(** The course of a jump.  jump() while Playing and on the ground sets
    isJumping and records the time; every frame less than 450 ms later
    keeps isJumping and puts the player between the ground and JUMP_HEIGHT;
    the first frame 450 ms later or more puts the player on the ground and
    clears isJumping, and from then on jump() is taken again.  The lane is
    not touched. *)
Theorem jump_lifecycle :
  forall (p : PlayerState) (st : GameManager.Status) (now t t' : Z) (bob : Q),
    isJumping p = false ->
    now <= t < now + 450 ->
    now + 450 <= t' ->
    let p1 := fst (jump GameManager.Playing now p) in
    let p2 := frame st t bob p1 in
    let p3 := frame st t' bob p2 in
    isJumping p1 = true /\ jumpStartTime p1 = now /\
    isJumping p2 = true /\ jumpStartTime p2 = now /\
    (0 <= positionY p2)%Q /\ (positionY p2 <= JUMP_HEIGHT)%Q /\
    isJumping p3 = false /\ positionY p3 = 0%Q /\
    isJumping (fst (jump GameManager.Playing t' p3)) = true /\
    jumpStartTime (fst (jump GameManager.Playing t' p3)) = t' /\
    laneIndex p1 = laneIndex p /\ laneIndex p2 = laneIndex p /\
    laneIndex p3 = laneIndex p.
Proof.
  intros p st now t t' bob Hj Ht Ht' p1 p2 p3.
  assert (E1 : p1 = {| laneIndex := laneIndex p; isJumping := true;
                       jumpStartTime := now; positionY := positionY p |}).
  { unfold p1, jump. rewrite Hj. reflexivity. }
  assert (Hin : (inject_Z (t - now) / 1000 < JUMP_DURATION)%Q)
    by (apply elapsed_lt; lia).
  assert (Hout : (JUMP_DURATION <= inject_Z (t' - now) / 1000)%Q).
  { apply Qnot_lt_le. intro H. apply elapsed_lt in H. lia. }
  assert (Hpos : (0 <= inject_Z (t - now) / 1000)%Q).
  { unfold Qdiv, Qle, Qmult, Qinv, inject_Z. simpl. lia. }
  assert (E2 : p2 = {| laneIndex := laneIndex p; isJumping := true;
                       jumpStartTime := now;
                       positionY := height (inject_Z (t - now) / 1000) |}).
  { unfold p2. rewrite E1. unfold frame, height. simpl.
    unfold jumpArc. apply Qltb_lt in Hin. rewrite Hin. reflexivity. }
  assert (E3 : p3 = {| laneIndex := laneIndex p; isJumping := false;
                       jumpStartTime := now; positionY := 0 |}).
  { unfold p3. rewrite E2. unfold frame. simpl.
    unfold jumpArc. apply Qltb_ge in Hout. rewrite Hout. reflexivity. }
  destruct (height_bounds _ Hpos) as (B1 & B2).
  rewrite E3, E2, E1. simpl.
  repeat split; try reflexivity; assumption.
Qed.

Lemma jump_lifecycle_witness :
  let p := initialPlayer in
  let p1 := fst (jump GameManager.Playing 1000 p) in
  let p2 := frame GameManager.Playing 1200 0 p1 in
  let p3 := frame GameManager.Playing 1450 0 p2 in
  isJumping p1 = true /\ jumpStartTime p1 = 1000 /\
  isJumping p2 = true /\ jumpStartTime p2 = 1000 /\
  (0 <= positionY p2)%Q /\ (positionY p2 <= JUMP_HEIGHT)%Q /\
  isJumping p3 = false /\ positionY p3 = 0%Q /\
  isJumping (fst (jump GameManager.Playing 1450 p3)) = true /\
  jumpStartTime (fst (jump GameManager.Playing 1450 p3)) = 1450 /\
  laneIndex p1 = laneIndex p /\ laneIndex p2 = laneIndex p /\
  laneIndex p3 = laneIndex p.
Proof.
  intro p.
  apply (jump_lifecycle p GameManager.Playing 1000 1200 1450 0).
  - reflexivity.
  - lia.
  - lia.
Defined.

(** Two moves in opposite directions bring the player back except at the
    border that clamped the first one; two moves in the same direction
    reach the border lane from every lane. *)
Theorem lane_moves_compose :
  forall (p : PlayerState),
    0 <= laneIndex p <= 2 ->
    let L := moveLeft GameManager.Playing in
    let R := moveRight GameManager.Playing in
    laneIndex (R (L p)) = Z.max 1 (laneIndex p) /\
    laneIndex (L (R p)) = Z.min 1 (laneIndex p) /\
    (1 <= laneIndex p -> R (L p) = p) /\
    (laneIndex p <= 1 -> L (R p) = p) /\
    laneIndex (L (L p)) = 0 /\
    laneIndex (R (R p)) = 2.
Proof.
  intros p H L R. unfold L, R, moveLeft, moveRight. simpl.
  destruct p as [l j s y]. simpl in *.
  repeat split; try lia; intros Hl; f_equal; lia.
Qed.

Lemma lane_moves_compose_witness :
  let p := initialPlayer in
  let L := moveLeft GameManager.Playing in
  let R := moveRight GameManager.Playing in
  laneIndex (R (L p)) = Z.max 1 (laneIndex p) /\
  laneIndex (L (R p)) = Z.min 1 (laneIndex p) /\
  (1 <= laneIndex p -> R (L p) = p) /\
  (laneIndex p <= 1 -> L (R p) = p) /\
  laneIndex (L (L p)) = 0 /\
  laneIndex (R (R p)) = 2.
Proof.
  intro p. apply (lane_moves_compose p). simpl. lia.
Defined.

End PlayerExtras.

(** ** The player: the lane transition and the input handlers *)

Section PlayerInputs.

Import Player.

Lemma smoothX_gap (targetX x : Q) :
  (targetX - smoothX targetX x == 0.85 * (targetX - x))%Q.
Proof. unfold smoothX. ring. Qed.

Lemma smoothFrames_gap (n : nat) (targetX x : Q) :
  (targetX - smoothFrames n targetX x == 0.85 ^ Z.of_nat n * (targetX - x))%Q.
Proof.
  induction n as [|n IH].
  - simpl. ring.
  - change (smoothFrames (S n) targetX x)
      with (smoothX targetX (smoothFrames n targetX x)).
    rewrite smoothX_gap, IH.
    rewrite Nat2Z.inj_succ, <- Z.add_1_r.
    rewrite Qpower_plus by discriminate.
    change (0.85 ^ 1)%Q with 0.85%Q. ring.
Qed.

Lemma smoothFrames_within (n : nat) (targetX x lo hi : Q) :
  (lo <= targetX)%Q -> (targetX <= hi)%Q -> (lo <= x)%Q -> (x <= hi)%Q ->
  (lo <= smoothFrames n targetX x)%Q /\ (smoothFrames n targetX x <= hi)%Q.
Proof.
  intros H1 H2 H3 H4. induction n as [|n [IH1 IH2]].
  - simpl. split; assumption.
  - change (smoothFrames (S n) targetX x)
      with (smoothX targetX (smoothFrames n targetX x)).
    unfold smoothX. split; lra.
Qed.

Lemma laneX_valid (lane : Z) :
  0 <= lane <= 2 ->
  exists t, laneX lane = Some t /\ (t == -1.8 \/ t == 0 \/ t == 1.8)%Q /\
            (t == inject_Z (lane - 1) * 1.8)%Q.
Proof.
  intros H.
  assert (E : lane = 0 \/ lane = 1 \/ lane = 2) by lia.
  destruct E as [E|[E|E]]; subst lane; eexists; (split; [reflexivity|]);
    split; try reflexivity; auto using Qeq_refl.
Qed.

(** Whatever the player has done, LANES[laneIndex] is defined and is
    (laneIndex - 1) * 1.8.  Each frame of the lane transition takes off 15%
    of the distance to that target, so that after [n] frames 0.85^n of it is
    left; the position stays between where it was and the target, hence on
    the road between -1.8 and 1.8; outside {0, 1, 2} there is no target. *)
Theorem lane_transition_contracts :
  forall (l : list Action) (x : Q) (n : nat),
    (-1.8 <= x)%Q -> (x <= 1.8)%Q ->
    exists targetX,
      laneX (laneIndex (acts l initialPlayer)) = Some targetX /\
      (targetX == inject_Z (laneIndex (acts l initialPlayer) - 1) * 1.8)%Q /\
      (targetX - smoothFrames n targetX x == 0.85 ^ Z.of_nat n * (targetX - x))%Q /\
      (x <= targetX -> x <= smoothFrames n targetX x /\
                       smoothFrames n targetX x <= targetX)%Q /\
      (targetX <= x -> targetX <= smoothFrames n targetX x /\
                       smoothFrames n targetX x <= x)%Q /\
      (-1.8 <= smoothFrames n targetX x)%Q /\
      (smoothFrames n targetX x <= 1.8)%Q /\
      laneX 3 = None /\ laneX (-1) = None.
Proof.
  intros l x n Hlo Hhi.
  assert (Hv : laneValid (acts l initialPlayer)).
  { apply acts_laneValid. unfold laneValid. simpl. lia. }
  destruct (laneX_valid _ Hv) as (t & Et & Hcases & Hval).
  exists t. split; [exact Et|]. split; [exact Hval|].
  split; [apply smoothFrames_gap|].
  assert (Ht : (-1.8 <= t /\ t <= 1.8)%Q).
  { destruct Hcases as [E|[E|E]]; rewrite E; split; lra. }
  destruct Ht as [Ht1 Ht2].
  split.
  { intros Hle. apply smoothFrames_within; lra. }
  split.
  { intros Hle. apply smoothFrames_within; lra. }
  split; [apply (smoothFrames_within n t x (-1.8) 1.8); assumption|].
  split; [apply (smoothFrames_within n t x (-1.8) 1.8); assumption|].
  split; reflexivity.
Qed.

Lemma lane_transition_contracts_witness :
  exists targetX,
    laneX (laneIndex (acts [AMoveRight GameManager.Playing] initialPlayer))
      = Some targetX /\
    (targetX == inject_Z (laneIndex (acts [AMoveRight GameManager.Playing]
                                          initialPlayer) - 1) * 1.8)%Q /\
    (targetX - smoothFrames 3 targetX 0 == 0.85 ^ Z.of_nat 3 * (targetX - 0))%Q /\
    (0 <= targetX -> 0 <= smoothFrames 3 targetX 0 /\
                     smoothFrames 3 targetX 0 <= targetX)%Q /\
    (targetX <= 0 -> targetX <= smoothFrames 3 targetX 0 /\
                     smoothFrames 3 targetX 0 <= 0)%Q /\
    (-1.8 <= smoothFrames 3 targetX 0)%Q /\
    (smoothFrames 3 targetX 0 <= 1.8)%Q /\
    laneX 3 = None /\ laneX (-1) = None.
Proof.
  apply (lane_transition_contracts [AMoveRight GameManager.Playing] 0 3);
    discriminate.
Defined.

(** The two input handlers.  Outside Playing neither changes the
    player.  While Playing a key does one of moveLeft(), moveRight(),
    jump() or nothing, and a touch always does one of the three, decided
    by the two thresholds as the program computes them, L for
    screenWidth / 3 and R for (screenWidth * 2) / 3, each operation
    rounded in whatever way: moveLeft() when touchX < L; otherwise
    moveRight() when touchX > R; otherwise jump(), so that a touch on a
    computed threshold jumps.  The lane stays in {0, 1, 2} either way. *)
Theorem input_handlers :
  forall (rnd : Q -> Q) (st : GameManager.Status) (key : String.string)
         (w x : Q) (now : Z) (p : PlayerState),
    0 <= laneIndex p <= 2 ->
    let k := handleKeyDown st key now p in
    let t := handleTouchStart rnd st w x now p in
    let tp := handleTouchStart rnd GameManager.Playing w x now p in
    let L := rnd (w / 3)%Q in
    let R := rnd (rnd (w * 2) / 3)%Q in
    (st <> GameManager.Playing -> k = p /\ t = p) /\
    (k = p \/ k = moveLeft st p \/ k = moveRight st p \/ k = fst (jump st now p)) /\
    ((x < L)%Q -> tp = moveLeft GameManager.Playing p) /\
    ((L <= x)%Q -> (R < x)%Q -> tp = moveRight GameManager.Playing p) /\
    ((L <= x)%Q -> (x <= R)%Q -> tp = fst (jump GameManager.Playing now p)) /\
    0 <= laneIndex k <= 2 /\
    0 <= laneIndex t <= 2.
Proof.
  intros rnd st key w x now p Hl k t tp L R.
  assert (Hjump : forall s, laneIndex (fst (jump s now p)) = laneIndex p).
  { intros s. unfold jump. destruct (negb (isJumping p) && isPlaying s); reflexivity. }
  assert (HL : forall s, 0 <= laneIndex (moveLeft s p) <= 2).
  { intros s. apply (act_laneValid (AMoveLeft s) p). exact Hl. }
  assert (HR : forall s, 0 <= laneIndex (moveRight s p) <= 2).
  { intros s. apply (act_laneValid (AMoveRight s) p). exact Hl. }
  assert (Hk : k = p \/ k = moveLeft st p \/ k = moveRight st p \/
               k = fst (jump st now p)).
  { unfold k, handleKeyDown.
    destruct (negb (isPlaying st)); [left; reflexivity|].
    destruct (_ || _); [right; left; reflexivity|].
    destruct (_ || _); [right; right; left; reflexivity|].
    destruct (_ || _); [right; right; right; reflexivity|left; reflexivity]. }
  assert (Ht : t = p \/ t = moveLeft st p \/ t = moveRight st p \/
               t = fst (jump st now p)).
  { unfold t, handleTouchStart.
    destruct (negb (isPlaying st)); [left; reflexivity|].
    destruct (Qltb x _); [right; left; reflexivity|].
    destruct (Qltb _ x); [right; right; left; reflexivity|].
    right; right; right; reflexivity. }
  assert (Htp : tp = if Qltb x L then moveLeft GameManager.Playing p
                     else if Qltb R x then moveRight GameManager.Playing p
                     else fst (jump GameManager.Playing now p)) by reflexivity.
  split.
  { intros Hst. unfold k, t, handleKeyDown, handleTouchStart.
    rewrite (isPlaying_false st Hst). split; reflexivity. }
  split; [exact Hk|].
  split.
  { intros Hx. rewrite Htp. apply Qltb_lt in Hx. rewrite Hx. reflexivity. }
  split.
  { intros H1 H2. rewrite Htp. apply Qltb_ge in H1. apply Qltb_lt in H2.
    rewrite H1, H2. reflexivity. }
  split.
  { intros H1 H2. rewrite Htp. apply Qltb_ge in H1. apply Qltb_ge in H2.
    rewrite H1, H2. reflexivity. }
  split.
  - destruct Hk as [E|[E|[E|E]]]; rewrite E; auto. rewrite Hjump. exact Hl.
  - destruct Ht as [E|[E|[E|E]]]; rewrite E; auto. rewrite Hjump. exact Hl.
Qed.

Import String.

(** The theorem in exact arithmetic, for a screen of 300 and a touch at
    100. *)
Lemma input_handlers_witness :
  let rnd := fun q : Q => q in
  let p := initialPlayer in
  let k := handleKeyDown GameManager.GameOver "a"%string 0 p in
  let t := handleTouchStart rnd GameManager.GameOver 300 100 0 p in
  let tp := handleTouchStart rnd GameManager.Playing 300 100 0 p in
  let L := rnd (300 / 3)%Q in
  let R := rnd (rnd (300 * 2) / 3)%Q in
  (GameManager.GameOver <> GameManager.Playing -> k = p /\ t = p) /\
  (k = p \/ k = moveLeft GameManager.GameOver p \/
   k = moveRight GameManager.GameOver p \/
   k = fst (jump GameManager.GameOver 0 p)) /\
  ((100 < L)%Q -> tp = moveLeft GameManager.Playing p) /\
  ((L <= 100)%Q -> (R < 100)%Q -> tp = moveRight GameManager.Playing p) /\
  ((L <= 100)%Q -> (100 <= R)%Q -> tp = fst (jump GameManager.Playing 0 p)) /\
  0 <= laneIndex k <= 2 /\
  0 <= laneIndex t <= 2.
Proof.
  intros rnd p.
  apply (input_handlers rnd GameManager.GameOver "a"%string 300 100 0 p).
  simpl. lia.
Defined.

(** A touch on the computed threshold.  For a screen of 100 the doubles of
    the program give 33.333333333333336 and 66.66666666666667 for the two
    thresholds, both above the exact thirds.  A touch at the second of
    them is right of the exact 200/3 and yet jumps. *)
Example touch_on_the_computed_threshold :
  let L := (4691249611844267 # 140737488355328)%Q in
  let R := (4691249611844267 # 70368744177664)%Q in
  let rnd := fun q : Q =>
    if Qeq_bool q (100 / 3) then L else if Qeq_bool q (200 / 3) then R else q in
  (100 * 2 / 3 < R)%Q /\
  handleTouchStart rnd GameManager.Playing 100 R 7 initialPlayer
    = fst (jump GameManager.Playing 7 initialPlayer) /\
  handleTouchStart (fun q => q) GameManager.Playing 100 R 7 initialPlayer
    = moveRight GameManager.Playing initialPlayer.
Proof. repeat split. Qed.

(** The keys of the handler, one by one, from the centre lane. *)
Example keys_from_centre :
  let key k := handleKeyDown GameManager.Playing k 7 initialPlayer in
  map (fun k => laneIndex (key k))
      ["ArrowLeft"; "a"; "ArrowRight"; "d"; "ArrowUp"; " "; "w"; "s"; "A"]%string
    = [0; 0; 2; 2; 1; 1; 1; 1; 1] /\
  map (fun k => isJumping (key k))
      ["ArrowLeft"; "a"; "ArrowRight"; "d"; "ArrowUp"; " "; "w"; "s"; "A"]%string
    = [false; false; false; false; true; true; true; false; false].
Proof. split; reflexivity. Qed.

End PlayerInputs.

(** ** The spawner *)

Section Spawner.

Import Obstacles.

Lemma Qfloor_between (x : Q) (k : Z) :
  Qfloor x = k <-> (inject_Z k <= x /\ x < inject_Z (k + 1))%Q.
Proof.
  split.
  - intros E. subst k. split; [apply Qfloor_le|apply Qlt_floor].
  - intros [H1 H2].
    pose proof (Qfloor_le x) as F1. pose proof (Qlt_floor x) as F2.
    assert (A : (inject_Z (Qfloor x) < inject_Z (k + 1))%Q)
      by (eapply Qle_lt_trans; eassumption).
    assert (B : (inject_Z k < inject_Z (Qfloor x + 1))%Q)
      by (eapply Qle_lt_trans; eassumption).
    rewrite <- Zlt_Qlt in A, B. lia.
Qed.

(** With the identity for the rounding, the spawn is the one of exact
    arithmetic. *)
Lemma spawn_exact (d : Draw) (m : Manager) :
  spawn d m = spawnWith (fun x => x) d m.
Proof. reflexivity. Qed.

Lemma spawnTypeWith_thresholds (rnd : Q -> Q) (p : Q) :
  (rnd 0.5 <= rnd 0.8)%Q -> (rnd 0.8 <= rnd 0.95)%Q ->
  (spawnTypeWith rnd p = rock <-> p < rnd 0.5)%Q /\
  (spawnTypeWith rnd p = coin <-> rnd 0.5 <= p /\ p < rnd 0.8)%Q /\
  (spawnTypeWith rnd p = chilly <-> rnd 0.8 <= p /\ p < rnd 0.95)%Q /\
  (spawnTypeWith rnd p = magnet <-> rnd 0.95 <= p)%Q.
Proof.
  intros H1 H2. unfold spawnTypeWith.
  destruct (Player.Qltb p (rnd 0.5%Q)) eqn:E1;
    [apply Qltb_lt in E1|apply Qltb_ge in E1];
    [repeat split; intros; try discriminate; try reflexivity; try lra|].
  destruct (Player.Qltb p (rnd 0.8%Q)) eqn:E2;
    [apply Qltb_lt in E2|apply Qltb_ge in E2];
    [repeat split; intros; try discriminate; try reflexivity; try lra|].
  destruct (Player.Qltb p (rnd 0.95%Q)) eqn:E3;
    [apply Qltb_lt in E3|apply Qltb_ge in E3];
    repeat split; intros; try discriminate; try reflexivity; try lra.
Qed.

(** What spawn() puts at the end of the list, with the numbers rounded as
    the machine rounds them: the rounding is monotone, exact on 0, 1, 2
    and 3, and takes 3 * (1 - 2^-53) under 3; the draw for the lane is a
    double of [0, 1), at most 1 - 2^-53.  The entity is at z = -60.  Its
    lane is the integer part of the rounded product laneProb * 3 and lies
    in {0, 1, 2}; it is the lane of the exact third the draw lies in, or
    the next lane when the product is rounded up to that integer.  Its
    type is Hazard for a draw below the double of 0.5, Coin from there to
    the double of 0.8, SpeedBoost from there to the double of 0.95 and
    Magnet from there on.  The entities already there stay as they are. *)
Theorem spawn_entity :
  forall (rnd : Q -> Q) (d : Draw) (m : Manager),
    (forall x y, x <= y -> rnd x <= rnd y)%Q ->
    (forall k : Z, 0 <= k <= 3 -> (rnd (inject_Z k) == inject_Z k)%Q) ->
    (rnd (MAX_RANDOM * 3) < 3)%Q ->
    (0 <= laneProb d)%Q -> (laneProb d <= MAX_RANDOM)%Q ->
    exists e,
      items (fst (spawnWith rnd d m)) = items m ++ [e] /\
      id e = newId d /\ z e = SPAWN_DISTANCE /\
      0 <= lane e <= 2 /\
      (forall k, lane e = k <->
         (inject_Z k <= rnd (laneProb d * 3) /\
          rnd (laneProb d * 3) < inject_Z (k + 1))%Q) /\
      spawnLane (laneProb d) <= lane e <= spawnLane (laneProb d) + 1 /\
      (lane e = spawnLane (laneProb d) + 1 ->
         (rnd (laneProb d * 3) == inject_Z (lane e))%Q) /\
      (type e = rock <-> typeProb d < rnd 0.5)%Q /\
      (type e = coin <-> rnd 0.5 <= typeProb d /\ typeProb d < rnd 0.8)%Q /\
      (type e = chilly <-> rnd 0.8 <= typeProb d /\ typeProb d < rnd 0.95)%Q /\
      (type e = magnet <-> rnd 0.95 <= typeProb d)%Q /\
      mount e = {| data := e; positionZ := -60; collected := false; visible := true |}.
Proof.
  intros rnd d m Hmono Hint Hmax Hl0 Hl1.
  eexists. split; [reflexivity|]. simpl.
  split; [reflexivity|]. split; [reflexivity|].
  set (x := (laneProb d * 3)%Q).
  set (f := Qfloor x).
  assert (Hx0 : (0 <= x)%Q) by (unfold x; lra).
  assert (Hx3 : (x <= MAX_RANDOM * 3)%Q) by (unfold x; lra).
  assert (Hf1 : (inject_Z f <= x)%Q) by apply Qfloor_le.
  assert (Hf2 : (x < inject_Z (f + 1))%Q) by apply Qlt_floor.
  assert (Hf : 0 <= f <= 2).
  { assert (A : (inject_Z f < inject_Z 3)%Q).
    { eapply Qle_lt_trans; [exact Hf1|].
      eapply Qle_lt_trans; [exact Hx3|]. reflexivity. }
    assert (B : (inject_Z 0 < inject_Z (f + 1))%Q).
    { eapply Qle_lt_trans; [exact Hx0|exact Hf2]. }
    rewrite <- Zlt_Qlt in A, B. lia. }
  assert (Hr0 : (0 <= rnd x)%Q).
  { rewrite <- (Hint 0 ltac:(lia)). apply Hmono. exact Hx0. }
  assert (Hr3 : (rnd x < 3)%Q).
  { eapply Qle_lt_trans; [apply Hmono; exact Hx3|exact Hmax]. }
  assert (Hr1 : (inject_Z f <= rnd x)%Q).
  { rewrite <- (Hint f ltac:(lia)). apply Hmono. exact Hf1. }
  assert (Hr2 : (rnd x <= inject_Z (f + 1))%Q).
  { rewrite <- (Hint (f + 1) ltac:(lia)). apply Hmono. apply Qlt_le_weak. exact Hf2. }
  assert (Hg1 : (inject_Z (Qfloor (rnd x)) <= rnd x)%Q) by apply Qfloor_le.
  assert (Hg2 : (rnd x < inject_Z (Qfloor (rnd x) + 1))%Q) by apply Qlt_floor.
  assert (Hlane : 0 <= Qfloor (rnd x) <= 2).
  { assert (A : (inject_Z (Qfloor (rnd x)) < inject_Z 3)%Q).
    { eapply Qle_lt_trans; [exact Hg1|exact Hr3]. }
    assert (B : (inject_Z 0 < inject_Z (Qfloor (rnd x) + 1))%Q).
    { eapply Qle_lt_trans; [exact Hr0|exact Hg2]. }
    rewrite <- Zlt_Qlt in A, B. lia. }
  assert (Hnear : f <= Qfloor (rnd x) <= f + 1).
  { assert (A : (inject_Z f < inject_Z (Qfloor (rnd x) + 1))%Q).
    { eapply Qle_lt_trans; [exact Hr1|exact Hg2]. }
    assert (B : (inject_Z (Qfloor (rnd x)) <= inject_Z (f + 1))%Q).
    { eapply Qle_trans; [exact Hg1|exact Hr2]. }
    rewrite <- Zlt_Qlt in A. rewrite <- Zle_Qle in B. lia. }
  unfold spawnLaneWith, spawnLane. fold x. fold f.
  split; [exact Hlane|].
  split; [intros k; apply Qfloor_between|].
  split; [exact Hnear|].
  split.
  { intros E. rewrite E. apply Qle_antisym; [exact Hr2|].
    rewrite <- E. exact Hg1. }
  assert (T58 : (rnd 0.5 <= rnd 0.8)%Q) by (apply Hmono; lra).
  assert (T89 : (rnd 0.8 <= rnd 0.95)%Q) by (apply Hmono; lra).
  destruct (spawnTypeWith_thresholds rnd (typeProb d) T58 T89) as (T1 & T2 & T3 & T4).
  split; [exact T1|]. split; [exact T2|]. split; [exact T3|].
  split; [exact T4|reflexivity].
Qed.

(** The theorem in exact arithmetic, for a draw in the middle third. *)
Lemma spawn_entity_witness :
  let rnd := fun q : Q => q in
  let d := mkDraw 7 0.85 0.5 0.25 in
  exists e,
    items (fst (spawnWith rnd d initialManager)) = items initialManager ++ [e] /\
    id e = newId d /\ z e = SPAWN_DISTANCE /\
    0 <= lane e <= 2 /\
    (forall k, lane e = k <->
       (inject_Z k <= rnd (laneProb d * 3) /\
        rnd (laneProb d * 3) < inject_Z (k + 1))%Q) /\
    spawnLane (laneProb d) <= lane e <= spawnLane (laneProb d) + 1 /\
    (lane e = spawnLane (laneProb d) + 1 ->
       (rnd (laneProb d * 3) == inject_Z (lane e))%Q) /\
    (type e = rock <-> typeProb d < rnd 0.5)%Q /\
    (type e = coin <-> rnd 0.5 <= typeProb d /\ typeProb d < rnd 0.8)%Q /\
    (type e = chilly <-> rnd 0.8 <= typeProb d /\ typeProb d < rnd 0.95)%Q /\
    (type e = magnet <-> rnd 0.95 <= typeProb d)%Q /\
    mount e = {| data := e; positionZ := -60; collected := false; visible := true |}.
Proof.
  intros rnd d.
  apply (spawn_entity rnd d initialManager).
  - intros x y H. exact H.
  - intros k _. reflexivity.
  - reflexivity.
  - simpl. discriminate.
  - simpl. discriminate.
Defined.

(** A draw just under two thirds.  The double 0.6666666666666666 is under
    2/3, the exact product with 3 is under 2 and the third it lies in is
    the middle one; the product of the machine is rounded to 2 and the
    lane is 2. *)
Example lane_of_a_draw_rounded_up :
  let r := (6004799503160661 # 9007199254740992)%Q in
  let rnd := fun q : Q => if Qeq_bool q (r * 3) then 2%Q else q in
  (r < 2 / 3)%Q /\ spawnLane r = 1 /\ spawnLaneWith rnd r = 2.
Proof. repeat split. Qed.

Lemma spawnAll_count (ds : list Draw) :
  forall m, 0 <= spawnCount m ->
    spawnCount (fst (spawnAll ds m)) = spawnCount m + Z.of_nat (length ds) /\
    Z.of_nat (snd (spawnAll ds m))
      = (spawnCount m + Z.of_nat (length ds)) / 10 - spawnCount m / 10 /\
    length (items (fst (spawnAll ds m))) = (length (items m) + length ds)%nat.
Proof.
  induction ds as [|d ds IH]; intros m Hm.
  - simpl. rewrite Z.add_0_r, Nat.add_0_r. repeat split; lia.
  - cbn [spawnAll]. cbv zeta.
    assert (Hm1 : 0 <= spawnCount (fst (spawn d m))) by (simpl; lia).
    destruct (IH (fst (spawn d m)) Hm1) as (A & B & C).
    cbn [fst snd]. rewrite A, C.
    change (spawnCount (fst (spawn d m))) with (spawnCount m + 1) in *.
    change (snd (spawn d m)) with (Z.rem (spawnCount m + 1) 10 =? 0).
    change (items (fst (spawn d m))) with (items m ++
      [{| id := newId d; type := spawnType (typeProb d);
          lane := spawnLane (laneProb d); z := SPAWN_DISTANCE |}]).
    rewrite length_app. cbn [length].
    split; [lia|]. split; [|lia].
    rewrite Nat2Z.inj_add, B.
    rewrite Z.rem_mod_nonneg by lia.
    replace (spawnCount m + Z.of_nat (S (length ds)))
      with (spawnCount m + 1 + Z.of_nat (length ds)) by lia.
    assert (Hstep : Z.of_nat (if ((spawnCount m + 1) mod 10 =? 0)%Z
                              then 1%nat else 0%nat)
                    = (spawnCount m + 1) / 10 - spawnCount m / 10).
    { pose proof (Z.div_mod (spawnCount m) 10 ltac:(lia)) as D0.
      pose proof (Z.div_mod (spawnCount m + 1) 10 ltac:(lia)) as D1.
      pose proof (Z.mod_pos_bound (spawnCount m) 10 ltac:(lia)) as P0.
      pose proof (Z.mod_pos_bound (spawnCount m + 1) 10 ltac:(lia)) as P1.
      destruct (Z.eqb_spec ((spawnCount m + 1) mod 10) 0); simpl; lia. }
    lia.
Qed.

(** The spawn counter: from a manager that has not spawned yet, [n] spawns
    leave [n] more entities in the list and call increaseSpeed() n / 10
    times, at every tenth spawn. *)
Theorem spawns_increase_speed_every_tenth :
  forall (ds : list Draw) (m : Manager),
    spawnCount m = 0 ->
    spawnCount (fst (spawnAll ds m)) = Z.of_nat (length ds) /\
    snd (spawnAll ds m) = (length ds / 10)%nat /\
    length (items (fst (spawnAll ds m))) = (length (items m) + length ds)%nat /\
    (forall d m', snd (spawn d m') = true <-> Z.rem (spawnCount m' + 1) 10 = 0).
Proof.
  intros ds m Hm.
  destruct (spawnAll_count ds m ltac:(lia)) as (A & B & C).
  rewrite Hm in A, B. simpl in A, B.
  split; [exact A|].
  split.
  { apply Nat2Z.inj. rewrite B, Z.sub_0_r.
    rewrite Nat2Z.inj_div. reflexivity. }
  split; [exact C|].
  intros d m'. simpl. apply Z.eqb_eq.
Qed.

Lemma spawns_increase_speed_every_tenth_witness :
  let ds := repeat (mkDraw 0 0.1 0.5 0.5) 25 in
  spawnCount (fst (spawnAll ds initialManager)) = Z.of_nat (length ds) /\
  snd (spawnAll ds initialManager) = (length ds / 10)%nat /\
  length (items (fst (spawnAll ds initialManager)))
    = (length (items initialManager) + length ds)%nat /\
  (forall d m', snd (spawn d m') = true <-> Z.rem (spawnCount m' + 1) 10 = 0).
Proof.
  intro ds. apply (spawns_increase_speed_every_tenth ds initialManager).
  reflexivity.
Defined.

End Spawner.

(** ** The obstacle manager *)

Section ManagerFrames.

Import Obstacles.

Lemma filter_length_le {A : Type} (f : A -> bool) (l : list A) :
  (length (filter f l) <= length l)%nat.
Proof. induction l as [|x l IH]; simpl; [lia|]. destruct (f x); simpl; lia. Qed.

Lemma filter_all {A : Type} (f : A -> bool) (l : list A) :
  (forall x, In x l -> f x = true) -> filter f l = l.
Proof.
  induction l as [|x l IH]; simpl; intros H; [reflexivity|].
  rewrite (H x (or_introl eq_refl)). f_equal. apply IH. intros y Hy. apply H.
  right. exact Hy.
Qed.

Lemma removeItem_length_unique (i : nat) (l : list ObstacleData) :
  NoDup (map id l) -> In i (map id l) ->
  S (length (filter (fun x => negb (Nat.eqb (id x) i)) l)) = length l.
Proof.
  induction l as [|x l IH]; simpl; intros Hnd Hin; [destruct Hin|].
  inversion Hnd as [|? ? Hx Hl]; subst.
  destruct (Nat.eqb_spec (id x) i) as [E|E]; simpl.
  - f_equal. f_equal. apply filter_all.
    intros y Hy. apply negb_true_iff. apply Nat.eqb_neq.
    intro Ey. apply Hx. rewrite E, <- Ey. apply in_map. exact Hy.
  - f_equal. apply IH; [exact Hl|]. destruct Hin as [H|H]; [contradiction|exact H].
Qed.

(** removeItem(id) takes away every entity with that id and no other one,
    keeps the order of the rest and the two counters, and changes nothing
    when no entity has the id; a second call changes nothing more; when the
    ids are all different and one entity has the id, exactly one entity
    goes. *)
Theorem removeItem_removes_that_id :
  forall (i : nat) (m : Manager),
    (forall x, In x (items (removeItem i m)) <-> In x (items m) /\ id x <> i) /\
    items (removeItem i m) = filter (fun x => negb (Nat.eqb (id x) i)) (items m) /\
    (length (items (removeItem i m)) <= length (items m))%nat /\
    removeItem i (removeItem i m) = removeItem i m /\
    (~ In i (map id (items m)) -> items (removeItem i m) = items m) /\
    (NoDup (map id (items m)) -> In i (map id (items m)) ->
       S (length (items (removeItem i m))) = length (items m)) /\
    spawnCount (removeItem i m) = spawnCount m /\
    nextSpawnTime (removeItem i m) = nextSpawnTime m.
Proof.
  intros i m.
  split.
  { intros x. simpl. rewrite filter_In, negb_true_iff, Nat.eqb_neq. reflexivity. }
  split; [reflexivity|].
  split; [apply filter_length_le|].
  split.
  { unfold removeItem. simpl. f_equal.
    apply filter_all. intros x Hx. apply filter_In in Hx. apply Hx. }
  split.
  { intros Hn. simpl. apply filter_all.
    intros x Hx. apply negb_true_iff, Nat.eqb_neq.
    intro E. apply Hn. rewrite <- E. apply in_map. exact Hx. }
  split; [apply removeItem_length_unique|].
  split; reflexivity.
Qed.

Lemma removeItem_removes_that_id_witness :
  let m := fst (spawnAll [mkDraw 1 0.1 0.1 0.1; mkDraw 2 0.6 0.5 0.5;
                          mkDraw 3 0.9 0.9 0.9] initialManager) in
  (forall x, In x (items (removeItem 2 m)) <-> In x (items m) /\ id x <> 2%nat) /\
  items (removeItem 2 m) = filter (fun x => negb (Nat.eqb (id x) 2)) (items m) /\
  (length (items (removeItem 2 m)) <= length (items m))%nat /\
  removeItem 2 (removeItem 2 m) = removeItem 2 m /\
  (~ In 2%nat (map id (items m)) -> items (removeItem 2 m) = items m) /\
  (NoDup (map id (items m)) -> In 2%nat (map id (items m)) ->
     S (length (items (removeItem 2 m))) = length (items m)) /\
  spawnCount (removeItem 2 m) = spawnCount m /\
  nextSpawnTime (removeItem 2 m) = nextSpawnTime m.
Proof.
  intro m. apply (removeItem_removes_that_id 2 m).
Defined.

(** The status never returns to Idle: no operation writes it.  So once a game
    was started, the frame of the obstacle manager never empties the list and
    never resets the spawn counter, also not over a game over and a
    restart: outside Playing it leaves the manager as it is. *)
Theorem items_survive_game_over_and_restart :
  forall (ops : list GameManager.Op) (w : GameManager.Store)
         (delta : Q) (d : Draw) (m : Manager),
    let s := GameManager.state (GameManager.run ops (GameManager.startGame w)) in
    GameManager.status s <> GameManager.Idle /\
    (GameManager.status s = GameManager.GameOver ->
       managerFrame s delta d m = (m, false)) /\
    (exists more, items (fst (managerFrame s delta d m)) = items m ++ more) /\
    spawnCount m <= spawnCount (fst (managerFrame s delta d m)).
Proof.
  intros ops w delta d m s.
  assert (Hstep : forall o v, GameManager.status (GameManager.state v) <> GameManager.Idle ->
            GameManager.status (GameManager.state (GameManager.step o v))
              <> GameManager.Idle).
  { intros o v Hv. destruct o; simpl; try exact Hv; try discriminate.
    change (GameManager.status (GameManager.state (GameManager.advance ms v))
              <> GameManager.Idle).
    rewrite advance_status. exact Hv. }
  assert (Hrun : forall l v, GameManager.status (GameManager.state v) <> GameManager.Idle ->
            GameManager.status (GameManager.state (GameManager.run l v))
              <> GameManager.Idle).
  { induction l as [|o l IH]; intros v Hv; simpl; [exact Hv|].
    apply IH. apply Hstep. exact Hv. }
  assert (Hs : GameManager.status s <> GameManager.Idle).
  { apply Hrun. simpl. discriminate. }
  split; [exact Hs|].
  unfold managerFrame.
  destruct (GameManager.status s) eqn:E; simpl.
  - congruence.
  - split; [discriminate|].
    destruct (Qle_bool (nextSpawnTime m - delta) 0); simpl.
    + split; [eexists; reflexivity|lia].
    + split; [exists []; rewrite app_nil_r; reflexivity|lia].
  - split; [reflexivity|].
    split; [exists []; rewrite app_nil_r; reflexivity|lia].
Qed.

Lemma items_survive_game_over_and_restart_witness :
  let ops := [GameManager.OIncrementScore 5; GameManager.OEndGame;
              GameManager.OAdvance 600; GameManager.ORestartGame] in
  let w := GameManager.initialStore None in
  let m := fst (spawnAll [mkDraw 1 0.1 0.1 0.1] initialManager) in
  let s := GameManager.state (GameManager.run ops (GameManager.startGame w)) in
  GameManager.status s <> GameManager.Idle /\
  (GameManager.status s = GameManager.GameOver ->
     managerFrame s (1 # 60) (mkDraw 2 0 0 0) m = (m, false)) /\
  (exists more, items (fst (managerFrame s (1 # 60) (mkDraw 2 0 0 0) m))
                = items m ++ more) /\
  spawnCount m <= spawnCount (fst (managerFrame s (1 # 60) (mkDraw 2 0 0 0) m)).
Proof.
  intros ops w m.
  apply (items_survive_game_over_and_restart ops w (1 # 60) (mkDraw 2 0 0 0) m).
Defined.

(** Before the first game the status is Idle, and there the frame empties a
    list that is not empty and resets the spawn counter. *)
Example manager_frame_in_idle :
  let s := GameManager.initialState None in
  let m := fst (spawnAll [mkDraw 1 0.1 0.1 0.1; mkDraw 2 0.6 0.5 0.5]
                         initialManager) in
  items (fst (managerFrame s (1 # 60) (mkDraw 3 0 0 0) m)) = [] /\
  spawnCount (fst (managerFrame s (1 # 60) (mkDraw 3 0 0 0) m)) = 0.
Proof. split; reflexivity. Qed.

(** The countdown of the spawner while Playing.  A frame takes the frame
    time off the countdown; it spawns exactly when the countdown has come to
    0 or below, one entity, and then sets the countdown to
    (1.5 + 1.5 r) / (speed / 0.12) for the draw r: between 1.5 and 3
    seconds at speed 0.12, and such that the way the entities make in that
    time at this speed, 60 * speed a second, is 10.8 + 10.8 r whatever the
    speed is: at least 10.8 and less than 21.6. *)
Theorem spawn_gap_spacing :
  forall (s : GameManager.GameState) (delta : Q) (d : Draw) (m : Manager),
    GameManager.status s = GameManager.Playing ->
    (0 < GameManager.speed s)%Q ->
    (0 <= gapProb d)%Q -> (gapProb d < 1)%Q ->
    let r := managerFrame s delta d m in
    ((0 < nextSpawnTime m - delta)%Q ->
       items (fst r) = items m /\ snd r = false /\
       nextSpawnTime (fst r) = (nextSpawnTime m - delta)%Q /\
       spawnCount (fst r) = spawnCount m) /\
    ((nextSpawnTime m - delta <= 0)%Q ->
       length (items (fst r)) = S (length (items m)) /\
       spawnCount (fst r) = spawnCount m + 1 /\
       (0 < nextSpawnTime (fst r))%Q /\
       (nextSpawnTime (fst r) * (GameManager.speed s * 60)
          == 10.8 + 10.8 * gapProb d)%Q /\
       (10.8 <= nextSpawnTime (fst r) * (GameManager.speed s * 60))%Q /\
       (nextSpawnTime (fst r) * (GameManager.speed s * 60) < 21.6)%Q /\
       (GameManager.speed s == 0.12 ->
          1.5 <= nextSpawnTime (fst r) /\ nextSpawnTime (fst r) < 3)%Q).
Proof.
  intros s delta d m Hs Hv Hg0 Hg1 r.
  unfold r, managerFrame. rewrite Hs. simpl negb. cbv iota zeta.
  split.
  - intros Hpos.
    assert (E : Qle_bool (nextSpawnTime m - delta) 0 = false).
    { destruct (Qle_bool (nextSpawnTime m - delta) 0) eqn:E; [|reflexivity].
      apply Qle_bool_iff in E. lra. }
    rewrite E. simpl. repeat split; reflexivity.
  - intros Hdue.
    assert (E : Qle_bool (nextSpawnTime m - delta) 0 = true)
      by (apply Qle_bool_iff; exact Hdue).
    rewrite E. simpl.
    set (v := GameManager.speed s) in *.
    assert (Hgap : ((1.5 + gapProb d * 1.5) / (v / 0.12) * (v * 60)
                    == 10.8 + 10.8 * gapProb d)%Q).
    { field; repeat split; try discriminate; intro Hz; lra. }
    assert (Hpos : (0 < (1.5 + gapProb d * 1.5) / (v / 0.12))%Q).
    { apply Qlt_shift_div_l.
      - unfold Qdiv. change (/ 0.12)%Q with (100 # 12)%Q. lra.
      - lra. }
    split; [rewrite length_app; simpl; lia|].
    split; [reflexivity|].
    split; [exact Hpos|].
    split; [exact Hgap|].
    split; [rewrite Hgap; lra|].
    split; [rewrite Hgap; lra|].
    intros Hbase. rewrite Hbase.
    assert (E1 : ((1.5 + gapProb d * 1.5) / (0.12 / 0.12)
                  == 1.5 + gapProb d * 1.5)%Q) by (field; discriminate).
    rewrite E1. split; lra.
Qed.

Lemma spawn_gap_spacing_witness :
  let s := GameManager.state (GameManager.startGame (GameManager.initialStore None)) in
  let d := mkDraw 1 0.1 0.5 0.5 in
  let m := initialManager in
  let r := managerFrame s (1 # 60) d m in
  ((0 < nextSpawnTime m - (1 # 60))%Q ->
     items (fst r) = items m /\ snd r = false /\
     nextSpawnTime (fst r) = (nextSpawnTime m - (1 # 60))%Q /\
     spawnCount (fst r) = spawnCount m) /\
  ((nextSpawnTime m - (1 # 60) <= 0)%Q ->
     length (items (fst r)) = S (length (items m)) /\
     spawnCount (fst r) = spawnCount m + 1 /\
     (0 < nextSpawnTime (fst r))%Q /\
     (nextSpawnTime (fst r) * (GameManager.speed s * 60)
        == 10.8 + 10.8 * gapProb d)%Q /\
     (10.8 <= nextSpawnTime (fst r) * (GameManager.speed s * 60))%Q /\
     (nextSpawnTime (fst r) * (GameManager.speed s * 60) < 21.6)%Q /\
     (GameManager.speed s == 0.12 ->
        1.5 <= nextSpawnTime (fst r) /\ nextSpawnTime (fst r) < 3)%Q).
Proof.
  intros s d m.
  apply (spawn_gap_spacing s (1 # 60) d m); try reflexivity; discriminate.
Defined.

End ManagerFrames.

(** ** The life of an entity *)

Section EntityLife.

Import Obstacles.

(** What a frame can give: a removal, the entity moved or left alone with
    no effect, or the entity collected with the effects of its type. *)
Lemma itemFrame_cases (s : GameManager.GameState) (delta : Q) (it : Item) :
  itemFrame s delta it = Removed \/
  (exists it', itemFrame s delta it = Kept it' [] /\
               collected it' = collected it /\ data it' = data it /\
               (it' = it \/ it' = moved s delta it)) \/
  (itemFrame s delta it
     = Kept (fst (resolve s (moved s delta it))) (snd (resolve s (moved s delta it))) /\
   snd (resolve s (moved s delta it)) <> [] /\
   collected it = false /\
   collected (fst (resolve s (moved s delta it))) = true /\
   hit s (moved s delta it) = true).
Proof.
  unfold itemFrame.
  destruct (negb (Player.isPlaying (GameManager.status s))).
  { right. left. exists it. repeat split; auto. }
  cbv zeta. fold (moved s delta it).
  destruct (Player.Qltb DESPAWN_DISTANCE (positionZ (moved s delta it)));
    [left; reflexivity|].
  change (collected (moved s delta it)) with (collected it).
  destruct (collected it) eqn:Hc; simpl.
  { right. left. exists (moved s delta it). repeat split; auto. }
  destruct (hit s (moved s delta it)) eqn:Hh.
  - destruct (resolve_effects s (moved s delta it)) as (_ & _ & _ & R4).
    destruct (snd (resolve s (moved s delta it))) as [|e es] eqn:Es.
    + right. left. exists (fst (resolve s (moved s delta it))).
      split; [rewrite <- Es; reflexivity|].
      unfold resolve in *. change (type (data (moved s delta it))) with (type (data it)) in *.
      destruct (type (data it)); destruct (GameManager.isJumping s);
        simpl in *; try discriminate Es.
      repeat split; auto.
    + right. right. rewrite <- Es.
      split; [reflexivity|]. rewrite Es.
      split; [discriminate|]. split; [reflexivity|].
      split; [|reflexivity].
      rewrite R4. change (collected (moved s delta it)) with (collected it).
      rewrite Hc. reflexivity.
  - right. left. exists (moved s delta it). repeat split; auto.
Qed.

Lemma resolve_score (s : GameManager.GameState) (it : Item) (w : GameManager.Store) :
  let w' := performAll (snd (resolve s it)) w in
  let gain := (GameManager.score (GameManager.state w')
               - GameManager.score (GameManager.state w))%Z in
  (gain = 0 \/ gain = 2 \/ gain = 3 \/ gain = 5)%Z /\
  (In EndGame (snd (resolve s it)) ->
     gain = 0%Z /\ GameManager.status (GameManager.state w') = GameManager.GameOver) /\
  (~ In EndGame (snd (resolve s it)) ->
     GameManager.status (GameManager.state w')
       = GameManager.status (GameManager.state w)).
Proof.
  unfold resolve.
  destruct (type (data it)); destruct (GameManager.isJumping s); simpl;
    (split; [lia|]); split;
    try (intros H; exfalso;
         repeat (destruct H as [H|H]; try discriminate H); exact H);
    try (intros _; split; [lia|reflexivity]);
    try (intros _; reflexivity);
    try (intros H; exfalso; apply H; right; left; reflexivity).
Qed.

(** An entity gives its effects at most once in its whole life: over any
    run of frames, of any status, speed and frame time, the calls it makes
    are none or those of one collision, so the score it adds to the store is
    0, 2, 3 or 5 and never negative, and a crash adds nothing. *)
Theorem entity_scores_at_most_once :
  forall (l : list (GameManager.GameState * Q)) (it : Item) (w : GameManager.Store),
    let w' := performAll (itemFrames l it) w in
    let gain := (GameManager.score (GameManager.state w')
                 - GameManager.score (GameManager.state w))%Z in
    (itemFrames l it = [] \/
     exists s it0, itemFrames l it = snd (resolve s it0) /\ collected it0 = false) /\
    (gain = 0 \/ gain = 2 \/ gain = 3 \/ gain = 5)%Z /\
    (In EndGame (itemFrames l it) -> gain = 0%Z) /\
    (length (itemFrames l it) <= 3)%nat.
Proof.
  intros l it w.
  assert (Hone : itemFrames l it = [] \/
            exists s it0, itemFrames l it = snd (resolve s it0) /\ collected it0 = false).
  { revert it. induction l as [|[s delta] l IH]; intros it; simpl; [left; reflexivity|].
    destruct (itemFrame_cases s delta it) as [E|[(it' & E & _)|(E & Hne & Hc & Hc' & _)]];
      rewrite E.
    - left. reflexivity.
    - simpl. apply IH.
    - right. exists s, (moved s delta it).
      rewrite (itemFrames_collected l _ Hc'), app_nil_r.
      split; [reflexivity|exact Hc]. }
  cbv zeta.
  split; [exact Hone|].
  destruct Hone as [E|(s & it0 & E & _)]; rewrite E.
  - simpl. split; [left; lia|]. split; [intros []|lia].
  - destruct (resolve_score s it0 w) as (G1 & G2 & _).
    split; [exact G1|]. split; [intros H; apply G2; exact H|].
    unfold resolve. destruct (type (data it0)); destruct (GameManager.isJumping s);
      simpl; lia.
Qed.

Lemma entity_scores_at_most_once_witness :
  let w := GameManager.startGame (GameManager.initialStore None) in
  let it := mkItem (mkData 0 coin 1 (-60)) (-0.5) false true in
  let fr := (GameManager.state w, 1 # 60) in
  let l := [fr; fr; fr; fr] in
  let w' := performAll (itemFrames l it) w in
  let gain := (GameManager.score (GameManager.state w')
               - GameManager.score (GameManager.state w))%Z in
  (itemFrames l it = [] \/
   exists s it0, itemFrames l it = snd (resolve s it0) /\ collected it0 = false) /\
  (gain = 0 \/ gain = 2 \/ gain = 3 \/ gain = 5)%Z /\
  (In EndGame (itemFrames l it) -> gain = 0%Z) /\
  (length (itemFrames l it) <= 3)%nat.
Proof.
  intros w it fr l.
  apply (entity_scores_at_most_once l it w).
Defined.

End EntityLife.

(** ** The way of an entity past the player *)

Section EntityWay.

Import Obstacles.

Lemma itemFrame_position (s : GameManager.GameState) (delta : Q) (it : Item) :
  forall it' e, itemFrame s delta it = Kept it' e ->
    (Player.isPlaying (GameManager.status s) = false /\
     positionZ it' = positionZ it) \/
    (Player.isPlaying (GameManager.status s) = true /\
     positionZ it' = positionZ it + GameManager.speed s * 60 * delta)%Q.
Proof.
  intros it' e E. unfold itemFrame in E.
  destruct (Player.isPlaying (GameManager.status s)); simpl negb in E;
    cbv iota zeta in E.
  - right. split; [reflexivity|].
    simpl positionZ in E. simpl collected in E.
    destruct (Player.Qltb DESPAWN_DISTANCE _) in E; [discriminate E|].
    destruct (negb (collected it)); [|inversion E; reflexivity].
    destruct (hit s _); [|inversion E; reflexivity].
    inversion E. unfold resolve. simpl type.
    destruct (type (data it)); destruct (GameManager.isJumping s); reflexivity.
  - left. inversion E. split; reflexivity.
Qed.

(** An entity that has passed the player, at z >= 1, makes no call any more:
    a Hazard the player has jumped over does not crash into it later.  The
    frames may be of any status, with speeds and frame times that are not
    negative. *)
Theorem passed_entity_is_inert :
  forall (l : list (GameManager.GameState * Q)) (it : Item),
    Forall forward l ->
    (COLLISION_THRESHOLD_Z <= positionZ it)%Q ->
    itemFrames l it = [].
Proof.
  induction l as [|[s delta] l IH]; intros it Hf Hz; [reflexivity|].
  inversion Hf as [|? ? [Hs Hd] Hl]; subst. simpl in Hs, Hd.
  assert (Hstep : (0 <= GameManager.speed s * 60 * delta)%Q).
  { apply Qmult_le_0_compat; [|exact Hd]. lra. }
  simpl.
  destruct (itemFrame_cases s delta it) as [R|[(i & R & _)|(R & _ & _ & _ & Hh)]].
  - rewrite R. reflexivity.
  - rewrite R. simpl. apply IH; [exact Hl|].
    destruct (itemFrame_position s delta it i [] R) as [[_ E]|[_ E]]; rewrite E; lra.
  - exfalso. apply hit_inReach in Hh. destruct Hh as [Hn _].
    change (positionZ (moved s delta it))
      with (positionZ it + GameManager.speed s * 60 * delta)%Q in Hn.
    unfold COLLISION_THRESHOLD_Z in *.
    pose proof (Qle_Qabs (positionZ it + GameManager.speed s * 60 * delta)) as Ha.
    lra.
Qed.

Lemma passed_entity_is_inert_witness :
  let s := GameManager.mkGameState GameManager.Playing 0 0.12 0.12 1 false
             false 0 false false in
  itemFrames [(s, 1 # 60); (s, 1 # 60)]
             (mkItem (mkData 0 rock 1 (-60)) 1.2 false true) = [].
Proof.
  intro s.
  apply (passed_entity_is_inert [(s, 1 # 60); (s, 1 # 60)]
           (mkItem (mkData 0 rock 1 (-60)) 1.2 false true)).
  - repeat constructor; simpl; discriminate.
  - discriminate.
Defined.



(** A frame that moves the entity by the width of the window or more can
    carry it past the player: a Hazard in the lane at z = -1.2, speed 0.6
    and a frame of a tenth of a second. *)
Example long_frame_skips_the_window :
  let s := GameManager.mkGameState GameManager.Playing 0 0.6 0.4 1 false
             false 0 true false in
  let it := mkItem (mkData 0 rock 1 (-60)) (-1.2) false true in
  itemFrames [(s, 1 # 10); (s, 1 # 10); (s, 1 # 10)] it = [].
Proof. reflexivity. Qed.






End EntityWay.

(** ** The sounds *)

Section Sounds.

Import AudioController.

Lemma call_musicSound (c : Call) (a : Audio) :
  musicSound a -> musicSound (call c a).
Proof.
  unfold musicSound.
  destruct a as [i m c0 g b].
  destruct c as [x y|s| | | |prev st];
    try destruct x; try destruct y; try destruct prev; try destruct st;
    destruct i, m, c0, g, b; simpl; intros H; intuition congruence.
Qed.

Lemma calls_musicSound (l : list Call) :
  forall a, musicSound a -> musicSound (calls l a).
Proof.
  unfold calls. induction l as [|c l IH]; intros a H; simpl; [exact H|].
  apply IH. apply call_musicSound. exact H.
Qed.

(** Whatever has been called, the music runs only while the sound is not
    muted and the audio context exists; a muted controller plays nothing
    and starts no music; toggleMute() returns the new value of the flag,
    stops the music when it mutes and does not start it again when it
    unmutes, so two calls restore the flag and leave the music off;
    startMusic() twice is startMusic() once. *)
Theorem mute_silences_and_music_stays_off :
  forall (l : list Call) (s : AudioManager.Sound),
    let a := calls l initialAudio in
    (beatTimer a = true -> muted a = false /\ ac a = true /\ bgGain a = true) /\
    (muted a = true -> play s a = [] /\ startMusic a = a /\ beatTimer a = false) /\
    snd (toggleMute a) = negb (muted a) /\
    muted (fst (toggleMute a)) = negb (muted a) /\
    (muted a = false -> beatTimer (fst (toggleMute a)) = false) /\
    muted (fst (toggleMute (fst (toggleMute a)))) = muted a /\
    beatTimer (fst (toggleMute (fst (toggleMute a)))) = false /\
    startMusic (startMusic a) = startMusic a /\
    (length (play s a) <= 1)%nat.
Proof.
  intros l s a.
  assert (Hinv : musicSound a).
  { apply calls_musicSound. intros Hb. discriminate Hb. }
  clearbody a. unfold musicSound in Hinv.
  destruct a as [i m c g b].
  unfold toggleMute, startMusic, startProceduralBGM, stopMusic, play.
  destruct i, m, c, g, b; simpl in *;
    repeat split; intros; try reflexivity; try lia; try congruence;
    try (destruct Hinv as (A & _); [reflexivity|discriminate A]);
    try (apply Hinv; reflexivity).
Qed.

Lemma mute_silences_and_music_stays_off_witness :
  let a := calls [CInit true true;
                  CStatus GameManager.Idle GameManager.Playing; CToggleMute]
                 initialAudio in
  (beatTimer a = true -> muted a = false /\ ac a = true /\ bgGain a = true) /\
  (muted a = true -> play AudioManager.crash a = [] /\ startMusic a = a /\
                     beatTimer a = false) /\
  snd (toggleMute a) = negb (muted a) /\
  muted (fst (toggleMute a)) = negb (muted a) /\
  (muted a = false -> beatTimer (fst (toggleMute a)) = false) /\
  muted (fst (toggleMute (fst (toggleMute a)))) = muted a /\
  beatTimer (fst (toggleMute (fst (toggleMute a)))) = false /\
  startMusic (startMusic a) = startMusic a /\
  (length (play AudioManager.crash a) <= 1)%nat.
Proof.
  apply (mute_silences_and_music_stays_off
           [CInit true true; CStatus GameManager.Idle GameManager.Playing;
            CToggleMute] AudioManager.crash).
Defined.

(** The effect on the status acts on a change only.  On the change to
    Playing it starts the music if the sound is on and the context exists;
    on the change to GameOver it stops the music and asks for the gameOver
    cue once, which is heard unless the sound is muted; on the change to
    Idle it stops the music.  With the same status as before it does
    nothing. *)
Theorem status_change_drives_the_music :
  forall (prev st : GameManager.Status) (a : Audio),
    prev <> st ->
    let r := onStatus prev st a in
    onStatus st st a = (a, st, []) /\
    snd (fst r) = st /\
    (st = GameManager.Playing ->
       snd r = [] /\
       beatTimer (fst (fst r))
         = (beatTimer a || (negb (muted a) && ac a && bgGain a))%bool) /\
    (st = GameManager.GameOver ->
       beatTimer (fst (fst r)) = false /\
       snd r = play AudioManager.gameOver a /\
       (muted a = false -> initialized a = true ->
          snd r = [Sample AudioManager.gameOver]) /\
       (muted a = true -> snd r = [])) /\
    (st = GameManager.Idle -> beatTimer (fst (fst r)) = false /\ snd r = []) /\
    muted (fst (fst r)) = muted a.
Proof.
  intros prev st a Hne r. unfold r, onStatus, startMusic, startProceduralBGM,
    stopMusic, play.
  destruct a as [i m c g b].
  destruct prev, st; try congruence; simpl;
    repeat split; intros; try discriminate; try reflexivity;
    try (subst; reflexivity);
    destruct m, c, g, b; simpl in *; try reflexivity; try discriminate.
Qed.

Lemma status_change_drives_the_music_witness :
  let a := calls [CInit true true; CStartMusic] initialAudio in
  let r := onStatus GameManager.Playing GameManager.GameOver a in
  onStatus GameManager.GameOver GameManager.GameOver a
    = (a, GameManager.GameOver, []) /\
  snd (fst r) = GameManager.GameOver /\
  (GameManager.GameOver = GameManager.Playing ->
     snd r = [] /\
     beatTimer (fst (fst r))
       = (beatTimer a || (negb (muted a) && ac a && bgGain a))%bool) /\
  (GameManager.GameOver = GameManager.GameOver ->
     beatTimer (fst (fst r)) = false /\
     snd r = play AudioManager.gameOver a /\
     (muted a = false -> initialized a = true ->
        snd r = [Sample AudioManager.gameOver]) /\
     (muted a = true -> snd r = [])) /\
  (GameManager.GameOver = GameManager.Idle ->
     beatTimer (fst (fst r)) = false /\ snd r = []) /\
  muted (fst (fst r)) = muted a.
Proof.
  intro a.
  apply (status_change_drives_the_music GameManager.Playing GameManager.GameOver a).
  discriminate.
Defined.

End Sounds.

(** ** The camera *)

Section Camera.

Import Game.

Lemma speedRatio_cases (v : Q) :
  (v <= 0.4 -> speedRatio v == (v - 0.12) * (100 # 28))%Q /\
  (0.4 <= v -> speedRatio v == 1)%Q.
Proof.
  unfold speedRatio.
  assert (E : ((v - 0.12) / (0.4 - 0.12) == (v - 0.12) * (100 # 28))%Q)
    by (field; discriminate).
  split; intros H.
  - rewrite E. apply Q.min_l. lra.
  - rewrite E. apply Q.min_r. lra.
Qed.

Lemma cameraFrames_gap (n : nat) (v fov : Q) :
  (targetFov v - cameraFrames n v fov == 0.9 ^ Z.of_nat n * (targetFov v - fov))%Q.
Proof.
  induction n as [|n IH].
  - simpl. ring.
  - change (cameraFrames (S n) v fov) with (cameraFrame v (cameraFrames n v fov)).
    assert (Hs : forall x, (targetFov v - cameraFrame v x == 0.9 * (targetFov v - x))%Q)
      by (intros x; unfold cameraFrame; ring).
    rewrite Hs, IH.
    rewrite Nat2Z.inj_succ, <- Z.add_1_r.
    rewrite Qpower_plus by discriminate.
    change (0.9 ^ 1)%Q with 0.9%Q. ring.
Qed.

(** The field of view the camera aims at grows with the speed and stops at
    80: it is 60 at speed 0.12 and 80 from speed 0.4 on, also under a
    boost.  In every reachable store it is at most 80 and, where the speed
    is not the 0 of GameOver, at least 60; at speed 0 it is 360/7, below
    60: the ratio has no lower bound.  Each frame takes off a tenth of the
    distance to it, so that 0.9^n of the distance is left after n frames. *)
Theorem camera_fov_follows_speed :
  forall (w : GameManager.Store) (v1 v2 fov : Q) (n : nat),
    GameManager.reachable w ->
    (v1 <= v2)%Q ->
    let v := GameManager.speed (GameManager.state w) in
    (targetFov v <= 80)%Q /\
    (360 # 7 <= targetFov v)%Q /\
    (GameManager.status (GameManager.state w) <> GameManager.GameOver ->
       60 <= targetFov v)%Q /\
    (targetFov v1 <= targetFov v2)%Q /\
    (targetFov 0.12 == 60)%Q /\
    (0.4 <= v2 -> targetFov v2 == 80)%Q /\
    (targetFov 0 == 360 # 7)%Q /\
    (targetFov v - cameraFrames n v fov == 0.9 ^ Z.of_nat n * (targetFov v - fov))%Q.
Proof.
  intros w v1 v2 fov n Hw Hle v.
  destruct (reachable_speed_bounds w Hw) as (S0 & S1 & S2).
  fold v in S0, S1, S2.
  assert (Hmono : forall a b, (a <= b)%Q -> (speedRatio a <= speedRatio b)%Q).
  { intros a b Hab. unfold speedRatio.
    apply Q.min_le_compat_r.
    assert (Ea : ((a - 0.12) / (0.4 - 0.12) == (a - 0.12) * (100 # 28))%Q)
      by (field; discriminate).
    assert (Eb : ((b - 0.12) / (0.4 - 0.12) == (b - 0.12) * (100 # 28))%Q)
      by (field; discriminate).
    rewrite Ea, Eb. lra. }
  assert (Hup : forall a, (speedRatio a <= 1)%Q)
    by (intros a; unfold speedRatio; apply Q.le_min_r).
  assert (H0 : (speedRatio 0 == - (12 # 28))%Q) by reflexivity.
  assert (H12 : (speedRatio 0.12 == 0)%Q) by reflexivity.
  unfold targetFov.
  split; [pose proof (Hup v); lra|].
  split; [pose proof (Hmono 0%Q v S0); lra|].
  split; [intros Hst; pose proof (Hmono 0.12%Q v (S2 Hst)); lra|].
  split; [pose proof (Hmono v1 v2 Hle); lra|].
  split; [rewrite H12; reflexivity|].
  split; [intros H4; destruct (speedRatio_cases v2) as [_ E]; rewrite (E H4); reflexivity|].
  split; [rewrite H0; reflexivity|].
  apply cameraFrames_gap.
Qed.

Lemma camera_fov_follows_speed_witness :
  let w := GameManager.activateBoost 4000
             (GameManager.startGame (GameManager.initialStore None)) in
  let v := GameManager.speed (GameManager.state w) in
  (targetFov v <= 80)%Q /\
  (360 # 7 <= targetFov v)%Q /\
  (GameManager.status (GameManager.state w) <> GameManager.GameOver ->
     60 <= targetFov v)%Q /\
  (targetFov 0.2 <= targetFov 0.3)%Q /\
  (targetFov 0.12 == 60)%Q /\
  (0.4 <= 0.3 -> targetFov 0.3 == 80)%Q /\
  (targetFov 0 == 360 # 7)%Q /\
  (targetFov v - cameraFrames 5 v 60 == 0.9 ^ Z.of_nat 5 * (targetFov v - 60))%Q.
Proof.
  intro w.
  apply (camera_fov_follows_speed w 0.2 0.3 60 5).
  - apply (GameManager.reachable_step (GameManager.OActivateBoost 4000)).
    apply (GameManager.reachable_step GameManager.OStartGame).
    apply GameManager.reachable_init.
  - discriminate.
Defined.

End Camera.

(** ** The store: the progression in closed form *)

Section Progression.

Import GameManager.

Lemma nextBase_min (a : Q) :
  (nextBase (Qmin a 0.4) == Qmin (a + 0.003) 0.4)%Q.
Proof.
  unfold nextBase.
  destruct (Q.min_spec a 0.4) as [[L E]|[L E]]; rewrite E.
  - reflexivity.
  - rewrite (Q.min_r (0.4 + 0.003) 0.4) by lra.
    rewrite (Q.min_r (a + 0.003) 0.4) by lra. reflexivity.
Qed.

Lemma nextBase_compat (a b : Q) : (a == b)%Q -> (nextBase a == nextBase b)%Q.
Proof. intros E. unfold nextBase. rewrite E. reflexivity. Qed.

(** The base speed after [n] calls of increaseSpeed() in a run, in closed
    form: min(0.12 + 0.003 n, 0.4); it is below 0.4 for the first 93 calls
    and 0.4 from the 94th on. *)
Theorem baseSpeed_after_n_calls :
  forall (w : Store) (n : nat),
    let w' := Nat.iter n increaseSpeed (startGame w) in
    (baseSpeed (state w') == Qmin (0.12 + 0.003 * inject_Z (Z.of_nat n)) 0.4)%Q /\
    ((n <= 93)%nat -> baseSpeed (state w') < 0.4)%Q /\
    ((94 <= n)%nat -> baseSpeed (state w') == 0.4)%Q /\
    status (state w') = Playing /\
    score (state w') = 0.
Proof.
  intros w n w'.
  assert (Hb : (baseSpeed (state w')
                == Qmin (0.12 + 0.003 * inject_Z (Z.of_nat n)) 0.4)%Q).
  { unfold w'.
    destruct (iter_increaseSpeed n (startGame w)) as (_ & _ & E). rewrite E.
    change (baseSpeed (state (startGame w))) with 0.12%Q.
    clear E. induction n as [|n IH].
    - reflexivity.
    - change (Nat.iter (S n) nextBase 0.12%Q)
        with (nextBase (Nat.iter n nextBase 0.12%Q)).
      rewrite (nextBase_compat _ _ IH), nextBase_min.
      rewrite Nat2Z.inj_succ, <- Z.add_1_r, inject_Z_plus.
      change (inject_Z 1) with 1%Q.
      assert (Ea : (0.12 + 0.003 * inject_Z (Z.of_nat n) + 0.003
                    == 0.12 + 0.003 * (inject_Z (Z.of_nat n) + 1))%Q) by ring.
      rewrite Ea. reflexivity. }
  split; [exact Hb|].
  split.
  { intros Hn. rewrite Hb.
    assert (Hq : (inject_Z (Z.of_nat n) <= 93)%Q).
    { change 93%Q with (inject_Z 93). rewrite <- Zle_Qle. lia. }
    apply Q.min_lt_iff. left. lra. }
  split.
  { intros Hn. rewrite Hb.
    assert (Hq : (94 <= inject_Z (Z.of_nat n))%Q).
    { change 94%Q with (inject_Z 94). rewrite <- Zle_Qle. lia. }
    apply Q.min_r. lra. }
  unfold w'. clear Hb.
  induction n as [|n [IH1 IH2]]; simpl; split; try reflexivity; assumption.
Qed.

Lemma baseSpeed_after_n_calls_witness :
  let w' := Nat.iter 50 increaseSpeed (startGame (initialStore None)) in
  (baseSpeed (state w') == Qmin (0.12 + 0.003 * inject_Z (Z.of_nat 50)) 0.4)%Q /\
  ((50 <= 93)%nat -> baseSpeed (state w') < 0.4)%Q /\
  ((94 <= 50)%nat -> baseSpeed (state w') == 0.4)%Q /\
  status (state w') = Playing /\
  score (state w') = 0.
Proof.
  apply (baseSpeed_after_n_calls (initialStore None) 50).
Defined.

End Progression.

(** ** The numbers of the scenarios in binary64 *)

Section Doubles.

Import Floats.
#[local] Open Scope float_scope.
#[local] Set Warnings "-inexact-float".

(** The rationals of the model stand for IEEE doubles.  On the constants of
    the scenarios the double arithmetic of the program gives the doubles
    nearest to the exact results: 0.12 * 1.8 is 0.216, 0.12 + 0.003 is 0.123
    and the arc at 225 ms is 2. *)
Example scenario_values_binary64 :
  (if 0.12 * 1.8 <? 0.6 then 0.12 * 1.8 else 0.6) = 0.216 /\
  0.12 + 0.003 = 0.123 /\
  (let progress := (225 / 1000) / 0.45 in 4 * 2 * progress * (1 - progress)) = 2 /\
  ((450 / 1000) <? 0.45) = false.
Proof. repeat split; reflexivity. Qed.

(** The roundings that decide a branch, in the doubles of the program.  A
    rock at -1.4 moved by 0.4 * 60 * (1 / 60) is at -(1 - 2^-53), within
    the threshold 1.  For a screen of 100 the two thresholds of the touch
    are 4691249611844267 / 2^47 and 4691249611844267 / 2^46, and a touch at
    the second is not right of it.  The product of the draw
    6004799503160661 / 2^53 with 3 is 2, and that of the largest draw,
    1 - 2^-53, is under 3.  The rounding leaves 0, 1, 2 and 3 as they
    are. *)
Example branch_values_binary64 :
  -1.4 + 0.4 * 60 * (1 / 60) = - (9007199254740991 / 9007199254740992) /\
  (abs (-1.4 + 0.4 * 60 * (1 / 60)) <? 1) = true /\
  100 / 3 = 4691249611844267 / 140737488355328 /\
  (100 * 2) / 3 = 4691249611844267 / 70368744177664 /\
  ((100 * 2) / 3 <? 4691249611844267 / 70368744177664) = false /\
  6004799503160661 / 9007199254740992 * 3 = 2 /\
  (9007199254740991 / 9007199254740992 * 3 <? 3) = true /\
  (0 * 3 = 0 /\ 1 + 0 = 1 /\ 1 + 1 = 2 /\ 1 * 3 = 3).
Proof. repeat split; reflexivity. Qed.

End Doubles.
